(** * Chat-history viewer: parsing, summarising, indexing and search

    A shallow embedding of the core of the viewer (server.js and the
    client-side find script): the line normaliser, the Tier-1 summariser
    [generateChatSummary], the index merge [updateHistoryIndex], the
    highlighter [highlightSearchTerm] and the client ranking
    [performFind] / [sortByMatches], with the properties the specification
    states about them; and, with properties read off the code, the project
    names [extractProjectName], the Tier-2 analysis ([getFullConversation],
    [analyzeChat], [runAnalysis]), the chats and projects of the home page,
    the highlighter of the Markdown export and the order of the cards in
    the find script. *)

From Stdlib Require Import ZArith NArith Ascii String Lia.
From stdpp Require Import base option list sorting gmap pretty.

Set Warnings "-register-all".
Local Open Scope list_scope.

(** ** JavaScript strings

    A JavaScript string is a sequence of UTF-16 code units; [length],
    [substring], [includes], [split] and the regular expressions of the
    program all work on code units. *)

Definition char := N.
Bind Scope N_scope with char.
Definition jsstring := list char.

(** String literals of the source are ASCII except for the bullet. *)
Definition js (s : string) : jsstring :=
  map N_of_ascii (list_ascii_of_string s).

Definition bullet : char := 8226%N.   (* U+2022 *)

Definition ch (a : ascii) : char := N_of_ascii a.

Definition char_eqb (a b : char) : bool := N.eqb a b.

Definition in_range (lo hi c : char) : bool :=
  N.leb lo c && N.leb c hi.

(** [\s] of a JavaScript regular expression, which is also the set that
    [String.prototype.trim] strips: WhiteSpace and LineTerminator. *)
Definition isSpace (c : char) : bool :=
  in_range 9 13 c || char_eqb c 32 || char_eqb c 160 || char_eqb c 5760
  || in_range 8192 8202 c || char_eqb c 8232 || char_eqb c 8233
  || char_eqb c 8239 || char_eqb c 8287 || char_eqb c 12288
  || char_eqb c 65279.

Definition isDigit (c : char) : bool := in_range 48 57 c.
Definition isUpper (c : char) : bool := in_range 65 90 c.
Definition isLower (c : char) : bool := in_range 97 122 c.
Definition isAlnum (c : char) : bool := isDigit c || isUpper c || isLower c.

(** [\w] : [[A-Za-z0-9_]]. *)
Definition isWord (c : char) : bool := isAlnum c || char_eqb c 95.

(** [[.!?]] *)
Definition isSentenceEnd (c : char) : bool :=
  char_eqb c 46 || char_eqb c 33 || char_eqb c 63.

Fixpoint takeWhile {A} (p : A -> bool) (l : list A) : list A :=
  match l with
  | [] => []
  | x :: r => if p x then x :: takeWhile p r else []
  end.

Fixpoint dropWhile {A} (p : A -> bool) (l : list A) : list A :=
  match l with
  | [] => []
  | x :: r => if p x then dropWhile p r else l
  end.

Definition trimStart (s : jsstring) : jsstring := dropWhile isSpace s.
Definition trimEnd (s : jsstring) : jsstring :=
  rev (dropWhile isSpace (rev s)).
Definition trim (s : jsstring) : jsstring := trimEnd (trimStart s).

Fixpoint jsstring_eqb (a b : jsstring) : bool :=
  match a, b with
  | [], [] => true
  | x :: a', y :: b' => char_eqb x y && jsstring_eqb a' b'
  | _, _ => false
  end.

(** [s.startsWith(p)] *)
Fixpoint startsWith (p s : jsstring) : bool :=
  match p, s with
  | [], _ => true
  | x :: p', y :: s' => char_eqb x y && startsWith p' s'
  | _ :: _, [] => false
  end.

(** [s.includes(p)] *)
Fixpoint includes (s p : jsstring) : bool :=
  startsWith p s ||
  match s with
  | [] => false
  | _ :: s' => includes s' p
  end.

(** [s.substring(0, n)] *)
Definition substring0 (n : nat) (s : jsstring) : jsstring := take n s.

(** [s.split('\n')]: always at least one piece. *)
Fixpoint split_lines (s : jsstring) : list jsstring :=
  match s with
  | [] => [[]]
  | c :: r =>
      if char_eqb c 10 then [] :: split_lines r
      else match split_lines r with
           | [] => [[c]]
           | l :: ls => (c :: l) :: ls
           end
  end.

(** [pieces.join(sep)] *)
Fixpoint join (sep : jsstring) (pieces : list jsstring) : jsstring :=
  match pieces with
  | [] => []
  | [p] => p
  | p :: ps => p ++ sep ++ join sep ps
  end.

(** Decimal rendering of a non-negative integer, as in a template
    literal. *)
Definition decimal (n : nat) : jsstring := js (pretty n).

(** A conservative stand-in for the two Unicode tables of the runtime on
    text that stays within ASCII: [String.prototype.toLowerCase] and the
    [Canonicalize] operation of case-insensitive matching. They are used
    to run the model on concrete ASCII input; the general results below
    are stated for an arbitrary table. *)
Definition ascii_lower_char (c : char) : char :=
  if isUpper c then (c + 32)%N else c.
Definition ascii_toLowerCase (s : jsstring) : jsstring :=
  map ascii_lower_char s.
Definition ascii_canonicalize (c : char) : char :=
  if isLower c then (c - 32)%N else c.

(** ** JSON values

    What [JSON.parse] yields. A number is kept as an integer: the program
    never computes with the numbers of a log record, it only tests them for
    truthiness and renders them into text. An object is its list of
    members; a property that is missing reads as [undefined], which is
    [None] below. *)

Inductive json : Type :=
  | JNull
  | JBool (b : bool)
  | JNum (n : Z)
  | JStr (s : jsstring)
  | JArr (items : list json)
  | JObj (members : list (jsstring * json)).

(** A JavaScript value as the program sees it: [undefined] or JSON. *)
Definition jsval := option json.

Fixpoint assoc (k : jsstring) (m : list (jsstring * json)) : jsval :=
  match m with
  | [] => None
  | (k', v) :: r => if jsstring_eqb k k' then Some v else assoc k r
  end.

(** Outcome of an expression that may throw. *)
Inductive result (A : Type) : Type :=
  | Ok (a : A)
  | Throw.
Arguments Ok {A} a.
Arguments Throw {A}.

#[global] Instance result_ret : MRet result := fun A a => Ok a.
#[global] Instance result_bind : MBind result := fun A B k r =>
  match r with
  | Ok a => k a
  | Throw => Throw
  end.

(** [v.k]: a TypeError on [null] and [undefined], the member on an
    object, [undefined] on every other JSON value (none of the property
    names the program reads is a built-in of strings, numbers, booleans or
    arrays). *)
Definition prop (v : jsval) (k : string) : jsval :=
  match v with
  | Some (JObj m) => assoc (js k) m
  | _ => None
  end.

Definition get (v : jsval) (k : string) : result jsval :=
  match v with
  | None | Some JNull => Throw
  | Some _ => Ok (prop v k)
  end.

(** ToBoolean *)
Definition truthy (v : jsval) : bool :=
  match v with
  | None | Some JNull => false
  | Some (JBool b) => b
  | Some (JNum n) => negb (Z.eqb n 0)
  | Some (JStr s) => match s with [] => false | _ => true end
  | Some (JArr _) | Some (JObj _) => true
  end.

(** [v === "lit"] *)
Definition is_str (v : jsval) (lit : string) : bool :=
  match v with
  | Some (JStr s) => jsstring_eqb s (js lit)
  | _ => false
  end.

Definition decimalZ (n : Z) : jsstring :=
  match n with
  | Z0 => js "0"
  | Zpos p => decimal (Pos.to_nat p)
  | Zneg p => js "-" ++ decimal (Pos.to_nat p)
  end.

(** ToString on a JSON value; inside [Array.prototype.join] a [null]
    element renders as the empty string. *)
Fixpoint ToString (v : json) : jsstring :=
  match v with
  | JNull => js "null"
  | JBool true => js "true"
  | JBool false => js "false"
  | JNum n => decimalZ n
  | JStr s => s
  | JArr items =>
      join (js ",")
        (map (fun x => match x with JNull => [] | _ => ToString x end) items)
  | JObj _ => js "[object Object]"
  end.

Definition ToString_val (v : jsval) : jsstring :=
  match v with
  | None => js "undefined"
  | Some j => ToString j
  end.

(** The text of an element inside [Array.prototype.join]. *)
Definition join_item (v : json) : jsstring :=
  match v with
  | JNull => []
  | _ => ToString v
  end.

(** ** Array.prototype.sort with a consistent comparator

    Since ES2019 the sort is stable, so for a comparator that is a
    consistent ordering the result is determined: the stable arrangement.
    [before x y] says that [x] may stay in front of [y] (the comparator is
    not positive on them). *)

Fixpoint insert_by {A} (before : A -> A -> bool) (x : A) (l : list A) : list A :=
  match l with
  | [] => [x]
  | y :: r => if before x y then x :: y :: r else y :: insert_by before x r
  end.

Fixpoint sort_by {A} (before : A -> A -> bool) (l : list A) : list A :=
  match l with
  | [] => []
  | x :: r => insert_by before x (sort_by before r)
  end.

(** ** Tier-1 summariser: [generateChatSummary] (server.js 14-109) *)

Inductive msgType := TUser | TAssistant.

Record Message := mkMessage {
  content : json;
  index : nat;
  type : msgType
}.

Record Accomplishment := mkAccomplishment {
  text : jsstring;
  messageIndex : nat;
  anchorId : jsstring
}.

Record Anchor := mkAnchor {
  anchor_id : jsstring;
  anchor_messageIndex : nat
}.

Record SummaryResult := mkSummaryResult {
  summary : jsstring;
  anchors : list Anchor
}.

(** [arr.forEach((msg, idx) => out.push({content: msg, index: f idx, type}))] *)
Fixpoint indexed_from (f : nat -> nat) (t : msgType) (idx : nat) (msgs : list json)
  : list Message :=
  match msgs with
  | [] => []
  | m :: r => mkMessage m (f idx) t :: indexed_from f t (S idx) r
  end.

(** Lines 21-24: user message [i] gets index [2i], assistant message [i]
    gets [2i+1], and the combined array is sorted by index. *)
Definition allMessages (userMessages assistantMessages : list json) : list Message :=
  sort_by (fun a b => Nat.leb (index a) (index b))
    (indexed_from (fun idx => idx * 2) TUser 0 userMessages ++
     indexed_from (fun idx => idx * 2 + 1) TAssistant 0 assistantMessages).

(** The verbs of [actionPatterns], in order. Only [verb] is used: the loop
    builds its own pattern [verb + '\s+([^.!?]+)'] with flag [g]. *)
Definition actionVerbs : list jsstring :=
  map js ["created"; "built"; "implemented"; "added"; "fixed"; "updated";
          "installed"; "configured"; "deployed"; "setup"; "wrote"; "designed";
          "developed"; "optimized"; "refactored"; "debugged"; "resolved";
          "completed"]%string.

Definition strip_prefix (p s : jsstring) : option jsstring :=
  if startsWith p s then Some (drop (length p) s) else None.

(** One attempt of [verb\s+([^.!?]+)] at the start of [s]: the capture
    and the length of the whole match. [\s+] is greedy; when the text
    after the blanks cannot start the group (a sentence end, or the end of
    the string) the matcher backtracks by one blank, which then is the
    whole capture. *)
Definition match_verb_here (verb s : jsstring) : option (jsstring * nat) :=
  match strip_prefix verb s with
  | None => None
  | Some r =>
      let ws := takeWhile isSpace r in
      let cap := takeWhile (fun c => negb (isSentenceEnd c)) (dropWhile isSpace r) in
      match ws, cap with
      | [], _ => None
      | _ :: _, _ :: _ => Some (cap, length verb + length ws + length cap)
      | [_], [] => None
      | _ :: w :: ws', [] => Some ([List.last ws' w], length verb + length ws)
      end
  end.

(** The successive results of [localPattern.exec(msgLower)]: the captures
    of the non-overlapping matches, left to right. [skip] counts the
    characters still covered by the previous match ([lastIndex]). *)
Fixpoint exec_all (verb : jsstring) (skip : nat) (s : jsstring) : list jsstring :=
  match s with
  | [] => []
  | _ :: r =>
      match skip with
      | S k => exec_all verb k r
      | O =>
          match match_verb_here verb s with
          | Some (cap, n) => cap :: exec_all verb (pred n) r
          | None => exec_all verb 0 r
          end
      end
  end.

(** [.replace(/\s+/g, ' ')] *)
Fixpoint collapse_spaces (inRun : bool) (s : jsstring) : jsstring :=
  match s with
  | [] => []
  | c :: r =>
      if isSpace c
      then (if inRun then collapse_spaces true r else 32%N :: collapse_spaces true r)
      else c :: collapse_spaces false r
  end.

(** [.replace(/[^a-z0-9\s]/gi, '')]: under flag [i] the class holds the
    letters of both cases. *)
Definition strip_non_alnum (s : jsstring) : jsstring :=
  List.filter (fun c => isAlnum c || isSpace c) s.

Definition clean (accomplishment : jsstring) : jsstring :=
  trim (strip_non_alnum (collapse_spaces false accomplishment)).

Definition msg_anchor (idx : nat) : jsstring := js "msg-" ++ decimal idx.

Definition nonempty (s : jsstring) : bool :=
  match s with [] => false | _ => true end.

(** Lines 59-73, the body of the [while] loop for one match. *)
Definition keep_phrase (msg : Message) (accomplishments : list Accomplishment)
    (capture : jsstring) : list Accomplishment :=
  let accomplishment := trim capture in
  if Nat.ltb 10 (length accomplishment) && Nat.ltb (length accomplishment) 100 then
    let cleaned := clean accomplishment in
    if nonempty cleaned &&
       negb (existsb (fun a => includes (text a) (substring0 20 cleaned)) accomplishments)
    then accomplishments ++ [mkAccomplishment cleaned (index msg) (msg_anchor (index msg))]
    else accomplishments
  else accomplishments.

(** Line 58: [while ((match = exec()) !== null && accomplishments.length < 5)]. *)
Fixpoint while_matches (msg : Message) (captures : list jsstring)
    (accomplishments : list Accomplishment) : list Accomplishment :=
  match captures with
  | [] => accomplishments
  | capture :: rest =>
      if Nat.ltb (length accomplishments) 5
      then while_matches msg rest (keep_phrase msg accomplishments capture)
      else accomplishments
  end.

(** ** File mentions (line 79) *)

Definition fileExtensions : list jsstring :=
  map js ["js"; "py"; "html"; "css"; "json"; "md"; "txt"; "yml"; "yaml"; "xml";
          "sql"; "sh"; "bat"; "ejs"; "ts"; "tsx"; "jsx"]%string.

Definition isFileChar (c : char) : bool := isWord c || char_eqb c 45.

Definition head_is_word (s : jsstring) : bool :=
  match s with
  | c :: _ => isWord c
  | [] => false
  end.

(** One attempt of [\b[\w-]+\.(js|py|...)\b] at the start of [s], with
    [prev] the character before it. The run [[\w-]+] must be maximal, as
    only the character after a maximal run can be the dot; the
    alternatives are tried in order and the first that ends on a word
    boundary wins. *)
Definition match_file_here (prev : option char) (s : jsstring) : option jsstring :=
  let run := takeWhile isFileChar s in
  match run with
  | [] => None
  | c0 :: _ =>
      if xorb (match prev with Some p => isWord p | None => false end) (isWord c0) then
        match drop (length run) s with
        | dot :: rest =>
            if char_eqb dot 46 then
              match List.find (fun e => startsWith e rest &&
                                        negb (head_is_word (drop (length e) rest)))
                              fileExtensions with
              | Some e => Some (run ++ [46%N] ++ e)
              | None => None
              end
            else None
        | [] => None
        end
      else None
  end.

(** [allText.match(/.../g)]: the matched texts, left to right. *)
Fixpoint file_matches (prev : option char) (skip : nat) (s : jsstring) : list jsstring :=
  match s with
  | [] => []
  | c :: r =>
      match skip with
      | S k => file_matches (Some c) k r
      | O =>
          match match_file_here prev s with
          | Some m => m :: file_matches (Some c) (pred (length m)) r
          | None => file_matches (Some c) 0 r
          end
      end
  end.

(** [[...new Set(xs)]]: first occurrences, in order. *)
Fixpoint unique (seen xs : list jsstring) : list jsstring :=
  match xs with
  | [] => []
  | x :: r =>
      if existsb (jsstring_eqb x) seen then unique seen r
      else x :: unique (x :: seen) r
  end.

Definition string_content (m : Message) : jsstring :=
  match content m with
  | JStr s => s
  | _ => []
  end.

Definition dquote : jsstring := [34%N].

(** Line 102: one bullet of the summary. *)
Definition summary_bullet (chatId : jsstring) (item : Accomplishment) : jsstring :=
  [bullet] ++ js " <a href=" ++ dquote ++ js "/chat/" ++ chatId ++ js "#" ++
  anchorId item ++ dquote ++ js " class=" ++ dquote ++ js "summary-link" ++ dquote ++
  js ">" ++ text item ++ js "</a>".

Section Summariser.

(** [String.prototype.toLowerCase], the Unicode table of the runtime. *)
Variable toLowerCase : jsstring -> jsstring.

(** Lines 53-75: one message under one verb. *)
Definition scan_message (verb : jsstring) (accomplishments : list Accomplishment)
    (msg : Message) : list Accomplishment :=
  let msgLower := toLowerCase (string_content msg) in
  while_matches msg (exec_all verb 0 msgLower) accomplishments.

(** Lines 51-76: every verb, and under it every message. *)
Definition scan_verbs (msgs : list Message) : list Accomplishment :=
  foldl (fun acc verb => foldl (scan_message verb) acc msgs) [] actionVerbs.

(** Line 26 *)
Definition allText (msgs : list Message) : jsstring :=
  toLowerCase (join (js " ") (map (fun m => join_item (content m)) msgs)).

(** Lines 84-87: [allMessages.findIndex(...)]. *)
Definition find_mention (file : jsstring) (msgs : list Message) : option Message :=
  List.find (fun m => includes (toLowerCase (string_content m)) file) msgs.

(** Lines 82-95 *)
Definition add_file (msgs : list Message) (accomplishments : list Accomplishment)
    (file : jsstring) : list Accomplishment :=
  match find_mention file msgs with
  | Some m =>
      accomplishments ++
      [mkAccomplishment (js "worked on " ++ file) (index m) (msg_anchor (index m))]
  | None => accomplishments
  end.

(** Lines 79-96 *)
Definition add_files (msgs : list Message) (accomplishments : list Accomplishment)
    : list Accomplishment :=
  let fileMatches := file_matches None 0 (allText msgs) in
  if negb (Nat.eqb (length fileMatches) 0) && Nat.ltb (length accomplishments) 3 then
    foldl (add_file msgs) accomplishments (take 2 (unique [] fileMatches))
  else accomplishments.

Definition accomplishments_of (userMessages assistantMessages : list json)
    : list Accomplishment :=
  let msgs := allMessages userMessages assistantMessages in
  add_files msgs (scan_verbs msgs).

Definition generateChatSummary (userMessages assistantMessages : list json)
    (firstUserMessage : json) (chatId : jsstring) : SummaryResult :=
  match userMessages with
  | [] => mkSummaryResult (js "Empty conversation") []
  | _ :: _ =>
      let accomplishments := accomplishments_of userMessages assistantMessages in
      match accomplishments with
      | _ :: _ =>
          let shown := take 3 accomplishments in
          mkSummaryResult
            (join [10%N] (map (summary_bullet chatId) shown))
            (map (fun item => mkAnchor (anchorId item) (messageIndex item)) shown)
      | [] =>
          mkSummaryResult
            ([bullet] ++ js " " ++ decimal (length userMessages) ++
             js " message conversation") []
      end
  end.

End Summariser.

(** ** Entry normaliser

    The two per-line readers of server.js: the one of the home page
    (lines 343-396), which collects the texts handed to the summariser, and
    the one of the conversation view (lines 527-660). Both wrap the whole
    treatment of a line in [try ... catch]. *)

Definition newline : jsstring := [10%N].
Definition fence : jsstring := js "```".

(** [entry.message && entry.message.role === lit]: the member is read
    from a truthy value only, which cannot throw. *)
Definition role_is (message : jsval) (lit : string) : bool :=
  truthy message && is_str (prop message "role") lit.

(** [s.split(sep).pop()]: the text after the last [sep]. *)
Fixpoint after_last (sep : char) (s : jsstring) : jsstring :=
  match s with
  | [] => []
  | c :: r =>
      if existsb (char_eqb sep) r then after_last sep r
      else if char_eqb c sep then r else s
  end.

(** Lines 569-613: the language of the fence, by extension. *)
Definition language_of (fileExt : jsstring) : jsstring :=
  let ext e := jsstring_eqb fileExt (js e) in
  if ext "md" || ext "markdown" then []
  else if ext "js" || ext "jsx" then js "javascript"
  else if ext "ts" || ext "tsx" then js "typescript"
  else if ext "py" then js "python"
  else if ext "html" then js "html"
  else if ext "css" then js "css"
  else if ext "json" then js "json"
  else if ext "yml" || ext "yaml" then js "yaml"
  else if ext "xml" then js "xml"
  else if ext "sql" then js "sql"
  else if ext "sh" || ext "bash" then js "bash"
  else js "text".

Record Extracted := mkExtracted {
  ex_userMessages : list json;
  ex_assistantMessages : list json;
  ex_firstUserMessage : json
}.

Inductive role := RUser | RAssistant | RToolResult.

(** A message of the conversation view. [htmlContent] is [null] ([None])
    or a string. *)
Record ViewMessage := mkViewMessage {
  vm_role : role;
  vm_content : jsstring;
  vm_htmlContent : option jsstring;
  vm_timestamp : jsval;
  vm_model : jsval
}.

Section Normaliser.

Variable toLowerCase : jsstring -> jsstring.
(** [JSON.parse]; [None] is a SyntaxError. *)
Variable JSON_parse : jsstring -> option json.
(** [JSON.stringify(v)] and [JSON.stringify(v, null, 2)]. *)
Variable JSON_stringify : json -> jsstring.
Variable JSON_stringify2 : json -> jsstring.
(** [marked] on a string; on any other argument it throws. *)
Variable marked : jsstring -> result jsstring.

Definition stringify_val (v : jsval) : jsstring :=
  match v with
  | Some j => JSON_stringify j
  | None => []
  end.

(** [typeof v === 'string' ? v : JSON.stringify(v)] on a truthy [v]. *)
Definition text_or_json (v : jsval) : jsstring :=
  match v with
  | Some (JStr s) => s
  | _ => stringify_val v
  end.

(** [acc += piece(item)] for every item, stopping at the first throw. *)
Fixpoint concat_items (piece : json -> result jsstring) (items : list json)
    (acc : jsstring) : result jsstring :=
  match items with
  | [] => Ok acc
  | item :: r => t ← piece item; concat_items piece r (acc ++ t)
  end.

(** *** Home page, lines 356-374 *)
Definition summary_item (item : json) : result jsstring :=
  ty ← get (Some item) "type";
  let item := Some item in
  if is_str ty "text" then
    Ok (ToString_val (prop item "text") ++ js " ")
  else if is_str ty "tool_use" then
    Ok (js "Tool: " ++ ToString_val (prop item "name") ++ js " " ++
        (if truthy (prop item "input")
         then stringify_val (prop item "input") ++ js " " else []))
  else if is_str ty "tool_result" then
    Ok (if truthy (prop item "content")
        then stringify_val (prop item "content") ++ js " " else [])
  else
    Ok (stringify_val item ++ js " ").

(** What one line contributes: a user message with its content, or a
    text for [assistantMessages]. *)
Definition assistant_event (t : jsstring) : option (msgType * json) :=
  if nonempty (trim t) then Some (TAssistant, JStr (trim t)) else None.

(** Lines 345-392, the body of the [try]: the message the line adds to
    one of the two arrays, if any. Every operation that can throw comes
    before the [push], so a throw leaves the arrays as they were. *)
Definition summary_entry (entry : json) : result (option (msgType * json)) :=
  ty ← get (Some entry) "type";
  let message := prop (Some entry) "message" in
  if is_str ty "user" && role_is message "user" then
    let content :=
      match prop message "content" with
      | Some c => if truthy (Some c) then c else JStr []
      | None => JStr []
      end in
    Ok (Some (TUser, content))
  else if is_str ty "assistant" && role_is message "assistant" then
    textContent ←
      match prop message "content" with
      | Some (JArr items) => concat_items summary_item items []
      | Some (JStr s) => Ok s
      | _ => Ok []
      end;
    Ok (assistant_event textContent)
  else if is_str ty "tool_result" || is_str ty "system" then
    let content :=
      if truthy (prop (Some entry) "content")
      then text_or_json (prop (Some entry) "content")
      else if truthy message && truthy (prop message "content")
      then text_or_json (prop message "content")
      else [] in
    Ok (assistant_event content)
  else Ok None.

(** One turn of the loop of lines 343-396, [catch (e) { continue }]. *)
Definition summary_line (line : jsstring) : option (msgType * json) :=
  match JSON_parse line with
  | None => None
  | Some entry =>
      match summary_entry entry with
      | Ok r => r
      | Throw => None
      end
  end.

(** The [push] of lines 348-351, 379 and 390. *)
Definition push (st : Extracted) (ev : msgType * json) : Extracted :=
  match ev with
  | (TUser, c) =>
      mkExtracted (ex_userMessages st ++ [c]) (ex_assistantMessages st)
        (if truthy (Some (ex_firstUserMessage st)) then ex_firstUserMessage st else c)
  | (TAssistant, c) =>
      mkExtracted (ex_userMessages st) (ex_assistantMessages st ++ [c])
        (ex_firstUserMessage st)
  end.

Definition extract_step (st : Extracted) (line : jsstring) : Extracted :=
  match summary_line line with
  | Some ev => push st ev
  | None => st
  end.

(** [content.split('\n').filter(line => line.trim())] *)
Definition nonblank_lines (fileContent : jsstring) : list jsstring :=
  List.filter (fun line => nonempty (trim line)) (split_lines fileContent).

Definition extract_lines (lines : list jsstring) : Extracted :=
  foldl extract_step (mkExtracted [] [] (JStr [])) lines.

(** Lines 334-400: the summary of one log file. *)
Definition summarise_file (fileContent chatId : jsstring) : SummaryResult :=
  let st := extract_lines (nonblank_lines fileContent) in
  generateChatSummary toLowerCase (ex_userMessages st) (ex_assistantMessages st)
    (ex_firstUserMessage st) chatId.

(** *** Conversation view, lines 557-622: a [tool_use] item with input. *)
Definition view_tool_input (item input : jsval) : result jsstring :=
  let name := prop item "name" in
  let file_path := prop input "file_path" in
  if (is_str name "Write" && truthy file_path && truthy (prop input "content"))
     || (is_str name "Read" && truthy file_path) then
    match file_path with
    | Some (JStr filePath) =>
        let fileExt := toLowerCase (after_last 46 filePath) in
        let content := ToString_val (prop input "content") in
        let fileName := after_last 47 filePath in
        let heading := newline ++ js "### " ++ fileName ++ newline ++ newline in
        if jsstring_eqb fileExt (js "md") || jsstring_eqb fileExt (js "markdown") then
          Ok (heading ++ js "---" ++ newline ++ newline ++ content ++ newline ++ newline ++
              js "---" ++ newline ++ newline)
        else
          Ok (heading ++ fence ++ language_of fileExt ++ newline ++ content ++ newline ++
              fence ++ newline)
    | _ => Throw   (* filePath.split is not a function *)
    end
  else
    Ok (fence ++ js "json" ++ newline ++ match input with Some j => JSON_stringify2 j | None => [] end ++ newline ++ fence ++ newline).

(** Lines 550-625 *)
Definition view_item (item : json) : result jsstring :=
  ty ← get (Some item) "type";
  let item := Some item in
  if is_str ty "text" then
    Ok (ToString_val (prop item "text") ++ newline)
  else if is_str ty "tool_use" then
    let call := newline ++ js "**Tool Call: " ++ ToString_val (prop item "name") ++
                js "**" ++ newline in
    if truthy (prop item "input") then
      t ← view_tool_input item (prop item "input"); Ok (call ++ t)
    else Ok call
  else Ok [].

(** Lines 529-654, the body of the [try]: [Ok None] is [return null]. *)
Definition view_entry (entry : json) : result (option ViewMessage) :=
  message ← get (Some entry) "message";
  let entry := Some entry in
  let ty := prop entry "type" in
  let timestamp := prop entry "timestamp" in
  if truthy message && is_str ty "user" && is_str (prop message "role") "user" then
    match prop message "content" with
    | Some c =>
        if truthy (Some c) then
          match c with
          | JStr s => h ← marked s; Ok (Some (mkViewMessage RUser s (Some h) timestamp None))
          | _ => Throw   (* marked rejects what is not a string *)
          end
        else Ok (Some (mkViewMessage RUser [] None timestamp None))
    | None => Ok (Some (mkViewMessage RUser [] None timestamp None))
    end
  else if truthy message && is_str ty "assistant" && is_str (prop message "role") "assistant" then
    textContent ←
      match prop message "content" with
      | Some (JArr items) => concat_items view_item items []
      | Some (JStr s) => Ok s
      | _ => Ok []
      end;
    htmlContent ←
      (if nonempty textContent
       then h ← marked (trim textContent); Ok (Some h)
       else Ok None);
    Ok (Some (mkViewMessage RAssistant (trim textContent) htmlContent timestamp
                (prop message "model")))
  else if is_str ty "tool_result" && truthy (prop entry "content") then
    let content := text_or_json (prop entry "content") in
    htmlContent ←
      (if nonempty content
       then h ← marked (fence ++ newline ++ content ++ newline ++ fence); Ok (Some h)
       else Ok None);
    Ok (Some (mkViewMessage RToolResult content htmlContent timestamp None))
  else Ok None.

(** Lines 527-660: the callback of [lines.map], whose [catch] returns
    [null]. *)
Definition view_line (line : jsstring) : option ViewMessage :=
  match JSON_parse line with
  | None => None
  | Some entry =>
      match view_entry entry with
      | Ok r => r
      | Throw => None
      end
  end.

(** [lines.map(...).filter(msg => msg !== null)] *)
Definition view_lines (lines : list jsstring) : list ViewMessage :=
  omap view_line lines.

Definition view_messages (fileContent : jsstring) : list ViewMessage :=
  view_lines (nonblank_lines fileContent).

End Normaliser.

(** ** Regular expressions built from a search term

    Both search paths build [new RegExp(escaped, 'gi')] from the user's
    term. The patterns modelled are the sequences of single-character
    atoms: a literal character, an escaped syntax character, or the dot.
    [compile] is [None] on every other pattern (quantifiers, groups,
    classes, assertions, other escapes). *)

Inductive atom := Lit (c : char) | AnyChar.
Definition regex := list atom.

(** The syntax characters [. * + ? ^ $ { } ( ) | [ ] \ ]. *)
Definition isSyntaxChar (c : char) : bool :=
  existsb (char_eqb c) [46; 42; 43; 63; 94; 36; 123; 125; 40; 41; 124; 91; 93; 92]%N.

Definition backslash : char := 92%N.

Fixpoint compile (pattern : jsstring) : option regex :=
  match pattern with
  | [] => Some []
  | c :: r =>
      if char_eqb c backslash then
        match r with
        | d :: r' => if isSyntaxChar d then cons (Lit d) <$> compile r' else None
        | [] => None
        end
      else if char_eqb c 46 then cons AnyChar <$> compile r
      else if isSyntaxChar c then None
      else cons (Lit c) <$> compile r
  end.

(** LineTerminator, which the dot does not match. *)
Definition isLineTerminator (c : char) : bool :=
  char_eqb c 10 || char_eqb c 13 || char_eqb c 8232 || char_eqb c 8233.

(** server.js 670: [term.replace(/[.*+?^${}()|[\]\\]/g, '\\$&')]. *)
Definition escapeRegExp (term : jsstring) : jsstring :=
  flat_map (fun c => if isSyntaxChar c then [backslash; c] else [c]) term.

(** The find script, [escapeRegex]: the pattern there is
    [/[.*+?^${}()|[\\]\\]/g], a class that ends at the first [\]] and is
    followed by a literal backslash and a literal closing bracket; the
    replacement ['\\\\$&'] is two backslashes and the match. *)
Definition inClientClass (c : char) : bool :=
  existsb (char_eqb c) [46; 42; 43; 63; 94; 36; 123; 125; 40; 41; 124; 91; 92]%N.

Fixpoint escapeRegex (skip : nat) (s : jsstring) : jsstring :=
  match s with
  | [] => []
  | c :: r =>
      match skip with
      | S k => escapeRegex k r
      | O =>
          match r with
          | d :: e :: _ =>
              if inClientClass c && char_eqb d backslash && char_eqb e 93
              then [backslash; backslash; c; d; e] ++ escapeRegex 2 r
              else c :: escapeRegex 0 r
          | _ => c :: escapeRegex 0 r
          end
      end
  end.

Section Matching.

(** [Canonicalize] of case-insensitive matching, a table of the
    runtime. *)
Variable canonicalize : char -> char.

Definition atom_matches (a : atom) (c : char) : bool :=
  match a with
  | Lit l => char_eqb (canonicalize l) (canonicalize c)
  | AnyChar => negb (isLineTerminator c)
  end.

(** The regex matches a prefix of [s]. Every atom takes one character. *)
Fixpoint matches_here (re : regex) (s : jsstring) : bool :=
  match re, s with
  | [], _ => true
  | a :: re', c :: s' => atom_matches a c && matches_here re' s'
  | _ :: _, [] => false
  end.

(** [text.match(regex).length] under flag [g] for a non-empty regex:
    the matches are taken left to right and do not overlap. *)
Fixpoint count_matches (re : regex) (skip : nat) (s : jsstring) : nat :=
  match s with
  | [] => 0
  | _ :: r =>
      match skip with
      | S k => count_matches re k r
      | O =>
          if matches_here re s
          then S (count_matches re (pred (length re)) r)
          else count_matches re 0 r
      end
  end.

(** *** Highlighter, server.js 666-698 *)

Inductive Segment :=
  | Plain (s : jsstring)
  | Mark (counter : nat) (matched : jsstring).

(** [line.replace(regex, match => ...)]: the text between matches stays,
    every match is wrapped and takes the next value of the counter. *)
Fixpoint replace_matches (re : regex) (skip : nat) (pending : jsstring)
    (counter : nat) (s : jsstring) : list Segment * nat :=
  match s with
  | [] => ([Plain pending], counter)
  | c :: r =>
      match skip with
      | S k => replace_matches re k pending counter r
      | O =>
          if matches_here re s then
            let '(segs, n) := replace_matches re (pred (length re)) [] (S counter) r in
            (Plain pending :: Mark (S counter) (take (length re) s) :: segs, n)
          else replace_matches re 0 (pending ++ [c]) counter r
      end
  end.

Definition isHeadingLine (line : jsstring) : bool :=
  startsWith (js "### ") (trim line).

(** Lines 674-682, one line of the text. *)
Definition highlight_line (re : regex) (counter : nat) (line : jsstring)
    : list Segment * nat :=
  if isHeadingLine line then ([Plain line], counter)
  else replace_matches re 0 [] counter line.

Fixpoint highlight_lines (re : regex) (counter : nat) (lines : list jsstring)
    : list (list Segment) * nat :=
  match lines with
  | [] => ([], counter)
  | line :: rest =>
      let '(segs, n) := highlight_line re counter line in
      let '(out, n') := highlight_lines re n rest in
      (segs :: out, n')
  end.

Definition render_segment (seg : Segment) : jsstring :=
  match seg with
  | Plain s => s
  | Mark n m =>
      js "<a id=" ++ dquote ++ js "search_" ++ decimal n ++ dquote ++
      js " class=" ++ dquote ++ js "search-highlight" ++ dquote ++ js ">" ++
      m ++ js "</a>"
  end.

Definition render_line (segs : list Segment) : jsstring :=
  flat_map render_segment segs.

Definition render_lines (lines : list (list Segment)) : jsstring :=
  join newline (map render_line lines).

(** The lines of [highlightSearchTerm(text, searchTerm)] before they are
    joined, for a non-empty term and text, with the counter after them.
    The group around the escaped term is not used by the callback, which
    replaces the whole match. [None]: the pattern is outside the modelled
    fragment (this does not happen, see [compile_escapeRegExp]). *)
Definition highlight_text (text searchTerm : jsstring) (counter : nat)
    : option (list (list Segment) * nat) :=
  re ← compile (escapeRegExp searchTerm);
  Some (highlight_lines re counter (split_lines text)).

(** Lines 668-685, with [globalSearchCounter] passed in and out. *)
Definition highlightSearchTerm (text searchTerm : jsstring) (counter : nat)
    : option (jsstring * nat) :=
  if negb (nonempty searchTerm) || negb (nonempty text) then Some (text, counter)
  else '(lines, n) ← highlight_text text searchTerm counter;
       Some (render_lines lines, n).

(** Lines 691-696: the text of a message that is highlighted, if any
    ([htmlContent] when it is truthy, else [content] when it is), and
    the assignment of the result to the same field. *)
Definition html_truthy (msg : ViewMessage) : bool :=
  match vm_htmlContent msg with
  | Some (_ :: _) => true
  | _ => false
  end.

Definition highlighted_field (msg : ViewMessage) : option jsstring :=
  if html_truthy msg then vm_htmlContent msg
  else if nonempty (vm_content msg) then Some (vm_content msg)
  else None.

Definition set_highlighted (msg : ViewMessage) (t : jsstring) : ViewMessage :=
  if html_truthy msg
  then mkViewMessage (vm_role msg) (vm_content msg) (Some t)
         (vm_timestamp msg) (vm_model msg)
  else mkViewMessage (vm_role msg) t (vm_htmlContent msg)
         (vm_timestamp msg) (vm_model msg).

(** Lines 689-697, one message. *)
Definition highlight_message (searchTerm : jsstring) (counter : nat) (msg : ViewMessage)
    : option (ViewMessage * nat) :=
  match highlighted_field msg with
  | Some text =>
      '(t, n) ← highlightSearchTerm text searchTerm counter;
      Some (set_highlighted msg t, n)
  | None => Some (msg, counter)
  end.

Fixpoint highlight_from (searchTerm : jsstring) (counter : nat) (msgs : list ViewMessage)
    : option (list ViewMessage * nat) :=
  match msgs with
  | [] => Some ([], counter)
  | msg :: rest =>
      '(msg', n) ← highlight_message searchTerm counter msg;
      '(rest', n') ← highlight_from searchTerm n rest;
      Some (msg' :: rest', n')
  end.

(** Lines 666 and 688-698: [searchTerm] is [null] ([None]) or the query
    string; the result is the messages and [searchCount]. *)
Definition highlight_messages (searchTerm : option jsstring) (msgs : list ViewMessage)
    : option (list ViewMessage * nat) :=
  match searchTerm with
  | Some (c :: t) => highlight_from (c :: t) 0 msgs
  | _ => Some (msgs, 0)
  end.

(** The same pass before rendering: for every message the segments of
    its highlighted text, line by line ([None] when the message has no
    text to highlight). *)
Fixpoint segments_from (re : regex) (counter : nat) (msgs : list ViewMessage)
    : list (option (list (list Segment))) :=
  match msgs with
  | [] => []
  | msg :: rest =>
      match highlighted_field msg with
      | Some text =>
          let '(lines, n) := highlight_lines re counter (split_lines text) in
          Some lines :: segments_from re n rest
      | None => None :: segments_from re counter rest
      end
  end.

(** The segments of the rendered conversation in document order. *)
Definition document_segments (re : regex) (msgs : list ViewMessage) : list Segment :=
  flat_map (fun o => match o with Some lines => concat lines | None => [] end)
           (segments_from re 0 msgs).

Definition mark_ids (segs : list Segment) : list nat :=
  flat_map (fun seg => match seg with Mark n _ => [n] | Plain _ => [] end) segs.

End Matching.

(** ** Client-side find: [performFind], [countMatches], [sortByMatches] *)

(** A chat card of the page: [searchable] is [dataset.searchable || ''],
    [messageCount] is [parseInt(dataset.messageCount, 10) || 0]. [node]
    identifies the DOM element. *)
Module Card.
Record t := mk {
  node : nat;
  searchable : jsstring;
  messageCount : nat
}.
End Card.

Record FindResult := mkFindResult {
  card : Card.t;
  matches : nat
}.

Section Find.

Variable toLowerCase : jsstring -> jsstring.
Variable canonicalize : char -> char.

(** The find on the patterns that are made of literal characters and
    dots, where the matches can be counted by the model itself. [None]:
    the pattern is outside this fragment; the find for any term follows
    below ([AnyTerm]). *)
Definition countMatches (text searchTerm : jsstring) : option nat :=
  if nonempty searchTerm then
    re ← compile (escapeRegex 0 searchTerm);
    Some (count_matches canonicalize re 0 text)
  else Some 0.

(** The loop over [chatCards] of [performFind], for a non-empty term. *)
Fixpoint collect_results (searchLower : jsstring) (currentMinMessages : nat)
    (chatCards : list Card.t) : option (list FindResult) :=
  match chatCards with
  | [] => Some []
  | c :: rest =>
      let searchableText := toLowerCase (Card.searchable c) in
      if Nat.leb (Card.messageCount c) currentMinMessages then
        collect_results searchLower currentMinMessages rest
      else
        n ← countMatches searchableText searchLower;
        results ← collect_results searchLower currentMinMessages rest;
        Some (if Nat.ltb 0 n then mkFindResult c n :: results else results)
  end.

(** [results.sort((a, b) => b.matches - a.matches)] *)
Definition sortByMatches (results : list FindResult) : list FindResult :=
  sort_by (fun a b => Nat.leb (matches b) (matches a)) results.

(** The ranked results of [performFind(searchTerm)]; with an empty term
    nothing is ranked. *)
Definition performFind (searchTerm : jsstring) (currentMinMessages : nat)
    (chatCards : list Card.t) : option (list FindResult) :=
  if nonempty searchTerm then
    sortByMatches <$> collect_results (toLowerCase searchTerm) currentMinMessages chatCards
  else Some [].

End Find.

(** *** The find for any term

    Once the term holds a metacharacter that [escapeRegex] leaves
    unescaped, the pattern is a regular expression of any form.
    [RegExp_count source text] stands for
    [text.match(new RegExp(source, 'gi'))]: the number of matches, none
    when [match] yields [null], or [Throw] when [new RegExp] rejects the
    source with a SyntaxError. *)
Module AnyTerm.
Section Find.

Variable toLowerCase : jsstring -> jsstring.
Variable RegExp_count : jsstring -> jsstring -> result nat.

Definition countMatches (text searchTerm : jsstring) : result nat :=
  if nonempty searchTerm then RegExp_count (escapeRegex 0 searchTerm) text else Ok 0.

(** The loop over [chatCards] of [performFind], for a non-empty term; a
    throw ends it. *)
Fixpoint collect_results (searchLower : jsstring) (currentMinMessages : nat)
    (chatCards : list Card.t) : result (list FindResult) :=
  match chatCards with
  | [] => Ok []
  | c :: rest =>
      let searchableText := toLowerCase (Card.searchable c) in
      if Nat.leb (Card.messageCount c) currentMinMessages then
        collect_results searchLower currentMinMessages rest
      else
        n ← countMatches searchableText searchLower;
        results ← collect_results searchLower currentMinMessages rest;
        Ok (if Nat.ltb 0 n then mkFindResult c n :: results else results)
  end.

(** The ranked results of [performFind(searchTerm)]; with an empty term
    nothing is ranked. [Throw]: the exception leaves [performFind] before
    [sortByMatches] is called. *)
Definition performFind (searchTerm : jsstring) (currentMinMessages : nat)
    (chatCards : list Card.t) : result (list FindResult) :=
  if nonempty searchTerm then
    results ← collect_results (toLowerCase searchTerm) currentMinMessages chatCards;
    Ok (sortByMatches results)
  else Ok [].

End Find.
End AnyTerm.

(** ** Index store: [updateHistoryIndex] (server.js 132-212) *)

(** [lastMessageTimestamp]: absent, [null], or the timestamp string. *)
Inductive tsval :=
  | TsUndefined
  | TsNull
  | TsString (s : jsstring).

Definition tsval_eqb (a b : tsval) : bool :=
  match a, b with
  | TsUndefined, TsUndefined => true
  | TsNull, TsNull => true
  | TsString x, TsString y => jsstring_eqb x y
  | _, _ => false
  end.

(** An observed conversation, as the home page hands it to the merge.
    [modifiedTime] is the time value of the Date in milliseconds.
    [firstMessage] is the first truthy content of a user record, whatever
    its type, or the text [No preview available] (lines 347-351, 427). *)
Module Chat.
Record t := mk {
  id : jsstring;
  modifiedTime : Z;
  firstMessage : json;
  summary : jsstring;
  messageCount : nat;
  lastMessageTimestamp : tsval
}.
End Chat.

(** An entry of history-index.json. A field that the document does not
    hold is [None]. [date] stands for the ISO string by its time value
    ([toISOString] and [new Date] are inverse to each other on it). The
    last three fields are the names of an earlier format. *)
Module Thread.
Record t := mk {
  id : jsstring;
  project : jsstring;
  date : Z;
  firstSentence : jsstring;
  oneLineSummary : option jsstring;
  bulletSummary : option (list jsstring);
  paragraphSummary : option jsstring;
  messageCount : nat;
  lastMessageTimestamp : tsval;
  needsAnalysis : option bool;
  lastAnalyzed : option jsstring;
  oneLine : option jsstring;
  enhancedBullets : option (list jsstring);
  paragraph : option jsstring
}.
End Thread.

(** Truthiness of an optional string field. *)
Definition present (v : option jsstring) : bool :=
  match v with
  | Some (_ :: _) => true
  | _ => false
  end.

(** [a || b] on optional string fields. *)
Definition or_else (a b : option jsstring) : option jsstring :=
  if present a then a else b.

(** [`${project}:${id}`] *)
Definition threadKey (project id : jsstring) : jsstring :=
  project ++ js ":" ++ id.

(** Lines 144-147 *)
Definition existingMap (existingIndex : list Thread.t) : gmap jsstring Thread.t :=
  foldl (fun m thread => <[threadKey (Thread.project thread) (Thread.id thread) := thread]> m)
        ∅ existingIndex.

(** [.replace(/<[^>]*>/g, '')]: a tag runs from [<] to the next [>]; a
    [<] with no [>] after it stays. *)
Fixpoint strip_tags (inTag : bool) (s : jsstring) : jsstring :=
  match s with
  | [] => []
  | c :: r =>
      if inTag then strip_tags (negb (char_eqb c 62)) r
      else if char_eqb c 60 && existsb (char_eqb 62) r then strip_tags true r
      else c :: strip_tags false r
  end.

(** Lines 159-162 *)
Definition summary_bullets (summary : jsstring) : list jsstring :=
  map (fun line => trim (strip_tags false line))
      (List.filter (fun line => startsWith [bullet] (trim line)) (split_lines summary)).

(** Lines 165-171: [/^[^.!?]*[.!?]/] takes the text up to the first
    sentence end. *)
Fixpoint upto_sentence_end (s : jsstring) : option jsstring :=
  match s with
  | [] => None
  | c :: r => if isSentenceEnd c then Some [c] else cons c <$> upto_sentence_end r
  end.

Definition firstSentence_of (firstMessage : jsstring) : jsstring :=
  match upto_sentence_end firstMessage with
  | Some m => trim m
  | None => trim (hd [] (split_lines firstMessage))
  end.

(** Lines 165-166: [chat.firstMessage || ''] and the call of [match],
    which only a string has: on an array, an object, a number or [true]
    the call is a TypeError. *)
Definition firstSentence (firstMessage : json) : result jsstring :=
  match firstMessage with
  | JStr s => Ok (firstSentence_of s)
  | _ => if truthy (Some firstMessage) then Throw else Ok (firstSentence_of [])
  end.

(** Lines 186-190 *)
Definition needs_analysis (existingThread : option Thread.t) (chat : Chat.t) : bool :=
  match existingThread with
  | None => true
  | Some e =>
      negb (Nat.eqb (Thread.messageCount e) (Chat.messageCount chat))
      || negb (tsval_eqb (Thread.lastMessageTimestamp e) (Chat.lastMessageTimestamp chat))
      || negb (present (Thread.oneLineSummary e))
      || negb (present (Thread.paragraphSummary e))
  end.

(** Lines 173-195: the object [threadInfo] for a given first sentence.
    The object has the nine members of the literal, and [needsAnalysis]
    only when it is set to [true]. *)
Definition threadInfo_literal (firstSentence : jsstring) (existingThread : option Thread.t)
    (projectName : jsstring) (chat : Chat.t) : Thread.t :=
  let bullets := summary_bullets (Chat.summary chat) in
  Thread.mk
    (Chat.id chat)
    projectName
    (Chat.modifiedTime chat)
    firstSentence
    (e ← existingThread; or_else (Thread.oneLineSummary e) (Thread.oneLine e))
    (Some (match existingThread with
           | Some e =>
               match Thread.bulletSummary e, Thread.enhancedBullets e with
               | Some b, _ => b
               | None, Some b => b
               | None, None => bullets
               end
           | None => bullets
           end))
    (e ← existingThread; or_else (Thread.paragraphSummary e) (Thread.paragraph e))
    (Chat.messageCount chat)
    (Chat.lastMessageTimestamp chat)
    (if needs_analysis existingThread chat then Some true else None)
    None None None None.

(** Lines 158-195, the body of the inner [forEach] up to the [push]: it
    throws where the first sentence does. *)
Definition threadInfo (existingThread : option Thread.t) (projectName : jsstring)
    (chat : Chat.t) : result Thread.t :=
  firstSentence ← firstSentence (Chat.firstMessage chat);
  Ok (threadInfo_literal firstSentence existingThread projectName chat).

(** [Object.entries(chatsByProject)]: the projects in enumeration order,
    each with its chats. *)
Definition ChatsByProject := list (jsstring * list Chat.t).

(** The pairs the two nested [forEach] visit, in order. *)
Definition observed (chatsByProject : ChatsByProject) : list (jsstring * Chat.t) :=
  flat_map (fun '(projectName, chats) => map (pair projectName) chats) chatsByProject.

Definition lookupThread (existingIndex : list Thread.t) (oc : jsstring * Chat.t)
    : option Thread.t :=
  existingMap existingIndex !! threadKey oc.1 (Chat.id oc.2).

(** Lines 153-199: the two nested [forEach] as one loop over the pairs,
    with the variables [newIndex] and [hasChanges] they change. A throw
    ends the loop. *)
Fixpoint visit (existingIndex : list Thread.t) (pairs : list (jsstring * Chat.t))
    (newIndex : list Thread.t) (hasChanges : bool) : result (list Thread.t * bool) :=
  match pairs with
  | [] => Ok (newIndex, hasChanges)
  | oc :: rest =>
      let existingThread := lookupThread existingIndex oc in
      threadInfo ← threadInfo existingThread oc.1 oc.2;
      visit existingIndex rest (newIndex ++ [threadInfo])
            (hasChanges || needs_analysis existingThread oc.2)
  end.

(** Lines 150-202: [newIndex] after the sort, and [hasChanges]. *)
Definition build (existingIndex : list Thread.t) (chatsByProject : ChatsByProject)
    : result (list Thread.t * bool) :=
  st ← visit existingIndex (observed chatsByProject) [] false;
  Ok (sort_by (fun a b => Z.leb (Thread.date b) (Thread.date a)) st.1, st.2).

Definition newIndex (existingIndex : list Thread.t) (chatsByProject : ChatsByProject)
    : result (list Thread.t) :=
  st ← build existingIndex chatsByProject; Ok st.1.

Definition hasChanges (existingIndex : list Thread.t) (chatsByProject : ChatsByProject)
    : result bool :=
  st ← build existingIndex chatsByProject; Ok st.2.

(** The index file: [None] when it is missing or does not parse, which
    the merge reads as the empty array. *)
Definition IndexFile := option (list Thread.t).

Definition readIndex (file : IndexFile) : list Thread.t :=
  match file with
  | Some threads => threads
  | None => []
  end.

(** Line 205: whether the document is written ([changed]). A merge that
    throws ends in the [catch] of line 209 and writes nothing. *)
Definition changed (file : IndexFile) (chatsByProject : ChatsByProject) : bool :=
  let existingIndex := readIndex file in
  match build existingIndex chatsByProject with
  | Ok (newIndex, hasChanges) =>
      hasChanges || negb (Nat.eqb (length existingIndex) (length newIndex))
  | Throw => false
  end.

(** [updateHistoryIndex]: the index file after the call. *)
Definition updateHistoryIndex (file : IndexFile) (chatsByProject : ChatsByProject)
    : IndexFile :=
  match build (readIndex file) chatsByProject with
  | Ok (newIndex, _) => if changed file chatsByProject then Some newIndex else file
  | Throw => file
  end.

(** ** [runAnalysis], lines 267-276: the result of an analysis is merged
    into the first entry with the chat's id; every other member is kept. *)
Record Analysis := mkAnalysis {
  an_oneLineSummary : jsstring;
  an_paragraphSummary : jsstring;
  an_bulletSummary : list jsstring
}.

Definition analysed (thread : Thread.t) (analysis : Analysis) (now : jsstring) : Thread.t :=
  Thread.mk (Thread.id thread) (Thread.project thread) (Thread.date thread)
    (Thread.firstSentence thread)
    (Some (an_oneLineSummary analysis))
    (Some (an_bulletSummary analysis))
    (Some (an_paragraphSummary analysis))
    (Thread.messageCount thread) (Thread.lastMessageTimestamp thread)
    (Some false) (Some now)
    (Thread.oneLine thread) (Thread.enhancedBullets thread) (Thread.paragraph thread).

Fixpoint storeAnalysis (historyIndex : list Thread.t) (chatId : jsstring)
    (analysis : Analysis) (now : jsstring) : list Thread.t :=
  match historyIndex with
  | [] => []
  | t :: rest =>
      if jsstring_eqb (Thread.id t) chatId then analysed t analysis now :: rest
      else t :: storeAnalysis rest chatId analysis now
  end.

(** ** Project names: [extractProjectName] (server.js 123-129) *)

(** [s.split(sep)] for a separator of one character: always at least one
    piece. *)
Fixpoint split_on (sep : char) (s : jsstring) : list jsstring :=
  match s with
  | [] => [[]]
  | c :: r =>
      if char_eqb c sep then [] :: split_on sep r
      else match split_on sep r with
           | [] => [[c]]
           | l :: ls => (c :: l) :: ls
           end
  end.

(** [s.replace(/x/g, 'y')] for single characters [x] and [y]. *)
Definition replace_char (x y : char) (s : jsstring) : jsstring :=
  map (fun c => if char_eqb c x then y else c) s.

Definition unknownProject : jsstring := js "Unknown Project".

Definition extractProjectName (encodedPath : jsstring) : jsstring :=
  let decodedPath := replace_char 45 47 (drop 1 encodedPath) in
  let parts := split_on 47 decodedPath in
  match List.last parts [] with
  | [] => unknownProject
  | c :: name => c :: name
  end.

(** ** Conversation reader of the analysis: [getFullConversation]
    (server.js 811-852) *)

Record ConvMessage := mkConvMessage {
  cv_role : msgType;
  cv_content : json
}.

(** Lines 830-834: only the text items count. *)
Definition conversation_item (item : json) : result jsstring :=
  ty ← get (Some item) "type";
  if is_str ty "text"
  then Ok (ToString_val (prop (Some item) "text") ++ newline)
  else Ok [].

(** Lines 820-845, the body of the [try]. *)
Definition conversation_entry (entry : json) : result (option ConvMessage) :=
  ty ← get (Some entry) "type";
  let message := prop (Some entry) "message" in
  if is_str ty "user" && role_is message "user" then
    let content :=
      match prop message "content" with
      | Some c => if truthy (Some c) then c else JStr []
      | None => JStr []
      end in
    Ok (Some (mkConvMessage TUser content))
  else if is_str ty "assistant" && role_is message "assistant" then
    textContent ←
      match prop message "content" with
      | Some (JArr items) => concat_items conversation_item items []
      | Some (JStr s) => Ok s
      | _ => Ok []
      end;
    Ok (if nonempty (trim textContent)
        then Some (mkConvMessage TAssistant (JStr (trim textContent)))
        else None)
  else Ok None.

Section Conversation.

Variable JSON_parse : jsstring -> option json.

(** One turn of the loop of lines 818-849, [catch (e) { continue }]. *)
Definition conversation_line (line : jsstring) : option ConvMessage :=
  match JSON_parse line with
  | None => None
  | Some entry =>
      match conversation_entry entry with
      | Ok r => r
      | Throw => None
      end
  end.

(** The messages read from the content of the log file. *)
Definition getFullConversation (fileContent : jsstring) : list ConvMessage :=
  omap conversation_line (nonblank_lines fileContent).

End Conversation.

(** ** Tier-2 analysis: [analyzeChat] (server.js 855-939) *)

(** [msg.role.toUpperCase()] on the two roles the reader produces. *)
Definition role_upper (t : msgType) : jsstring :=
  match t with
  | TUser => js "USER"
  | TAssistant => js "ASSISTANT"
  end.

(** Lines 857-860 *)
Definition conversationText (messages : list ConvMessage) : jsstring :=
  flat_map (fun msg => role_upper (cv_role msg) ++ js ": " ++ ToString (cv_content msg) ++
                       newline ++ newline) messages.

(** The characters outside the class [[^.!?\n]]. *)
Definition isPhraseStop (c : char) : bool := isSentenceEnd c || char_eqb c 10.

(** [\s+([^.!?\n]+)] at the start of [r], with [\s+] holding [k] blanks:
    the length of the match. The quantifier is greedy and gives back one
    blank at a time while the group cannot start. *)
Fixpoint phrase_after (k : nat) (r : jsstring) : option nat :=
  match k with
  | O => None
  | S k' =>
      match takeWhile (fun c => negb (isPhraseStop c)) (drop k r) with
      | [] => phrase_after k' r
      | cap => Some (k + length cap)
      end
  end.

Definition match_phrase (r : jsstring) : option nat :=
  phrase_after (length (takeWhile isSpace r)) r.

(** The alternatives [created?], [built?], [implemented?]: the stem and
    the optional last letter. *)
Definition analysisVerbs : list (jsstring * char) :=
  [(js "create", ch "d"); (js "buil", ch "t"); (js "implemente", ch "d")].

Fixpoint first_some {A B} (f : A -> option B) (l : list A) : option B :=
  match l with
  | [] => None
  | x :: r =>
      match f x with
      | Some y => Some y
      | None => first_some f r
      end
  end.

(** One alternative of [(created?|built?|implemented?)\s+([^.!?\n]+)] at
    the start of [s]: the optional letter is tried first. *)
Definition match_created_verb (s : jsstring) (v : jsstring * char) : option nat :=
  match strip_prefix v.1 s with
  | None => None
  | Some r =>
      let without := (fun n => length v.1 + n) <$> match_phrase r in
      match r with
      | c :: r' =>
          if char_eqb c v.2 then
            match match_phrase r' with
            | Some n => Some (length v.1 + 1 + n)
            | None => without
            end
          else without
      | [] => without
      end
  end.

Definition match_created_here (s : jsstring) : option nat :=
  first_some (match_created_verb s) analysisVerbs.

(** [fullText.match(/.../g)]: the matched texts, left to right. *)
Fixpoint created_matches (skip : nat) (s : jsstring) : list jsstring :=
  match s with
  | [] => []
  | _ :: r =>
      match skip with
      | S k => created_matches k r
      | O =>
          match match_created_here s with
          | Some n => take n s :: created_matches (pred n) r
          | None => created_matches 0 r
          end
      end
  end.

(** The extensions of line 883, in the order of the alternatives. *)
Definition analysisExtensions : list jsstring :=
  map js ["js"; "ts"; "jsx"; "tsx"; "json"; "md"; "py"; "html"; "css"; "yml";
          "yaml"]%string.

(** [\b[\w-]+\.(e1|e2|...)\b] at the start of [s], for a given list of
    extensions (see [match_file_here]). *)
Definition match_file_ext (exts : list jsstring) (prev : option char) (s : jsstring)
    : option jsstring :=
  let run := takeWhile isFileChar s in
  match run with
  | [] => None
  | c0 :: _ =>
      if xorb (match prev with Some p => isWord p | None => false end) (isWord c0) then
        match drop (length run) s with
        | dot :: rest =>
            if char_eqb dot 46 then
              match List.find (fun e => startsWith e rest &&
                                        negb (head_is_word (drop (length e) rest)))
                              exts with
              | Some e => Some (run ++ [46%N] ++ e)
              | None => None
              end
            else None
        | [] => None
        end
      else None
  end.

Fixpoint file_matches_ext (exts : list jsstring) (prev : option char) (skip : nat)
    (s : jsstring) : list jsstring :=
  match s with
  | [] => []
  | c :: r =>
      match skip with
      | S k => file_matches_ext exts (Some c) k r
      | O =>
          match match_file_ext exts prev s with
          | Some m => m :: file_matches_ext exts (Some c) (pred (length m)) r
          | None => file_matches_ext exts (Some c) 0 r
          end
      end
  end.

(** [firstMessage.substring(0, n)]: a TypeError on a value that is not a
    string. *)
Definition substring_of (firstMessage : jsval) (n : nat) : result jsstring :=
  match firstMessage with
  | Some (JStr s) => Ok (take n s)
  | _ => Throw
  end.

Section Analyzer.

Variable toLowerCase : jsstring -> jsstring.
Variable canonicalize : char -> char.

(** One alternative of [(created?|built?|implemented?)\s+] under flag
    [i] at the start of [s]: the length of the match. *)
Definition match_verb_blanks (s : jsstring) (v : jsstring * char) : option nat :=
  if matches_here canonicalize (map Lit v.1) s then
    let r := drop (length v.1) s in
    let blanks (n : nat) (t : jsstring) :=
      match takeWhile isSpace t with
      | [] => None
      | w => Some (n + length w)
      end in
    match r with
    | c :: r' =>
        if atom_matches canonicalize (Lit v.2) c then
          match blanks (length v.1 + 1) r' with
          | Some n => Some n
          | None => blanks (length v.1) r
          end
        else blanks (length v.1) r
    | [] => None
    end
  else None.

(** [m.replace(/(created?|built?|implemented?)\s+/i, '')]: the first
    match, if there is one, is removed. *)
Fixpoint strip_first_verb (s : jsstring) : jsstring :=
  match s with
  | [] => []
  | c :: r =>
      match first_some (match_verb_blanks s) analysisVerbs with
      | Some n => drop n s
      | None => c :: strip_first_verb r
      end
  end.

(** Lines 871-880 *)
Definition analysis_accomplishments (fullText : jsstring) : list jsstring :=
  if includes fullText (js "created") || includes fullText (js "built")
     || includes fullText (js "implemented")
  then List.filter (fun cleaned => Nat.ltb 10 (length cleaned) && Nat.ltb (length cleaned) 100)
         (map (fun m => trim (strip_first_verb m)) (created_matches 0 fullText))
  else [].

(** Lines 883-884 *)
Definition analysis_files (fullText : jsstring) : list jsstring :=
  take 3 (unique [] (file_matches_ext analysisExtensions None 0 fullText)).

(** Lines 887-894 *)
Definition oneLineSummary_of (accomplishments uniqueFiles : list jsstring)
    (count : nat) (firstMessage : jsval) : result jsstring :=
  match accomplishments, uniqueFiles with
  | acc0 :: _, _ =>
      Ok (js "Discussion about " ++ acc0 ++
          match uniqueFiles with
          | file :: _ => js " involving " ++ file
          | [] => []
          end ++ js ".")
  | [], _ :: _ => Ok (js "Working with " ++ join (js ", ") uniqueFiles ++ js " files.")
  | [], [] =>
      t ← (if truthy firstMessage then substring_of firstMessage 50
           else Ok (js "various topics"));
      Ok (decimal count ++ js "-message conversation about " ++ t ++ js ".")
  end.

(** Lines 897-913 *)
Definition paragraphSummary_of (accomplishments uniqueFiles : list jsstring)
    (count : nat) (firstMessage : jsval) : result jsstring :=
  match accomplishments, uniqueFiles with
  | acc0 :: more, _ =>
      Ok (js "This conversation focused on " ++ acc0 ++ js ". " ++
          match uniqueFiles with
          | _ :: _ => js "Key files involved include " ++ join (js ", ") uniqueFiles ++ js ". "
          | [] => []
          end ++
          match more with
          | _ :: _ => js "Additional work included " ++ join (js " and ") (take 2 more) ++ js ". "
          | [] => []
          end ++
          js "The discussion covered " ++ decimal count ++ js " messages with " ++
          decimal (length accomplishments) ++ js " main accomplishments.")
  | [], _ :: _ =>
      Ok (js "This conversation involved working with " ++ join (js ", ") uniqueFiles ++
          js ". " ++ js "The discussion spanned " ++ decimal count ++
          js " messages covering file modifications and updates.")
  | [], [] =>
      t ← (if truthy firstMessage then substring_of firstMessage 100 else Ok []);
      Ok (js "A " ++ decimal count ++ js "-message conversation that began with " ++
          dquote ++ t ++ js "..." ++ dquote ++ js ". " ++
          js "The discussion covered various topics and technical implementations.")
  end.

(** Lines 916-932 *)
Definition bulletSummary_of (accomplishments uniqueFiles : list jsstring) (count : nat)
    : list jsstring :=
  let implemented := map (fun acc => js "Implemented " ++ acc) (take 5 accomplishments) in
  let worked :=
    if Nat.ltb (length implemented) 8 && Nat.ltb 0 (length uniqueFiles) then
      foldl (fun bulletSummary file =>
               if Nat.ltb (length bulletSummary) 8
               then bulletSummary ++ [js "Worked with " ++ file]
               else bulletSummary)
            implemented (take 3 uniqueFiles)
    else implemented in
  if Nat.ltb (length worked) 8
  then worked ++ [decimal count ++ js " total messages exchanged"]
  else worked.

Definition analyzeChat (messages : list ConvMessage) (firstMessage : jsval)
    : result Analysis :=
  let fullText := toLowerCase (conversationText messages) in
  let accomplishments := analysis_accomplishments fullText in
  let uniqueFiles := analysis_files fullText in
  let count := length messages in
  oneLineSummary ← oneLineSummary_of accomplishments uniqueFiles count firstMessage;
  paragraphSummary ← paragraphSummary_of accomplishments uniqueFiles count firstMessage;
  Ok (mkAnalysis oneLineSummary paragraphSummary
        (bulletSummary_of accomplishments uniqueFiles count)).

End Analyzer.

(** ** The analysis pass: [runAnalysis] (server.js 215-304) *)

(** An entry of [results.chatsAnalyzed], without its duration. *)
Record AnalyzedChat := mkAnalyzedChat {
  ac_project : jsstring;
  ac_chatId : jsstring;
  ac_firstMessage : jsstring
}.

Record AnalysisResults := mkAnalysisResults {
  numberOfChatsUpdated : nat;
  chatsAnalyzed : list AnalyzedChat
}.

(** Lines 230-232: the entries picked for analysis. *)
Definition wantsAnalysis (thread : Thread.t) : bool :=
  match Thread.needsAnalysis thread with
  | Some true => true
  | _ => false
  end
  || negb (present (Thread.oneLineSummary thread))
  || negb (present (Thread.paragraphSummary thread)).

Section RunAnalysis.

Variable toLowerCase : jsstring -> jsstring.
Variable canonicalize : char -> char.
Variable JSON_parse : jsstring -> option json.
(** [fs.readdir(CLAUDE_BASE_PATH)]. *)
Variable projectDirs : list jsstring.
(** The content of [<projectDir>/<chatId>.jsonl]; [None] when reading it
    fails. *)
Variable readLog : jsstring -> jsstring -> option jsstring.
(** The clock: [new Date().toISOString()] when the [n]-th analysis is
    stored. *)
Variable now : nat -> jsstring.

(** Lines 248-256: the first directory whose name contains the project
    name. *)
Definition find_projectDir (project : jsstring) : option jsstring :=
  List.find (fun dir => includes dir (replace_char 47 45 project)) projectDirs.

(** Lines 247-264: the analysis of one picked entry; [None] when a step
    fails (no directory, the log cannot be read, the analysis throws),
    which the [catch] of line 287 turns into the next turn of the loop. *)
Definition analysis_of (chat : Thread.t) : option Analysis :=
  match find_projectDir (Thread.project chat) with
  | None | Some [] => None
  | Some projectDir =>
      match readLog projectDir (Thread.id chat) with
      | None => None
      | Some fileContent =>
          let messages := getFullConversation JSON_parse fileContent in
          let firstMessage :=
            if nonempty (Thread.firstSentence chat)
            then Some (JStr (Thread.firstSentence chat))
            else cv_content <$> head messages in
          match analyzeChat toLowerCase canonicalize messages firstMessage with
          | Throw => None
          | Ok analysis => Some analysis
          end
      end
  end.

(** Lines 243-290, one turn of the loop. *)
Definition analyse_chat (st : list Thread.t * AnalysisResults) (chat : Thread.t)
    : list Thread.t * AnalysisResults :=
  let '(historyIndex, results) := st in
  match analysis_of chat with
  | None => st
  | Some analysis =>
      if existsb (fun t => jsstring_eqb (Thread.id t) (Thread.id chat)) historyIndex
      then
        (storeAnalysis historyIndex (Thread.id chat) analysis
           (now (numberOfChatsUpdated results)),
         mkAnalysisResults (S (numberOfChatsUpdated results))
           (chatsAnalyzed results ++
            [mkAnalyzedChat (Thread.project chat) (Thread.id chat)
               (take 50 (if nonempty (Thread.firstSentence chat)
                         then Thread.firstSentence chat
                         else js "No preview available") ++ js "...")]))
      else st
  end.

(** The index file after the pass, and the results reported. *)
Definition runAnalysis (file : IndexFile) : IndexFile * AnalysisResults :=
  match file with
  | None => (None, mkAnalysisResults 0 [])
  | Some historyIndex =>
      match List.filter wantsAnalysis historyIndex with
      | [] => (file, mkAnalysisResults 0 [])
      | needsAnalysis =>
          let '(historyIndex', results) :=
            foldl analyse_chat (historyIndex, mkAnalysisResults 0 []) needsAnalysis in
          (Some historyIndex', results)
      end
  end.

End RunAnalysis.

(** ** The chats of the home page (server.js 329-433) *)

(** [s.replace(pat, '')] for a string pattern: the first occurrence is
    removed. *)
Fixpoint remove_first (pat s : jsstring) : jsstring :=
  match s with
  | [] => []
  | c :: r => if startsWith pat s then drop (length pat) s else c :: remove_first pat r
  end.

(** The chat object of lines 419-432, without the file sizes and the
    creation time. [lastMessageTimestamp] is [null] ([None]) or a truthy
    value of the log. *)
Record HomeChat := mkHomeChat {
  hc_id : jsstring;
  hc_filename : jsstring;
  hc_projectDir : jsstring;
  hc_projectName : jsstring;
  hc_modifiedTime : Z;
  hc_firstMessage : json;
  hc_summary : jsstring;
  hc_messageCount : nat;
  hc_searchableText : jsstring;
  hc_lastMessageTimestamp : option json
}.

(** [v || 'text'] on a string. *)
Definition or_text (v : jsstring) (fallback : string) : jsstring :=
  match v with
  | [] => js fallback
  | _ => v
  end.

Section HomePage.

Variable toLowerCase : jsstring -> jsstring.
Variable JSON_parse : jsstring -> option json.
Variable JSON_stringify : json -> jsstring.

(** Lines 405-413, one turn of the loop: the timestamp of a line, when it
    parses and holds a truthy one. *)
Definition line_timestamp (line : jsstring) : option json :=
  match JSON_parse line with
  | None => None
  | Some entry =>
      match get (Some entry) "timestamp" with
      | Ok (Some timestamp) => if truthy (Some timestamp) then Some timestamp else None
      | _ => None
      end
  end.

(** Lines 403-414: the lines are tried from the last one backwards. *)
Definition lastMessageTimestamp_of (lines : list jsstring) : option json :=
  first_some line_timestamp (rev lines).

(** Lines 334-432 for one log file of a project directory. *)
Definition chat_of_log (projectDir filename : jsstring) (mtime : Z) (content : jsstring)
    : HomeChat :=
  let lines := nonblank_lines content in
  let st := extract_lines JSON_parse JSON_stringify lines in
  let userMessages := ex_userMessages st in
  let assistantMessages := ex_assistantMessages st in
  let firstUserMessage := ex_firstUserMessage st in
  let chatId := remove_first (js ".jsonl") filename in
  let summaryResult :=
    generateChatSummary toLowerCase userMessages assistantMessages firstUserMessage chatId in
  mkHomeChat chatId filename projectDir (extractProjectName projectDir) mtime
    (if truthy (Some firstUserMessage) then firstUserMessage
     else JStr (js "No preview available"))
    (or_text (summary summaryResult) "No summary available")
    (length (nonblank_lines content))
    (toLowerCase (join (js " ") (map join_item (userMessages ++ assistantMessages))))
    (lastMessageTimestamp_of lines).

End HomePage.

(** ** The projects of the home page (server.js 311-439) *)

(** [chatsByProject[projectName] = projectChats] on the object literal
    of line 311: the name [__proto__] sets the prototype of the object and
    adds no key. *)
Definition assign_project (chatsByProject : gmap jsstring (list HomeChat))
    (projectName : jsstring) (projectChats : list HomeChat)
    : gmap jsstring (list HomeChat) :=
  if jsstring_eqb projectName (js "__proto__") then chatsByProject
  else <[projectName := projectChats]> chatsByProject.

(** Lines 314-439: the directories in the order of the listing, each with
    the chats of its log files; the chats are filed under the project name
    when there is at least one. *)
Definition assign_projects (dirs : list (jsstring * list HomeChat))
    : gmap jsstring (list HomeChat) :=
  foldl (fun chatsByProject dir =>
           match dir.2 with
           | [] => chatsByProject
           | _ :: _ => assign_project chatsByProject (extractProjectName dir.1) dir.2
           end) ∅ dirs.

(** ** Search terms in the Markdown export:
    [highlightSearchTermMarkdown] (server.js 726-730) *)

(** The replacement ['**$1**']: the match between two pairs of stars. *)
Definition render_bold (seg : Segment) : jsstring :=
  match seg with
  | Plain s => s
  | Mark _ m => js "**" ++ m ++ js "**"
  end.

Section MarkdownExport.

Variable canonicalize : char -> char.

(** The value the function returns, as the text it becomes in the
    template literals and concatenations of lines 758-779. [searchTerm] is
    [null] ([None]) or the query string. [Throw]: [text.replace] is not a
    function. [None]: the pattern is outside the modelled fragment. *)
Definition highlightSearchTermMarkdown (text : jsval) (searchTerm : option jsstring)
    : option (result jsstring) :=
  match searchTerm with
  | Some (c :: t) =>
      if truthy text then
        re ← compile (escapeRegExp (c :: t));
        match text with
        | Some (JStr s) =>
            Some (Ok (flat_map render_bold (replace_matches canonicalize re 0 [] 0 s).1))
        | _ => Some Throw
        end
      else Some (Ok (ToString_val text))
  | _ => Some (Ok (ToString_val text))
  end.

End MarkdownExport.

(** ** The order of the cards on the page (find script) *)

(** [parent.appendChild(node)] on the children of [parent]: a node that
    is a child already is moved to the end. *)
Definition appendChild (children : list nat) (node : nat) : list nat :=
  List.filter (fun n => negb (Nat.eqb n node)) children ++ [node].

(** [cards.forEach(card => chatList.appendChild(card))] *)
Definition append_cards (children : list nat) (cards : list Card.t) : list nat :=
  foldl (fun ch c => appendChild ch (Card.node c)) children cards.

Record Original := mkOriginal {
  orig_card : Card.t;
  originalIndex : nat
}.

(** [chatCards.forEach((card, index) => originalOrder.push({card,
    originalIndex: index}))] *)
Fixpoint originalOrder_from (index : nat) (chatCards : list Card.t) : list Original :=
  match chatCards with
  | [] => []
  | c :: rest => mkOriginal c index :: originalOrder_from (S index) rest
  end.

(** [restoreOriginalOrder]: the children of the chat list afterwards. *)
Definition restoreOriginalOrder (originalOrder : list Original) (children : list nat)
    : list nat :=
  append_cards children
    (map orig_card
         (sort_by (fun a b => Nat.leb (originalIndex a) (originalIndex b)) originalOrder)).

Section FindOrder.

Variable toLowerCase : jsstring -> jsstring.
Variable RegExp_count : jsstring -> jsstring -> result nat.

(** The children of the chat list after [performFind(searchTerm)]: with a
    term [sortByMatches] appends the ranked cards, unless the regular
    expression is rejected, which ends [performFind] before anything is
    appended; without a term the original order is restored. *)
Definition children_after_find (searchTerm : jsstring) (currentMinMessages : nat)
    (chatCards : list Card.t) (children : list nat) : list nat :=
  if nonempty searchTerm then
    match AnyTerm.performFind toLowerCase RegExp_count searchTerm currentMinMessages
            chatCards with
    | Ok results => append_cards children (map card results)
    | Throw => children
    end
  else restoreOriginalOrder (originalOrder_from 0 chatCards) children.

End FindOrder.

(** * Vocabulary of the properties *)

(** ** Sorting *)

(** Two elements that the comparator does not separate. *)
Definition tied {A} (before : A -> A -> bool) (z y : A) : bool := before z y && before y z.

(** ** Phrases kept by the summariser *)

(** A phrase kept by the verb scan: where it comes from and what was
    checked before it was pushed. *)
Definition kept_from (toLowerCase : jsstring -> jsstring) (msgs : list Message)
    (a : Accomplishment) : Prop :=
  exists verb msg capture,
    verb ∈ actionVerbs /\ msg ∈ msgs /\
    capture ∈ exec_all verb 0 (toLowerCase (string_content msg)) /\
    10 < length (trim capture) < 100 /\
    text a = clean (trim capture) /\
    text a <> [] /\
    messageIndex a = index msg /\
    anchorId a = msg_anchor (index msg).

(** No phrase starts with 20 characters that occur in an earlier one. *)
Inductive no_near_duplicates : list Accomplishment -> Prop :=
  | nnd_nil : no_near_duplicates []
  | nnd_snoc acc x :
      no_near_duplicates acc ->
      Forall (fun a => includes (text a) (substring0 20 (text x)) = false) acc ->
      no_near_duplicates (acc ++ [x]).

Definition scan_invariant (toLowerCase : jsstring -> jsstring) (msgs : list Message)
    (acc : list Accomplishment) : Prop :=
  length acc <= 5 /\ Forall (kept_from toLowerCase msgs) acc /\ no_near_duplicates acc.

(** Every accomplishment points at a message of [allMessages]. *)
Definition points_into (msgs : list Message) (a : Accomplishment) : Prop :=
  exists m, m ∈ msgs /\ messageIndex a = index m /\ anchorId a = msg_anchor (index m).

(** ** Messages in the order of their lines *)

(** The messages of a log file in the order of their lines. *)
Definition line_events (JSON_parse : jsstring -> option json)
    (JSON_stringify : json -> jsstring) (lines : list jsstring)
    : list (msgType * json) :=
  omap (summary_line JSON_parse JSON_stringify) lines.

(** The messages of a log in the order of their lines, and the two arrays
    the home page splits them into. *)
Definition contents_of (t : msgType) (evs : list (msgType * json)) : list json :=
  omap (fun ev => match ev.1, t with
                  | TUser, TUser | TAssistant, TAssistant => Some ev.2
                  | _, _ => None
                  end) evs.

Definition other (t : msgType) : msgType :=
  match t with TUser => TAssistant | TAssistant => TUser end.

(** The log alternates strictly, starting with a message of type [t]. *)
Fixpoint alternates (t : msgType) (evs : list (msgType * json)) : Prop :=
  match evs with
  | [] => True
  | ev :: rest => ev.1 = t /\ alternates (other t) rest
  end.

(** The events numbered from [p] on. *)
Fixpoint numbered (p : nat) (evs : list (msgType * json)) : list Message :=
  match evs with
  | [] => []
  | ev :: rest => mkMessage ev.2 p ev.1 :: numbered (S p) rest
  end.

(** ** Record shapes *)

(** [entry.type === t && entry.message && entry.message.role === t]: a
    user or an assistant record. *)
Definition is_record (t : string) (entry : json) : bool :=
  is_str (prop (Some entry) "type") t && role_is (prop (Some entry) "message") t.

(** [entry.message.content] of such a record. *)
Definition content_of (entry : json) : jsval :=
  prop (prop (Some entry) "message") "content".

(** The record shapes the conversation view knows, with the role of the
    message a record of the shape gives; [None]: no known shape. *)
Definition view_shape (entry : json) : option role :=
  if is_record "user" entry then Some RUser
  else if is_record "assistant" entry then Some RAssistant
  else if is_str (prop (Some entry) "type") "tool_result"
          && truthy (prop (Some entry) "content") then Some RToolResult
  else None.

(** The record shapes the home page knows, with the array the text of a
    record of the shape goes to. *)
Definition summary_shape (entry : json) : option msgType :=
  if is_record "user" entry then Some TUser
  else if is_record "assistant" entry
          || is_str (prop (Some entry) "type") "tool_result"
          || is_str (prop (Some entry) "type") "system" then Some TAssistant
  else None.

(** The item [{"type": "text", "text": t}] for a string [t]. *)
Definition text_item (item : json) (t : jsstring) : Prop :=
  is_str (prop (Some item) "type") "text" = true /\
  prop (Some item) "text" = Some (JStr t).

(** ** Index entries and their keys *)

Definition keyOf (t : Thread.t) : jsstring := threadKey (Thread.project t) (Thread.id t).

Definition observedKey (oc : jsstring * Chat.t) : jsstring := threadKey oc.1 (Chat.id oc.2).

(** The first message is a string, or a falsy value, which the merge
    reads as the empty string: [match] can be called. *)
Definition first_is_text (chat : Chat.t) : bool :=
  match Chat.firstMessage chat with
  | JStr _ => true
  | v => negb (truthy (Some v))
  end.

Definition first_text (chat : Chat.t) : jsstring :=
  match Chat.firstMessage chat with
  | JStr s => s
  | _ => []
  end.

(** Every observed conversation has such a first message. *)
Definition all_text (chatsByProject : ChatsByProject) : Prop :=
  Forall (fun oc => first_is_text oc.2 = true) (observed chatsByProject).

(** The entry the merge builds for an observed conversation whose first
    message is a text, and whether it flags it. *)
Definition merged (existingIndex : list Thread.t) (oc : jsstring * Chat.t) : Thread.t :=
  threadInfo_literal (firstSentence_of (first_text oc.2)) (lookupThread existingIndex oc)
    oc.1 oc.2.

Definition flagged (existingIndex : list Thread.t) (oc : jsstring * Chat.t) : bool :=
  needs_analysis (lookupThread existingIndex oc) oc.2.

(** The entries of a merge that completes, sorted as line 201 sorts
    them. *)
Definition sorted_entries (existingIndex : list Thread.t) (chatsByProject : ChatsByProject)
    : list Thread.t :=
  sort_by (fun a b => Z.leb (Thread.date b) (Thread.date a))
    (map (merged existingIndex) (observed chatsByProject)).

(** The conversation has a persisted entry with a non-empty one-line and
    paragraph summary, under the current member names or the earlier
    ones. *)
Definition has_summaries (existingThread : option Thread.t) : Prop :=
  exists e, existingThread = Some e /\
            present (or_else (Thread.oneLineSummary e) (Thread.oneLine e)) = true /\
            present (or_else (Thread.paragraphSummary e) (Thread.paragraph e)) = true.

(** ** Highlighted text *)

Definition erase (segs : list Segment) : jsstring :=
  flat_map (fun seg => match seg with Plain s => s | Mark _ m => m end) segs.



(** No match of the regex starts inside [p]. *)
Definition match_free (canonicalize : char -> char) (re : regex) (p : jsstring) : Prop :=
  forall pre post, p = pre ++ post -> matches_here canonicalize re post = false.

(** What every segment of a highlighted line satisfies. *)
Definition segment_ok (canonicalize : char -> char) (re : regex) (seg : Segment) : Prop :=
  match seg with
  | Plain p => match_free canonicalize re p
  | Mark _ m => length m = length re /\ matches_here canonicalize re m = true
  end.

(** A line and its segments: a heading line is left as it is; in any
    other line the text is kept, every anchor wraps a match, and no match
    starts in the text between the anchors. *)
Definition line_ok (canonicalize : char -> char) (re : regex)
    (line : jsstring) (segs : list Segment) : Prop :=
  (isHeadingLine line = true -> segs = [Plain line]) /\
  (isHeadingLine line = false ->
   erase segs = line /\ Forall (segment_ok canonicalize re) segs).


Definition message_ids (o : option (list (list Segment))) : list Segment :=
  match o with
  | Some lines => concat lines
  | None => []
  end.

Definition apply_segments (msg : ViewMessage) (o : option (list (list Segment)))
    : ViewMessage :=
  match o with
  | Some lines => set_highlighted msg (render_lines lines)
  | None => msg
  end.

(** ** Literal search *)

(** The number of non-overlapping occurrences of the term itself, up to
    case: what a literal search counts. *)
Definition literal_count (canonicalize : char -> char) (term text : jsstring) : nat :=
  count_matches canonicalize (map Lit term) 0 text.

(** ** Project names *)

(** The two characters that end a segment of an encoded path. *)
Definition isPathSep (c : char) : bool := char_eqb c 45 || char_eqb c 47.

(** ** Conversations read for the analysis *)

(** The contents of the user messages of a conversation. *)
Definition user_contents (messages : list ConvMessage) : list json :=
  omap (fun m => match cv_role m with
                 | TUser => Some (cv_content m)
                 | TAssistant => None
                 end) messages.

(** An assistant record whose content is the array [items]. *)
Definition assistant_record (entry : json) (items : list json) : Prop :=
  is_str (prop (Some entry) "type") "assistant" = true /\
  role_is (prop (Some entry) "message") "assistant" = true /\
  prop (prop (Some entry) "message") "content" = Some (JArr items).

(** An item that is an object, an array, a string, a number or a boolean
    and is not of type [text]. *)
Definition not_text_item (item : json) : Prop :=
  item <> JNull /\ is_str (prop (Some item) "type") "text" = false.

(** ** The analysis pass *)

(** The members of an entry that the analysis pass does not compute. *)
Definition same_conversation (t t' : Thread.t) : Prop :=
  Thread.id t' = Thread.id t /\
  Thread.project t' = Thread.project t /\
  Thread.date t' = Thread.date t /\
  Thread.firstSentence t' = Thread.firstSentence t /\
  Thread.messageCount t' = Thread.messageCount t /\
  Thread.lastMessageTimestamp t' = Thread.lastMessageTimestamp t /\
  Thread.oneLine t' = Thread.oneLine t /\
  Thread.enhancedBullets t' = Thread.enhancedBullets t /\
  Thread.paragraph t' = Thread.paragraph t.

(** An entry as an analysis leaves it. *)
Definition settled (t' : Thread.t) : Prop :=
  Thread.needsAnalysis t' = Some false /\
  present (Thread.oneLineSummary t') = true /\
  present (Thread.paragraphSummary t') = true /\
  is_Some (Thread.bulletSummary t') /\
  is_Some (Thread.lastAnalyzed t') /\
  wantsAnalysis t' = false.

(** An entry as an analysis with non-empty summaries leaves it. *)
Definition analysed_from (t t' : Thread.t) : Prop :=
  exists a n, t' = analysed t a n /\
              an_oneLineSummary a <> [] /\ an_paragraphSummary a <> [].
(** What holds after the loop has treated the picked entries [treated]. *)
Definition pass_invariant (analysis : Thread.t -> option Analysis)
    (index treated : list Thread.t)
    (st : list Thread.t * AnalysisResults) : Prop :=
  Forall2 (fun t t' => t' = t \/ analysed_from t t') index st.1 /\
  numberOfChatsUpdated st.2 = length (chatsAnalyzed st.2) /\
  map (fun ac => (ac_project ac, ac_chatId ac)) (chatsAnalyzed st.2)
  = map (fun t => (Thread.project t, Thread.id t))
        (List.filter (fun chat => bool_decide (is_Some (analysis chat))) treated).

(** With pairwise distinct ids: every treated entry whose analysis
    succeeds has been replaced, every other entry is as it was. *)
Definition distinct_invariant (analysis : Thread.t -> option Analysis)
    (index treated idx : list Thread.t) : Prop :=
  Forall2 (fun t t' =>
             (t' = t /\ ~ (t ∈ treated /\ is_Some (analysis t))) \/
             (t ∈ treated /\ is_Some (analysis t) /\ analysed_from t t')) index idx.

(** ** The chats of the home page *)

(** A character that is neither [<] nor a line feed. *)
Definition isPlainChar (c : char) : bool := negb (char_eqb c 60) && negb (char_eqb c 10).

(** A text that is shown as it is in a bullet: not empty, without [<] and
    line feeds, and without a blank at its end. *)
Definition plain_text (t : jsstring) : Prop :=
  t <> [] /\ Forall (fun c => isPlainChar c = true) t /\ trimEnd t = t.

(** The bullets that the index keeps of a Tier-1 summary. *)
Definition plain_bullets (userMessages : list json) (accomplishments : list Accomplishment)
    : list jsstring :=
  match userMessages, accomplishments with
  | [], _ => []
  | _ :: _, [] =>
      [[bullet] ++ js " " ++ decimal (length userMessages) ++ js " message conversation"]
  | _ :: _, _ :: _ => map (fun item => [bullet] ++ js " " ++ text item) (take 3 accomplishments)
  end.

(** What every accomplishment of a Tier-1 summary satisfies. *)
Definition bullet_ready (a : Accomplishment) : Prop :=
  plain_text (text a) /\ exists n, anchorId a = msg_anchor n.

(** ** Results of the find *)

(** What a literal search makes of one card: nothing when the card has
    too few messages or no occurrence of the term, else the card with its
    number of occurrences. *)
Definition literal_result (toLowerCase : jsstring -> jsstring) (canonicalize : char -> char)
    (searchTerm : jsstring) (currentMinMessages : nat) (c : Card.t) : option FindResult :=
  if Nat.leb (Card.messageCount c) currentMinMessages then None
  else
    let n := literal_count canonicalize (toLowerCase searchTerm)
               (toLowerCase (Card.searchable c)) in
    if Nat.ltb 0 n then Some (mkFindResult c n) else None.

(** The engine counts the matches of the patterns of the fragment as the
    model of the fragment does. *)
Definition counts_fragment (canonicalize : char -> char)
    (RegExp_count : jsstring -> jsstring -> result nat) : Prop :=
  forall source re text,
    compile source = Some re ->
    RegExp_count source text = Ok (count_matches canonicalize re 0 text).

(** ** The order of the cards on the page *)

(** The children of the chat list that are none of the given nodes, in
    their order. *)
Definition other_nodes (nodes children : list nat) : list nat :=
  List.filter (fun n => negb (existsb (Nat.eqb n) nodes)) children.

(** ** The projects of the home page *)

(** The chats a directory files under a project name, if any. *)
Definition filed_under (name : jsstring) (dir : jsstring * list HomeChat)
    : option (list HomeChat) :=
  match dir.2 with
  | [] => None
  | _ :: _ => if jsstring_eqb (extractProjectName dir.1) name then Some dir.2 else None
  end.

(** * Concrete inputs *)

(** ** Logs

    Log lines and the records [JSON.parse] reads from them, for running
    the model: [quoted s] is the JSON string literal of an ASCII text
    without quotes or backslashes. *)

Definition quoted (s : string) : jsstring := dquote ++ js s ++ dquote.

(** [{"type":t,"message":{"role":t,"content":text}}] *)
Definition message_line (t text : string) : jsstring :=
  js "{" ++ quoted "type" ++ js ":" ++ quoted t ++ js "," ++
  quoted "message" ++ js ":{" ++ quoted "role" ++ js ":" ++ quoted t ++ js "," ++
  quoted "content" ++ js ":" ++ quoted text ++ js "}}".

Definition message_entry (t text : string) : json :=
  JObj [(js "type", JStr (js t));
        (js "message", JObj [(js "role", JStr (js t)); (js "content", JStr (js text))])].

(** [JSON.parse] on the lines of a given log. *)
Definition parse_log (log : list (string * string)) (line : jsstring) : option json :=
  (fun tc => message_entry tc.1 tc.2) <$>
  List.find (fun tc => jsstring_eqb line (message_line tc.1 tc.2)) log.

Definition log_content (log : list (string * string)) : jsstring :=
  join newline (map (fun tc => message_line tc.1 tc.2) log).

(** A log in which the assistant answers twice before the user writes
    again. *)
Definition two_answers_log : list (string * string) :=
  [("user", "hello"); ("assistant", "ok");
   ("assistant", "created the login page for you"); ("user", "thanks")]%string.

Definition alternating_log : list (string * string) :=
  [("user", "please fix it"); ("assistant", "fixed the login page for you")]%string.

(** A log with a line that is not JSON, the line [null] (reading a member
    of it throws), a user line whose content is an array (which [marked]
    rejects), between two regular lines. *)
Definition array_content_line : jsstring :=
  js "{" ++ quoted "type" ++ js ":" ++ quoted "user" ++ js "," ++
  quoted "message" ++ js ":{" ++ quoted "role" ++ js ":" ++ quoted "user" ++ js "," ++
  quoted "content" ++ js ":[1]}}".

Definition array_content_entry : json :=
  JObj [(js "type", JStr (js "user"));
        (js "message", JObj [(js "role", JStr (js "user"));
                             (js "content", JArr [JNum 1])])].

Definition rough_log_lines : list jsstring :=
  [message_line "user" "hi"; js "not json"; js "null"; array_content_line;
   message_line "assistant" "done"].

Definition parse_rough_log (line : jsstring) : option json :=
  if jsstring_eqb line (js "null") then Some JNull
  else if jsstring_eqb line array_content_line then Some array_content_entry
  else parse_log [("user", "hi"); ("assistant", "done")]%string line.

(** A stand-in for [marked]: the text in a paragraph. *)
Definition paragraph_marked (s : jsstring) : result jsstring :=
  Ok (js "<p>" ++ s ++ js "</p>").

(** ** A written file

    The log line of an assistant message that writes [/tmp/notes.md], and
    the record read from it. *)

Definition write_line : jsstring :=
  js "{" ++ quoted "type" ++ js ":" ++ quoted "assistant" ++ js "," ++
  quoted "message" ++ js ":{" ++ quoted "role" ++ js ":" ++ quoted "assistant" ++ js "," ++
  quoted "content" ++ js ":[{" ++ quoted "type" ++ js ":" ++ quoted "tool_use" ++ js "," ++
  quoted "name" ++ js ":" ++ quoted "Write" ++ js "," ++
  quoted "input" ++ js ":{" ++ quoted "file_path" ++ js ":" ++ quoted "/tmp/notes.md" ++
  js "," ++ quoted "content" ++ js ":" ++ quoted "# Hi" ++ js "}}]}}".

Definition write_entry : json :=
  JObj [(js "type", JStr (js "assistant"));
        (js "message",
         JObj [(js "role", JStr (js "assistant"));
               (js "content",
                JArr [JObj [(js "type", JStr (js "tool_use"));
                            (js "name", JStr (js "Write"));
                            (js "input",
                             JObj [(js "file_path", JStr (js "/tmp/notes.md"));
                                   (js "content", JStr (js "# Hi"))])]])])].

Definition parse_write_log (line : jsstring) : option json :=
  if jsstring_eqb line write_line then Some write_entry else None.

(** A stand-in for [marked] on the Markdown of that message: a line
    [### x] becomes [<h3>x</h3>], a line [# x] becomes [<h1>x</h1>], a line
    [---] becomes [<hr>], a blank line is dropped and any other line
    becomes a paragraph. *)
Definition marked_line (line : jsstring) : option jsstring :=
  if startsWith (js "### ") line then Some (js "<h3>" ++ drop 4 line ++ js "</h3>")
  else if startsWith (js "# ") line then Some (js "<h1>" ++ drop 2 line ++ js "</h1>")
  else if jsstring_eqb line (js "---") then Some (js "<hr>")
  else if nonempty line then Some (js "<p>" ++ line ++ js "</p>")
  else None.

Definition headings_marked (s : jsstring) : result jsstring :=
  Ok (join newline (omap marked_line (split_lines s))).

(** ** Index documents *)

Definition timestamp1 : tsval := TsString (js "2024-05-01T10:00:00.000Z").

(** A conversation with six log lines, and the same with five. *)
Definition chat_login (messageCount : nat) : Chat.t :=
  Chat.mk (js "a1") 2000 (JStr (js "Fix the login. Thanks"))
    ([bullet] ++ js " 3 message conversation") messageCount timestamp1.

Definition chat_new : Chat.t :=
  Chat.mk (js "b2") 3000 (JStr (js "Add tests")) ([bullet] ++ js " 1 message conversation")
    2 TsNull.

(** The first conversation when its first user record holds an array:
    the home page hands the array on as [firstMessage]. *)
Definition chat_array : Chat.t :=
  Chat.mk (js "a1") 2000 (JArr [JNum 1]) ([bullet] ++ js " 1 message conversation")
    5 timestamp1.

(** The entry of the first conversation after an analysis pass, at five
    log lines. *)
Definition thread_login : Thread.t :=
  Thread.mk (js "a1") (js "viewer") 1000 (js "Fix the login.")
    (Some (js "Discussion about the login page."))
    (Some [js "Implemented the login page"])
    (Some (js "This conversation focused on the login page."))
    5 timestamp1 (Some false) (Some (js "2024-05-01T11:00:00.000Z"))
    None None None.

(** The same entry without a paragraph summary. *)
Definition thread_login_no_paragraph : Thread.t :=
  Thread.mk (js "a1") (js "viewer") 1000 (js "Fix the login.")
    (Some (js "Discussion about the login page."))
    (Some [js "Implemented the login page"])
    None
    5 timestamp1 None None None None None.

(** The document holds two entries and only the first conversation is
    still there. *)
Definition thread_gone : Thread.t :=
  Thread.mk (js "z9") (js "viewer") 500 (js "Old chat.")
    (Some (js "Discussion about old things."))
    (Some [js "Implemented old things"])
    (Some (js "This conversation focused on old things."))
    3 TsNull (Some false) (Some (js "2024-04-01T11:00:00.000Z"))
    None None None.

(** ** Chat cards *)

(** A stand-in for the engine of regular expressions: the patterns of
    the fragment are counted, every other pattern is rejected. *)
Definition fragment_count (source text : jsstring) : result nat :=
  match compile source with
  | Some re => Ok (count_matches ascii_canonicalize re 0 text)
  | None => Throw
  end.

Definition card_wildcard : Card.t := Card.mk 0 (js "abc abc abc") 4.
Definition card_literal : Card.t := Card.mk 1 (js "see a.c") 4.


(** ** The analysis pass on a small store

    One project directory with the log of [alternating_log] under the id
    [a1]; a second directory whose name contains the name of the first. *)

Definition viewer_dir : jsstring := js "-home-u-viewer".
Definition previewer_dir : jsstring := js "-home-u-previewer".

Definition viewer_logs (projectDir chatId : jsstring) : option jsstring :=
  if jsstring_eqb projectDir viewer_dir && jsstring_eqb chatId (js "a1")
  then Some (log_content alternating_log)
  else None.

Definition noon (n : nat) : jsstring := js "2024-05-02T12:00:00.000Z".

Definition alternating_conversation : list ConvMessage :=
  [mkConvMessage TUser (JStr (js "please fix it"));
   mkConvMessage TAssistant (JStr (js "fixed the login page for you"))].

(** ** Two directories with the same project name *)

Definition home_chat (projectDir id : string) : HomeChat :=
  mkHomeChat (js id) (js id ++ js ".jsonl") (js projectDir) (extractProjectName (js projectDir))
    1000 (JStr (js "hi")) ([bullet] ++ js " 1 message conversation") 1 (js "hi") None.

Definition app_dirs : list (jsstring * list HomeChat) :=
  [(js "-home-a-app", [home_chat "-home-a-app" "c1"]);
   (js "-home-b-app", [home_chat "-home-b-app" "c2"])].

(** * Properties *)

(** ** The string model on small inputs *)

Example js_example : js "a.B" = [97; 46; 66]%N.
Proof. reflexivity. Qed.

Example trim_example : trim (js "  ab c ") = js "ab c".
Proof. reflexivity. Qed.

Example split_lines_example :
  split_lines (js "a" ++ newline ++ newline ++ js "b") = [js "a"; []; js "b"].
Proof. reflexivity. Qed.

Example decimal_example : decimal 120 = js "120".
Proof. vm_compute. reflexivity. Qed.

(** The verb pattern: the capture stops at the sentence end; two blanks
    before a sentence end give a capture of one blank; a single blank gives
    no match. *)
Example exec_all_example :
  exec_all (js "fixed") 0 (js "fixed  . fixed . fixedabc fixed a b? yes")
  = [js " "; js "a b"].
Proof. vm_compute. reflexivity. Qed.

(** File mentions: the run before the dot starts at a word boundary, and
    the extension ends at one. *)
Example file_matches_example :
  file_matches None 0 (js "see foo.ts and -bar-baz.json x.jsx a.jsonx c.md_ d.sh")
  = [js "foo.ts"; js "bar-baz.json"; js "x.jsx"; js "d.sh"].
Proof. vm_compute. reflexivity. Qed.

(** The example of the specification: the phrase after [fixed] ends at the
    dot of [app.js]. *)
Example summary_example :
  let r := generateChatSummary ascii_toLowerCase
             [JStr (js "created a login page")]
             [JStr (js "fixed the auth bug in app.js")] (JStr []) (js "c1") in
  map (fun a => (anchor_id a, anchor_messageIndex a)) (anchors r)
  = [(js "msg-0", 0); (js "msg-1", 1); (js "msg-1", 1)].
Proof. vm_compute. reflexivity. Qed.

Example summary_bullets_example :
  summary_bullets ([bullet] ++ js " <a href=x>a login page</a>" ++ newline ++ js "other")
  = [[bullet] ++ js " a login page"].
Proof. vm_compute. reflexivity. Qed.

Example firstSentence_example :
  firstSentence_of (js "Fix the login. Thanks") = js "Fix the login.".
Proof. vm_compute. reflexivity. Qed.

(** A file written by a tool call, as the view shows it. *)
Example view_tool_input_example :
  view_tool_input ascii_toLowerCase (fun _ => [])
    (Some (JObj [(js "name", JStr (js "Write"))]))
    (Some (JObj [(js "file_path", JStr (js "/tmp/notes.py"));
                 (js "content", JStr (js "x = 1"))]))
  = Ok (newline ++ js "### notes.py" ++ newline ++ newline ++
        fence ++ js "python" ++ newline ++ js "x = 1" ++ newline ++ fence ++ newline).
Proof. vm_compute. reflexivity. Qed.

(** ** The sort *)

Section SortBy.

Context {A : Type} (before : A -> A -> bool).

Lemma insert_by_perm x l : insert_by before x l ≡ₚ x :: l.
Proof.
  induction l as [|y l IH]; simpl; [done|].
  destruct (before x y); [done|].
  rewrite IH. apply Permutation_swap.
Qed.

Lemma sort_by_perm l : sort_by before l ≡ₚ l.
Proof.
  induction l as [|x l IH]; simpl; [done|].
  by rewrite insert_by_perm, IH.
Qed.

Lemma sort_by_length l : length (sort_by before l) = length l.
Proof. by rewrite sort_by_perm. Qed.

Lemma elem_of_sort_by x l : x ∈ sort_by before l ↔ x ∈ l.
Proof. by rewrite sort_by_perm. Qed.

Hypothesis before_total : forall x y, before x y = true \/ before y x = true.
Hypothesis before_trans :
  forall x y z, before x y = true -> before y z = true -> before x z = true.

Let ordered (x y : A) : Prop := before x y = true.

Lemma insert_by_sorted x l :
  StronglySorted ordered l -> StronglySorted ordered (insert_by before x l).
Proof.
  induction 1 as [|y l Hl IH Hy]; simpl.
  - repeat constructor.
  - destruct (before x y) eqn:Hxy.
    + constructor; [by constructor|].
      constructor; [done|].
      eapply Forall_impl; [exact Hy|]. intros z Hz. by eapply before_trans.
    + constructor; [done|].
      rewrite insert_by_perm. constructor; [|done].
      destruct (before_total x y) as [Hc|Hc]; [congruence|done].
Qed.

Lemma sort_by_sorted l : StronglySorted ordered (sort_by before l).
Proof.
  induction l as [|x l IH]; simpl; [constructor|]. by apply insert_by_sorted.
Qed.

Lemma insert_by_stable z x l :
  List.filter (tied before z) (insert_by before x l) =
  List.filter (tied before z) (x :: l).
Proof.
  induction l as [|y l IH]; [done|].
  cbn [insert_by]. destruct (before x y) eqn:Hxy; [done|].
  cbn [List.filter] in *. rewrite IH.
  destruct (tied before z x) eqn:Hzx, (tied before z y) eqn:Hzy; try done.
  exfalso. unfold tied in *.
  apply andb_prop in Hzx as [Hzx Hxz]. apply andb_prop in Hzy as [Hzy Hyz].
  rewrite (before_trans x z y) in Hxy; done.
Qed.

Lemma sort_by_stable z l :
  List.filter (tied before z) (sort_by before l) = List.filter (tied before z) l.
Proof.
  induction l as [|x l IH]; [done|].
  cbn [sort_by]. rewrite insert_by_stable. cbn [List.filter]. by rewrite IH.
Qed.

(** A strictly ordered arrangement of the same elements is the result. *)
Lemma sort_by_unique l l' :
  l ≡ₚ l' ->
  StronglySorted (fun x y => before y x = false) l' ->
  sort_by before l = l'.
Proof.
  intros Hp Hs.
  assert (Hp' : sort_by before l ≡ₚ l') by by rewrite sort_by_perm.
  pose proof (sort_by_sorted l) as Hsorted.
  clear Hp. revert Hp' Hsorted. generalize (sort_by before l) as s.
  induction Hs as [|a l' Hs IH Ha]; intros s Hp Hsorted.
  - by apply Permutation_nil_r in Hp.
  - destruct s as [|s0 s]; [by apply Permutation_nil_cons in Hp|].
    apply StronglySorted_inv in Hsorted as [Hsorted Hs0].
    assert (s0 = a) as ->.
    { assert (Hin : s0 ∈ a :: l') by (rewrite <- Hp; left).
      apply elem_of_cons in Hin as [?|Hin]; [done|].
      assert (Hin' : a ∈ s0 :: s) by (rewrite Hp; left).
      apply elem_of_cons in Hin' as [?|Hin']; [done|].
      rewrite Forall_forall in Ha, Hs0.
      specialize (Ha _ Hin). specialize (Hs0 _ Hin'). unfold ordered in Hs0.
      congruence. }
    f_equal. apply IH; [|done]. by apply Permutation_cons_inv in Hp.
Qed.

End SortBy.

(** ** Strings *)

Lemma foldl_invariant {A B} (P : A -> Prop) (f : A -> B -> A) (l : list B) (a : A) :
  P a -> (forall a b, b ∈ l -> P a -> P (f a b)) -> P (foldl f a l).
Proof.
  revert a. induction l as [|b l IH]; intros a Ha Hf; simpl; [done|].
  apply IH.
  - apply Hf; [left|done].
  - intros a' b' Hb'. apply Hf. by right.
Qed.

Lemma dropWhile_length {A} (p : A -> bool) l : length (dropWhile p l) <= length l.
Proof. induction l as [|x l IH]; simpl; [lia|]. destruct (p x); simpl; lia. Qed.

Lemma trim_length s : length (trim s) <= length s.
Proof.
  unfold trim, trimEnd, trimStart.
  rewrite length_rev.
  etrans; [apply dropWhile_length|].
  rewrite length_rev. apply dropWhile_length.
Qed.

Lemma collapse_spaces_length b s : length (collapse_spaces b s) <= length s.
Proof.
  revert b. induction s as [|c s IH]; intros b; simpl; [lia|].
  pose proof (IH true). pose proof (IH false).
  destruct (isSpace c); [destruct b|]; simpl; lia.
Qed.

Lemma clean_length s : length (clean s) <= length s.
Proof.
  unfold clean, strip_non_alnum.
  etrans; [apply trim_length|].
  etrans; [apply List.filter_length_le|].
  apply collapse_spaces_length.
Qed.

Lemma jsstring_eqb_eq a b : jsstring_eqb a b = true <-> a = b.
Proof.
  revert b. induction a as [|x a IH]; intros [|y b]; simpl; try done.
  rewrite andb_true_iff, IH. unfold char_eqb. rewrite N.eqb_eq.
  split; [by intros [-> ->]|by intros [= -> ->]].
Qed.

Lemma startsWith_prefix p s : startsWith p s = true <-> exists r, s = p ++ r.
Proof.
  revert s. induction p as [|x p IH]; intros s; simpl.
  - split; [by exists s|done].
  - destruct s as [|y s]; [split; [done|by intros [? ?]]|].
    rewrite andb_true_iff, IH. unfold char_eqb. rewrite N.eqb_eq.
    split.
    + intros [-> [r ->]]. by exists r.
    + intros [r [= -> ->]]. eauto.
Qed.

Lemma includes_take_self n s : includes s (substring0 n s) = true.
Proof.
  unfold substring0. destruct s as [|c s]; [by destruct n|].
  cbn [includes]. apply orb_true_iff. left.
  apply startsWith_prefix. exists (drop n (c :: s)). by rewrite take_drop.
Qed.

Lemma dropWhile_idemp {A} (p : A -> bool) l : dropWhile p (dropWhile p l) = dropWhile p l.
Proof.
  induction l as [|x l IH]; [done|]. simpl.
  destruct (p x) eqn:Hx; [done|]. simpl. by rewrite Hx.
Qed.

Lemma dropWhile_head {A} (p : A -> bool) l x r :
  dropWhile p l = x :: r -> p x = false.
Proof.
  induction l as [|y l IH]; [done|]. simpl.
  destruct (p y) eqn:Hy; [done|]. by intros [= <- _].
Qed.

Lemma dropWhile_app_keep {A} (p : A -> bool) l c r :
  p c = false -> dropWhile p (l ++ c :: r) = dropWhile p l ++ c :: r.
Proof.
  intros Hc. induction l as [|x l IH]; simpl; [by rewrite Hc|].
  by destruct (p x).
Qed.

(** A trimmed text neither starts nor ends with a blank, so trimming it
    again changes nothing. *)
Lemma trim_idemp s : trim (trim s) = trim s.
Proof.
  assert (Hend : dropWhile isSpace (rev (trim s)) = rev (trim s)).
  { unfold trim, trimEnd. rewrite rev_involutive. apply dropWhile_idemp. }
  assert (Hstart : dropWhile isSpace (trim s) = trim s).
  { unfold trim, trimEnd, trimStart.
    destruct (dropWhile isSpace s) as [|c y] eqn:Hy; [done|].
    apply dropWhile_head in Hy. simpl rev.
    rewrite dropWhile_app_keep by done.
    rewrite rev_app_distr. simpl. by rewrite Hy. }
  unfold trim at 1, trimEnd, trimStart. rewrite Hstart, Hend. apply rev_involutive.
Qed.

(** ** Tier-1 summariser: which phrases are kept *)

Section SummariserFacts.

Variable toLowerCase : jsstring -> jsstring.

Lemma keep_phrase_invariant msgs verb msg capture acc :
  verb ∈ actionVerbs -> msg ∈ msgs ->
  capture ∈ exec_all verb 0 (toLowerCase (string_content msg)) ->
  length acc < 5 ->
  scan_invariant toLowerCase msgs acc ->
  scan_invariant toLowerCase msgs (keep_phrase msg acc capture).
Proof.
  intros Hverb Hmsg Hcap Hlen (Hle & Hall & Hnnd). unfold keep_phrase.
  destruct (Nat.ltb 10 _ && Nat.ltb _ 100) eqn:Hraw; [|done].
  destruct (nonempty _ && negb _) eqn:Hkeep; [|done].
  apply andb_prop in Hraw as [Hlo Hhi].
  apply Nat.ltb_lt in Hlo, Hhi.
  apply andb_prop in Hkeep as [Hne Hdup].
  split; [rewrite length_app; simpl; lia|]. split.
  - apply Forall_app. split; [done|]. constructor; [|done].
    exists verb, msg, capture. simpl. repeat split; try done.
    intros Heq. by rewrite Heq in Hne.
  - constructor; [done|]. simpl.
    apply negb_true_iff in Hdup.
    apply Forall_forall. intros a Ha.
    destruct (includes _ _) eqn:Hinc; [|done].
    rewrite <- Hdup. symmetry. apply existsb_exists.
    exists a. split; [by apply list_elem_of_In|done].
Qed.

Lemma while_matches_invariant msgs verb msg captures acc :
  verb ∈ actionVerbs -> msg ∈ msgs ->
  captures ⊆ exec_all verb 0 (toLowerCase (string_content msg)) ->
  scan_invariant toLowerCase msgs acc ->
  scan_invariant toLowerCase msgs (while_matches msg captures acc).
Proof.
  intros Hverb Hmsg. revert acc.
  induction captures as [|capture rest IH]; intros acc Hsub Hinv; simpl; [done|].
  destruct (Nat.ltb (length acc) 5) eqn:Hlen; [|done].
  apply Nat.ltb_lt in Hlen.
  apply IH.
  - intros c Hc. apply Hsub. by right.
  - eapply keep_phrase_invariant; eauto. apply Hsub. left.
Qed.

Lemma scan_verbs_invariant msgs : scan_invariant toLowerCase msgs (scan_verbs toLowerCase msgs).
Proof.
  unfold scan_verbs.
  apply foldl_invariant.
  - split; [simpl; lia|]. split; constructor.
  - intros acc verb Hverb Hacc.
    apply foldl_invariant; [done|].
    intros acc' msg Hmsg Hacc'.
    by apply (while_matches_invariant msgs verb).
Qed.

Lemma no_near_duplicates_lookup acc i j a b :
  no_near_duplicates acc -> i < j ->
  acc !! i = Some a -> acc !! j = Some b ->
  includes (text a) (substring0 20 (text b)) = false.
Proof.
  intros Hnnd. revert i j a b.
  induction Hnnd as [|acc x Hnnd IH Hx]; intros i j a b Hij Hi Hj; [done|].
  destruct (decide (j < length acc)) as [Hlt|Hge].
  - rewrite lookup_app_l in Hi, Hj by lia. eauto.
  - assert (j = length acc) as ->.
    { apply lookup_lt_Some in Hj. rewrite length_app in Hj. simpl in Hj. lia. }
    rewrite lookup_app_l in Hi by lia.
    rewrite list_lookup_middle in Hj by done. injection Hj as <-.
    rewrite Forall_forall in Hx. apply Hx. by eapply list_elem_of_lookup_2.
Qed.

End SummariserFacts.

(** ** Message indices *)

Lemma indexed_from_index f t k l :
  map index (indexed_from f t k l) = map f (seq k (length l)).
Proof.
  revert k. induction l as [|m l IH]; intros k; simpl; [done|]. by rewrite IH.
Qed.

Lemma indexed_from_lookup f t k l i c :
  l !! i = Some c -> mkMessage c (f (k + i)) t ∈ indexed_from f t k l.
Proof.
  revert k i. induction l as [|m l IH]; intros k i Hi; [done|].
  destruct i as [|i]; simpl in *.
  - injection Hi as ->. rewrite Nat.add_0_r. left.
  - right. replace (k + S i) with (S k + i) by lia. by apply IH.
Qed.

Lemma index_leb_total (x y : Message) :
  Nat.leb (index x) (index y) = true \/ Nat.leb (index y) (index x) = true.
Proof. rewrite !Nat.leb_le. lia. Qed.

Lemma index_leb_trans (x y z : Message) :
  Nat.leb (index x) (index y) = true -> Nat.leb (index y) (index z) = true ->
  Nat.leb (index x) (index z) = true.
Proof. rewrite !Nat.leb_le. lia. Qed.

Lemma allMessages_perm u a :
  allMessages u a ≡ₚ
  indexed_from (fun idx => idx * 2) TUser 0 u ++
  indexed_from (fun idx => idx * 2 + 1) TAssistant 0 a.
Proof. apply sort_by_perm. Qed.

Lemma allMessages_NoDup u a : NoDup (map index (allMessages u a)).
Proof.
  rewrite allMessages_perm, map_app, !indexed_from_index.
  apply NoDup_app. repeat split.
  - apply NoDup_fmap_2; [intros x y; lia|apply NoDup_seq].
  - intros n [x [-> _]]%list_elem_of_fmap [y [? _]]%list_elem_of_fmap. lia.
  - apply NoDup_fmap_2; [intros x y; lia|apply NoDup_seq].
Qed.

Lemma StronglySorted_le_lt (l : list nat) :
  StronglySorted le l -> NoDup l -> StronglySorted lt l.
Proof.
  induction 1 as [|x l Hl IH Hx]; intros Hnd; [constructor|].
  apply NoDup_cons in Hnd as [Hnotin Hnd].
  constructor; [by apply IH|].
  apply Forall_forall. intros y Hy.
  rewrite Forall_forall in Hx. specialize (Hx _ Hy).
  assert (x <> y) by (intros ->; done). lia.
Qed.

Lemma allMessages_increasing u a : StronglySorted lt (map index (allMessages u a)).
Proof.
  apply StronglySorted_le_lt; [|apply allMessages_NoDup].
  pose proof (sort_by_sorted _ index_leb_total index_leb_trans
    (indexed_from (fun idx => idx * 2) TUser 0 u ++
     indexed_from (fun idx => idx * 2 + 1) TAssistant 0 a)) as Hs.
  fold (allMessages u a) in Hs.
  induction Hs as [|x l Hl IH Hx]; simpl; constructor; [done|].
  apply Forall_fmap. eapply Forall_impl; [exact Hx|].
  intros y Hy. simpl. by apply Nat.leb_le.
Qed.

Lemma numbered_index p evs : map index (numbered p evs) = seq p (length evs).
Proof. revert p. induction evs as [|ev evs IH]; intros p; simpl; [done|]. by rewrite IH. Qed.

Lemma numbered_events p evs :
  map (fun m => (type m, content m)) (numbered p evs) = evs.
Proof.
  revert p. induction evs as [|[t c] evs IH]; intros p; simpl; [done|]. by rewrite IH.
Qed.

Lemma numbered_perm evs :
  forall k,
    (alternates TUser evs ->
     indexed_from (fun idx => idx * 2) TUser k (contents_of TUser evs) ++
     indexed_from (fun idx => idx * 2 + 1) TAssistant k (contents_of TAssistant evs)
     ≡ₚ numbered (k * 2) evs) /\
    (alternates TAssistant evs ->
     indexed_from (fun idx => idx * 2) TUser (S k) (contents_of TUser evs) ++
     indexed_from (fun idx => idx * 2 + 1) TAssistant k (contents_of TAssistant evs)
     ≡ₚ numbered (k * 2 + 1) evs).
Proof.
  induction evs as [|[t c] evs IH]; intros k; [done|].
  split; intros [Ht Hrest]; simpl in Ht; subst t; cbn.
  - constructor. destruct (IH k) as [_ IH2].
    replace (S (k * 2)) with (k * 2 + 1) by lia. by apply IH2.
  - rewrite <- Permutation_middle. constructor.
    destruct (IH (S k)) as [IH1 _].
    replace (S (k * 2 + 1)) with (S k * 2) by lia. by apply IH1.
Qed.

Lemma seq_strictly_sorted p n : StronglySorted lt (seq p n).
Proof.
  revert p. induction n as [|n IH]; intros p; simpl; constructor; [apply IH|].
  apply Forall_forall. intros y Hy%elem_of_seq. lia.
Qed.

Lemma allMessages_alternating evs :
  alternates TUser evs ->
  allMessages (contents_of TUser evs) (contents_of TAssistant evs) = numbered 0 evs.
Proof.
  intros Halt. unfold allMessages.
  apply sort_by_unique.
  - apply index_leb_total.
  - apply index_leb_trans.
  - destruct (numbered_perm evs 0) as [H _]. by apply H.
  - pose proof (seq_strictly_sorted 0 (length evs)) as Hs.
    rewrite <- numbered_index in Hs.
    induction (numbered 0 evs) as [|m l IH]; [constructor|].
    simpl in Hs. apply StronglySorted_inv in Hs as [Hs Hm].
    constructor; [by apply IH|].
    rewrite Forall_forall in Hm. apply Forall_forall. intros y Hy.
    apply Nat.leb_gt. apply Hm. apply list_elem_of_fmap. eauto.
Qed.

Section ExtractionFacts.

Variable toLowerCase : jsstring -> jsstring.
Variable JSON_parse : jsstring -> option json.
Variable JSON_stringify : json -> jsstring.

Lemma contents_of_app t evs evs' :
  contents_of t (evs ++ evs') = contents_of t evs ++ contents_of t evs'.
Proof. unfold contents_of. apply omap_app. Qed.

Lemma extract_from_events st lines :
  let st' := foldl (extract_step JSON_parse JSON_stringify) st lines in
  let evs := line_events JSON_parse JSON_stringify lines in
  ex_userMessages st' = ex_userMessages st ++ contents_of TUser evs /\
  ex_assistantMessages st' = ex_assistantMessages st ++ contents_of TAssistant evs.
Proof.
  revert st. induction lines as [|line lines IH]; intros st; simpl.
  - by rewrite !app_nil_r.
  - destruct (IH (extract_step JSON_parse JSON_stringify st line)) as [IHu IHa].
    rewrite IHu, IHa. unfold extract_step, line_events. simpl.
    destruct (summary_line JSON_parse JSON_stringify line) as [[[] c]|]; simpl;
      by rewrite <- ?app_assoc.
Qed.

Lemma extract_lines_events lines :
  let evs := line_events JSON_parse JSON_stringify lines in
  ex_userMessages (extract_lines JSON_parse JSON_stringify lines) = contents_of TUser evs /\
  ex_assistantMessages (extract_lines JSON_parse JSON_stringify lines)
    = contents_of TAssistant evs.
Proof. apply (extract_from_events (mkExtracted [] [] (JStr []))). Qed.

Lemma scan_verbs_points_into msgs :
  Forall (points_into msgs) (scan_verbs toLowerCase msgs).
Proof.
  destruct (scan_verbs_invariant toLowerCase msgs) as (_ & Hall & _).
  eapply Forall_impl; [exact Hall|].
  intros a (verb & msg & capture & _ & Hmsg & _ & _ & _ & _ & Hi & Ha).
  by exists msg.
Qed.

Lemma add_files_points_into msgs acc :
  Forall (points_into msgs) acc ->
  Forall (points_into msgs) (add_files toLowerCase msgs acc).
Proof.
  intros Hacc. unfold add_files.
  destruct (_ && _); [|done].
  apply foldl_invariant; [done|].
  intros acc' file _ Hacc'. unfold add_file, find_mention.
  destruct (List.find _ msgs) as [m|] eqn:Hfind; [|done].
  apply Forall_app. split; [done|]. constructor; [|done].
  exists m. simpl. split; [|done].
  apply List.find_some in Hfind as [Hin _]. by apply list_elem_of_In.
Qed.

Lemma anchors_point_into userMessages assistantMessages firstUserMessage chatId an :
  an ∈ anchors (generateChatSummary toLowerCase userMessages assistantMessages
                  firstUserMessage chatId) ->
  exists m, m ∈ allMessages userMessages assistantMessages /\
            anchor_messageIndex an = index m /\
            anchor_id an = msg_anchor (index m).
Proof.
  unfold generateChatSummary.
  destruct userMessages as [|u0 us]; [by intros ?%elem_of_nil|].
  set (msgs := allMessages (u0 :: us) assistantMessages).
  pose proof (add_files_points_into msgs _ (scan_verbs_points_into msgs)) as Hall.
  unfold accomplishments_of. fold msgs. revert Hall.
  generalize (add_files toLowerCase msgs (scan_verbs toLowerCase msgs)).
  intros [|a0 acc] Hall; [by intros ?%elem_of_nil|].
  cbn [anchors]. generalize (take 3 (a0 :: acc)) (subseteq_take 3 (a0 :: acc)).
  intros shown Hshown [item [-> Hitem]]%list_elem_of_fmap.
  apply Hshown in Hitem.
  rewrite Forall_forall in Hall. destruct (Hall _ Hitem) as (m & ? & ? & ?).
  by exists m.
Qed.

End ExtractionFacts.

(** C2 (as amended). In every conversation the indices of [allMessages]
    are strictly increasing and pairwise distinct: user message [i] of the
    log has index [2i], assistant message [i] has index [2i+1], and every
    anchor of the Tier-1 summary carries the index of one of these messages
    and the id [msg-] followed by that index. The indices follow the order
    of the lines when the messages of the log alternate strictly between
    user and assistant, starting with a user message. *)
Theorem message_indices_increasing_and_anchored
    (toLowerCase : jsstring -> jsstring)
    (JSON_parse : jsstring -> option json) (JSON_stringify : json -> jsstring)
    (fileContent chatId : jsstring) :
  let lines := nonblank_lines fileContent in
  let evs := line_events JSON_parse JSON_stringify lines in
  let st := extract_lines JSON_parse JSON_stringify lines in
  let msgs := allMessages (ex_userMessages st) (ex_assistantMessages st) in
  StronglySorted lt (map index msgs) /\
  NoDup (map index msgs) /\
  (forall i c, contents_of TUser evs !! i = Some c ->
               mkMessage c (i * 2) TUser ∈ msgs) /\
  (forall i c, contents_of TAssistant evs !! i = Some c ->
               mkMessage c (i * 2 + 1) TAssistant ∈ msgs) /\
  (forall an,
     an ∈ anchors (summarise_file toLowerCase JSON_parse JSON_stringify fileContent chatId) ->
     exists m, m ∈ msgs /\ anchor_messageIndex an = index m /\
               anchor_id an = msg_anchor (index m)) /\
  (alternates TUser evs ->
   map (fun m => (type m, content m)) msgs = evs /\
   map index msgs = seq 0 (length evs)).
Proof.
  intros lines evs st msgs.
  destruct (extract_lines_events JSON_parse JSON_stringify lines) as [Hu Ha].
  fold st evs in Hu, Ha.
  split; [apply allMessages_increasing|].
  split; [apply allMessages_NoDup|].
  split; [|split; [|split]].
  - intros i c Hi. unfold msgs. rewrite allMessages_perm, Hu.
    apply elem_of_app. left.
    by apply (indexed_from_lookup (fun idx => idx * 2) TUser 0).
  - intros i c Hi. unfold msgs. rewrite allMessages_perm, Ha.
    apply elem_of_app. right.
    by apply (indexed_from_lookup (fun idx => idx * 2 + 1) TAssistant 0).
  - intros an Han. by apply (anchors_point_into toLowerCase _ _ _ _ _ Han).
  - intros Halt. unfold msgs. rewrite Hu, Ha, allMessages_alternating by done.
    by rewrite numbered_events, numbered_index.
Qed.

(** ** Message indices on concrete logs *)

(** C2, counterexample. With two assistant lines in a row the order by
    index is not the order of the lines: the fourth line (the user's
    thanks) has index 2 and the third line has index 3, which is also what
    the anchor of the summary carries. *)
Lemma index_order_differs_from_line_order :
  let parse := parse_log two_answers_log in
  let stringify := fun _ : json => [] in
  let lines := nonblank_lines (log_content two_answers_log) in
  let evs := line_events parse stringify lines in
  let st := extract_lines parse stringify lines in
  let msgs := allMessages (ex_userMessages st) (ex_assistantMessages st) in
  evs = [(TUser, JStr (js "hello")); (TAssistant, JStr (js "ok"));
         (TAssistant, JStr (js "created the login page for you"));
         (TUser, JStr (js "thanks"))] /\
  map (fun m => (index m, content m)) msgs =
        [(0, JStr (js "hello")); (1, JStr (js "ok"));
         (2, JStr (js "thanks"));
         (3, JStr (js "created the login page for you"))] /\
  map (fun m => (type m, content m)) msgs <> evs /\
  map anchor_messageIndex
      (anchors (summarise_file ascii_toLowerCase parse stringify
                  (log_content two_answers_log) (js "c1"))) = [3].
Proof. vm_compute. repeat split; congruence. Qed.

(** C2, witness: a log of one user line and one assistant line. *)
Lemma message_indices_alternating_witness :
  let parse := parse_log alternating_log in
  let stringify := fun _ : json => [] in
  let st := extract_lines parse stringify (nonblank_lines (log_content alternating_log)) in
  map index (allMessages (ex_userMessages st) (ex_assistantMessages st)) = [0; 1].
Proof.
  pose proof (message_indices_increasing_and_anchored ascii_toLowerCase
                (parse_log alternating_log) (fun _ => [])
                (log_content alternating_log) (js "c1")) as H.
  cbv zeta in H. destruct H as (_ & _ & _ & _ & _ & H).
  apply H. vm_compute. repeat split.
Defined.

(** C9 (as amended). A phrase found by a verb pattern in a message is kept
    only if the captured text, trimmed and before cleaning, has a length
    strictly between 10 and 100, its cleaned form is not empty, fewer than
    five phrases are kept so far, and the first 20 characters of the
    cleaned form do not occur in a phrase kept earlier. The cleaned form
    itself is shorter than 100 characters and has at least one; two kept
    phrases never share their 20 leading characters. *)
Theorem kept_phrase_conditions (toLowerCase : jsstring -> jsstring) (msgs : list Message) :
  let kept := scan_verbs toLowerCase msgs in
  length kept <= 5 /\
  (forall a, a ∈ kept ->
     exists verb msg capture,
       verb ∈ actionVerbs /\ msg ∈ msgs /\
       capture ∈ exec_all verb 0 (toLowerCase (string_content msg)) /\
       10 < length (trim capture) < 100 /\
       text a = clean (trim capture) /\
       0 < length (text a) < 100) /\
  (forall i j a b, i < j -> kept !! i = Some a -> kept !! j = Some b ->
     includes (text a) (substring0 20 (text b)) = false /\
     substring0 20 (text a) <> substring0 20 (text b)).
Proof.
  intros kept. destruct (scan_verbs_invariant toLowerCase msgs) as (Hlen & Hall & Hnnd).
  fold kept in Hlen, Hall, Hnnd.
  split; [done|]. split.
  - intros a Ha. rewrite Forall_forall in Hall.
    destruct (Hall a Ha) as (verb & msg & capture & Hv & Hm & Hc & Hraw & Htext & Hne & _).
    exists verb, msg, capture. repeat split; try done; try lia.
    + destruct (text a); [done|simpl; lia].
    + rewrite Htext. pose proof (clean_length (trim capture)). lia.
  - intros i j a b Hij Hi Hj.
    pose proof (no_near_duplicates_lookup _ _ _ _ _ Hnnd Hij Hi Hj) as Hinc.
    split; [done|]. intros Heq.
    rewrite <- Heq, includes_take_self in Hinc. done.
Qed.

(** C9, counterexample. The length test is made on the captured text, not
    on its cleaned form: from [fixed #12, #13, #14.] the capture has 13
    characters and is kept, while its cleaned form has 8. *)
Lemma kept_phrase_shorter_than_ten :
  let msgs := allMessages [JStr (js "fixed #12, #13, #14.")] [] in
  map (fun a => (text a, length (text a))) (scan_verbs ascii_toLowerCase msgs)
  = [(js "12 13 14", 8)].
Proof. vm_compute. reflexivity. Qed.

(** C9, witness: the phrase kept from [fixed #12, #13, #14.] *)
Lemma kept_phrase_conditions_witness :
  let msgs := allMessages [JStr (js "fixed #12, #13, #14.")] [] in
  let a := mkAccomplishment (js "12 13 14") 0 (js "msg-0") in
  exists verb msg capture,
    verb ∈ actionVerbs /\ msg ∈ msgs /\
    capture ∈ exec_all verb 0 (ascii_toLowerCase (string_content msg)) /\
    10 < length (trim capture) < 100 /\
    text a = clean (trim capture) /\
    0 < length (text a) < 100.
Proof.
  apply (proj1 (proj2 (kept_phrase_conditions ascii_toLowerCase
                         (allMessages [JStr (js "fixed #12, #13, #14.")] [])))).
  vm_compute. left.
Defined.

(** ** Index store *)

Lemma existingMap_snoc l t : existingMap (l ++ [t]) = <[keyOf t := t]> (existingMap l).
Proof. unfold existingMap. by rewrite foldl_app. Qed.

Lemma existingMap_lookup_Some l k e :
  existingMap l !! k = Some e -> e ∈ l /\ keyOf e = k.
Proof.
  induction l as [|t l IH] using rev_ind; [done|].
  rewrite existingMap_snoc. destruct (decide (keyOf t = k)) as [<-|Hne].
  - rewrite lookup_insert_eq. intros [= ->]. split; [|done].
    apply elem_of_app. right. left.
  - rewrite lookup_insert_ne by done. intros [? ?]%IH. split; [|done].
    apply elem_of_app. by left.
Qed.

Lemma existingMap_lookup_None l k :
  existingMap l !! k = None <-> k ∉ map keyOf l.
Proof.
  induction l as [|t l IH] using rev_ind.
  - split; [intros _ ?%elem_of_nil; done|done].
  - rewrite existingMap_snoc, map_app, not_elem_of_app. simpl.
    destruct (decide (keyOf t = k)) as [<-|Hne].
    + rewrite lookup_insert_eq. split; [done|]. intros [_ H]. destruct H. left.
    + rewrite lookup_insert_ne, IH by done. split; [|by intros [? _]].
      intros ?. split; [done|]. intros [->|?%elem_of_nil]%elem_of_cons; done.
Qed.

Lemma existingMap_lookup_NoDup l e :
  NoDup (map keyOf l) -> e ∈ l -> existingMap l !! keyOf e = Some e.
Proof.
  induction l as [|t l IH] using rev_ind; [by intros _ ?%elem_of_nil|].
  rewrite map_app. simpl. intros [Hnd [Hdisj _]]%NoDup_app Hin.
  rewrite existingMap_snoc.
  apply elem_of_app in Hin as [Hin|Hin%list_elem_of_singleton].
  - rewrite lookup_insert_ne; [by apply IH|].
    intros Heq. apply (Hdisj (keyOf e)).
    + apply list_elem_of_fmap. eauto.
    + rewrite Heq. left.
  - subst e. apply lookup_insert_eq.
Qed.

Lemma keyOf_merged existingIndex oc : keyOf (merged existingIndex oc) = observedKey oc.
Proof. done. Qed.

(** *** The merge completes exactly on first messages that are texts *)

Lemma firstSentence_text chat :
  first_is_text chat = true ->
  firstSentence (Chat.firstMessage chat) = Ok (firstSentence_of (first_text chat)).
Proof.
  unfold first_is_text, first_text, firstSentence.
  destruct (Chat.firstMessage chat) as [| | |s| |]; try done;
    intros Hfalsy%negb_true_iff; by rewrite Hfalsy.
Qed.

Lemma firstSentence_Throw chat :
  first_is_text chat = false -> firstSentence (Chat.firstMessage chat) = Throw.
Proof.
  unfold first_is_text, firstSentence.
  destruct (Chat.firstMessage chat) as [| | |s| |]; try done;
    intros Htruthy%negb_false_iff; by rewrite Htruthy.
Qed.

Lemma threadInfo_Ok existingIndex oc :
  first_is_text oc.2 = true ->
  threadInfo (lookupThread existingIndex oc) oc.1 oc.2 = Ok (merged existingIndex oc).
Proof. intros Htext. unfold threadInfo. by rewrite firstSentence_text. Qed.

Lemma threadInfo_Throw existingThread projectName chat :
  first_is_text chat = false -> threadInfo existingThread projectName chat = Throw.
Proof. intros Htext. unfold threadInfo. by rewrite firstSentence_Throw. Qed.

Lemma visit_Ok existingIndex pairs acc flag :
  Forall (fun oc => first_is_text oc.2 = true) pairs ->
  visit existingIndex pairs acc flag
  = Ok (acc ++ map (merged existingIndex) pairs,
        flag || existsb (flagged existingIndex) pairs).
Proof.
  intros Hall. revert acc flag.
  induction Hall as [|oc pairs Hoc _ IH]; intros acc flag; cbn [visit map existsb].
  - by rewrite app_nil_r, orb_false_r.
  - rewrite threadInfo_Ok by done. cbn [mbind result_bind].
    rewrite IH, <- app_assoc, <- orb_assoc. done.
Qed.

Lemma visit_Throw existingIndex pairs acc flag :
  Exists (fun oc => first_is_text oc.2 = false) pairs ->
  visit existingIndex pairs acc flag = Throw.
Proof.
  intros Hex. revert acc flag.
  induction Hex as [oc pairs Hoc|oc pairs _ IH]; intros acc flag; cbn [visit].
  - by rewrite threadInfo_Throw.
  - destruct (threadInfo _ _ _); [apply IH|done].
Qed.

Lemma all_text_or_not chatsByProject :
  all_text chatsByProject \/
  Exists (fun oc => first_is_text oc.2 = false) (observed chatsByProject).
Proof.
  unfold all_text. induction (observed chatsByProject) as [|oc pairs IH]; [by left|].
  destruct (first_is_text oc.2) eqn:Hoc.
  - destruct IH as [IH|IH]; [left; by constructor|right; by constructor].
  - right. by constructor.
Qed.

Lemma not_all_text chatsByProject :
  ~ all_text chatsByProject <->
  Exists (fun oc => first_is_text oc.2 = false) (observed chatsByProject).
Proof.
  split.
  - intros Hnot. by destruct (all_text_or_not chatsByProject).
  - intros Hex Hall. apply Exists_exists in Hex as (oc & Hoc & Hfalse).
    unfold all_text in Hall. rewrite Forall_forall in Hall.
    specialize (Hall oc Hoc). cbn beta in Hall. congruence.
Qed.

Lemma build_Ok existingIndex chatsByProject :
  all_text chatsByProject ->
  build existingIndex chatsByProject
  = Ok (sorted_entries existingIndex chatsByProject,
        existsb (flagged existingIndex) (observed chatsByProject)).
Proof. intros Hall. unfold build. by rewrite visit_Ok. Qed.

Lemma build_Throw existingIndex chatsByProject :
  ~ all_text chatsByProject -> build existingIndex chatsByProject = Throw.
Proof. intros Hex%not_all_text. unfold build. by rewrite visit_Throw. Qed.

Lemma newIndex_Ok existingIndex chatsByProject :
  all_text chatsByProject ->
  newIndex existingIndex chatsByProject = Ok (sorted_entries existingIndex chatsByProject).
Proof. intros Hall. unfold newIndex. by rewrite build_Ok. Qed.

Lemma hasChanges_Ok existingIndex chatsByProject :
  all_text chatsByProject ->
  hasChanges existingIndex chatsByProject
  = Ok (existsb (flagged existingIndex) (observed chatsByProject)).
Proof. intros Hall. unfold hasChanges. by rewrite build_Ok. Qed.

Lemma sorted_entries_perm existingIndex chatsByProject :
  sorted_entries existingIndex chatsByProject ≡ₚ
  map (merged existingIndex) (observed chatsByProject).
Proof. apply sort_by_perm. Qed.

Lemma sorted_entries_length existingIndex chatsByProject :
  length (sorted_entries existingIndex chatsByProject) = length (observed chatsByProject).
Proof. by rewrite sorted_entries_perm, length_map. Qed.

Lemma sorted_entries_keys existingIndex chatsByProject :
  map keyOf (sorted_entries existingIndex chatsByProject) ≡ₚ
  map observedKey (observed chatsByProject).
Proof.
  rewrite sorted_entries_perm, map_map. done.
Qed.

Lemma elem_of_sorted_entries existingIndex chatsByProject t :
  t ∈ sorted_entries existingIndex chatsByProject <->
  exists oc, oc ∈ observed chatsByProject /\ t = merged existingIndex oc.
Proof.
  rewrite sorted_entries_perm, list_elem_of_fmap.
  split; intros (oc & H1 & H2); exists oc; by split.
Qed.

Lemma changed_Ok file chatsByProject :
  all_text chatsByProject ->
  changed file chatsByProject
  = existsb (flagged (readIndex file)) (observed chatsByProject)
    || negb (Nat.eqb (length (readIndex file)) (length (observed chatsByProject))).
Proof.
  intros Hall. unfold changed. by rewrite build_Ok, sorted_entries_length.
Qed.

Lemma updateHistoryIndex_Ok file chatsByProject :
  all_text chatsByProject ->
  updateHistoryIndex file chatsByProject
  = if changed file chatsByProject
    then Some (sorted_entries (readIndex file) chatsByProject)
    else file.
Proof. intros Hall. unfold updateHistoryIndex. by rewrite build_Ok. Qed.

(** A first message that is no text: the merge ends in its [catch]. *)
Lemma updateHistoryIndex_Throw file chatsByProject :
  ~ all_text chatsByProject ->
  updateHistoryIndex file chatsByProject = file /\ changed file chatsByProject = false.
Proof.
  intros Hnot. unfold updateHistoryIndex, changed. by rewrite build_Throw.
Qed.

Lemma unchanged_file file chatsByProject :
  changed file chatsByProject = false -> updateHistoryIndex file chatsByProject = file.
Proof.
  intros Hch. unfold updateHistoryIndex. rewrite Hch.
  by destruct (build _ _) as [[? ?]|].
Qed.

Lemma not_flagged existingIndex chatsByProject :
  existsb (flagged existingIndex) (observed chatsByProject) = false <->
  forall oc, oc ∈ observed chatsByProject ->
             needs_analysis (lookupThread existingIndex oc) oc.2 = false.
Proof.
  rewrite <- not_true_iff_false, existsb_exists.
  split.
  - intros Hno oc Hoc. apply not_true_iff_false. intros Hn.
    apply Hno. exists oc. split; [by apply list_elem_of_In|done].
  - intros Hall (oc & Hoc%list_elem_of_In & Hn). unfold flagged in Hn.
    rewrite Hall in Hn; done.
Qed.

Lemma tsval_eqb_eq a b : tsval_eqb a b = true <-> a = b.
Proof.
  destruct a, b; simpl; try done.
  rewrite jsstring_eqb_eq. split; [by intros ->|by intros [= ->]].
Qed.

(** When nothing is flagged: the four tests of lines 186-190. *)
Lemma needs_analysis_false existingThread chat :
  needs_analysis existingThread chat = false <->
  exists e, existingThread = Some e /\
            Thread.messageCount e = Chat.messageCount chat /\
            Thread.lastMessageTimestamp e = Chat.lastMessageTimestamp chat /\
            present (Thread.oneLineSummary e) = true /\
            present (Thread.paragraphSummary e) = true.
Proof.
  unfold needs_analysis. destruct existingThread as [e|].
  - rewrite !orb_false_iff, !negb_false_iff, Nat.eqb_eq, tsval_eqb_eq.
    split; [intros (((?&?)&?)&?); eauto 10|].
    by intros (? & [= <-] & ? & ? & ? & ?).
  - split; [done|]. by intros (? & ? & _).
Qed.

Lemma lookup_sorted_entries existingIndex chatsByProject oc :
  NoDup (map observedKey (observed chatsByProject)) ->
  oc ∈ observed chatsByProject ->
  lookupThread (sorted_entries existingIndex chatsByProject) oc
  = Some (merged existingIndex oc).
Proof.
  intros Hnd Hoc. unfold lookupThread.
  change (threadKey oc.1 (Chat.id oc.2)) with (keyOf (merged existingIndex oc)).
  apply existingMap_lookup_NoDup.
  - by rewrite sorted_entries_keys.
  - apply elem_of_sorted_entries. eauto.
Qed.

Lemma rewritten_only_on_change file chatsByProject :
  updateHistoryIndex file chatsByProject <> file ->
  hasChanges (readIndex file) chatsByProject = Ok true \/
  exists index', newIndex (readIndex file) chatsByProject = Ok index' /\
                 length (readIndex file) <> length index'.
Proof.
  intros Hne. destruct (all_text_or_not chatsByProject) as [Hall|Hex].
  - rewrite hasChanges_Ok, newIndex_Ok by done.
    rewrite updateHistoryIndex_Ok, changed_Ok in Hne by done.
    destruct (existsb _ _); [by left|right]. cbn [orb] in Hne.
    eexists. split; [done|]. rewrite sorted_entries_length.
    destruct (Nat.eqb_spec (length (readIndex file)) (length (observed chatsByProject)));
      [done|done].
  - apply not_all_text in Hex. by destruct (updateHistoryIndex_Throw file _ Hex).
Qed.

(** With distinct keys and texts as first messages: what the second of
    two merges reports. *)
Lemma second_merge_changed file chatsByProject :
  all_text chatsByProject ->
  NoDup (map observedKey (observed chatsByProject)) ->
  changed file chatsByProject = true ->
  (changed (updateHistoryIndex file chatsByProject) chatsByProject = false <->
   forall oc, oc ∈ observed chatsByProject ->
              has_summaries (lookupThread (readIndex file) oc)).
Proof.
  intros Hall Hnd Hfirst. rewrite updateHistoryIndex_Ok, Hfirst by done.
  rewrite changed_Ok by done. cbn [readIndex].
  rewrite sorted_entries_length, Nat.eqb_refl, orb_false_r, not_flagged.
  apply forall_proper. intros oc. apply forall_proper. intros Hoc.
  rewrite lookup_sorted_entries, needs_analysis_false by done.
  unfold has_summaries, merged.
  destruct (lookupThread (readIndex file) oc) as [e|]; cbn.
  - split.
    + intros (t & [= <-] & _ & _ & Hone & Hpar). by exists e.
    + intros (e' & [= <-] & Hone & Hpar). eexists. by split_and!.
  - split; [by intros (t & [= <-] & _ & _ & ? & _)|by intros (e' & ? & _)].
Qed.

(** C1 (as amended). For observed conversations with distinct keys whose
    first messages are texts, a second merge on unchanged input reports no
    change exactly when the first merge wrote nothing or every observed
    conversation already has a persisted entry with a non-empty one-line
    and paragraph summary. Whenever the second merge reports no change it
    leaves the document as the first merge left it. In every case the
    document is rewritten only when an entry was marked changed or the
    number of entries differs; a merge that ends on a first message that is
    no text writes nothing. *)
Theorem merge_idempotent_once_summarised (file : IndexFile) (chatsByProject : ChatsByProject) :
  let file1 := updateHistoryIndex file chatsByProject in
  (all_text chatsByProject ->
   NoDup (map observedKey (observed chatsByProject)) ->
   (changed file1 chatsByProject = false <->
    changed file chatsByProject = false \/
    forall oc, oc ∈ observed chatsByProject ->
               has_summaries (lookupThread (readIndex file) oc))) /\
  (changed file1 chatsByProject = false ->
   updateHistoryIndex file1 chatsByProject = file1) /\
  (~ all_text chatsByProject ->
   file1 = file /\ changed file chatsByProject = false /\
   changed file1 chatsByProject = false /\
   updateHistoryIndex file1 chatsByProject = file1) /\
  (file1 <> file ->
     hasChanges (readIndex file) chatsByProject = Ok true \/
     exists index', newIndex (readIndex file) chatsByProject = Ok index' /\
                    length (readIndex file) <> length index').
Proof.
  intros file1. split_and!.
  - intros Hall Hnd. destruct (changed file chatsByProject) eqn:Hfirst.
    + unfold file1. rewrite second_merge_changed by done.
      split; [by right|by intros [?|?]].
    + unfold file1. rewrite unchanged_file by done. split; [by left|done].
  - apply unchanged_file.
  - intros Hnot. destruct (updateHistoryIndex_Throw file _ Hnot) as [Hfile Hch].
    unfold file1. rewrite Hfile. by split_and!.
  - apply rewritten_only_on_change.
Qed.

(** C5 (as amended). When the merge completes, the entry it builds for an
    observed conversation has no [needsAnalysis] member, which reads as
    false, exactly when the persisted entry has the same message count and
    the same last timestamp and holds a non-empty one-line summary and a
    non-empty paragraph summary; in every other case the member is
    [true]. The entry built replaces the persisted one when the document
    is rewritten (the keys being distinct); when it is not rewritten the
    persisted entry stays as it is, with the member it has. *)
Theorem needsAnalysis_cleared_iff_unchanged_and_summarised
    (file : IndexFile) (chatsByProject : ChatsByProject) (oc : jsstring * Chat.t) :
  oc ∈ observed chatsByProject ->
  all_text chatsByProject ->
  let existingIndex := readIndex file in
  let file1 := updateHistoryIndex file chatsByProject in
  let t := merged existingIndex oc in
  threadInfo (lookupThread existingIndex oc) oc.1 oc.2 = Ok t /\
  (exists index', newIndex existingIndex chatsByProject = Ok index' /\ t ∈ index') /\
  (Thread.needsAnalysis t = None <->
   exists e, lookupThread existingIndex oc = Some e /\
             Thread.messageCount e = Chat.messageCount oc.2 /\
             Thread.lastMessageTimestamp e = Chat.lastMessageTimestamp oc.2 /\
             present (Thread.oneLineSummary e) = true /\
             present (Thread.paragraphSummary e) = true) /\
  (Thread.needsAnalysis t = None \/ Thread.needsAnalysis t = Some true) /\
  (changed file chatsByProject = true <->
   hasChanges existingIndex chatsByProject = Ok true \/
   length existingIndex <> length (observed chatsByProject)) /\
  (changed file chatsByProject = true ->
   NoDup (map observedKey (observed chatsByProject)) ->
   lookupThread (readIndex file1) oc = Some t) /\
  (changed file chatsByProject = false ->
   file1 = file /\ Thread.needsAnalysis t = None /\
   exists e, lookupThread existingIndex oc = Some e /\
             lookupThread (readIndex file1) oc = Some e).
Proof.
  intros Hoc Hall existingIndex file1 t.
  assert (Htext : first_is_text oc.2 = true).
  { unfold all_text in Hall. rewrite Forall_forall in Hall. by apply Hall. }
  assert (Hflag : Thread.needsAnalysis t = None <->
                  needs_analysis (lookupThread existingIndex oc) oc.2 = false).
  { unfold t, merged, threadInfo_literal; cbn. by destruct (needs_analysis _ _). }
  split; [by apply threadInfo_Ok|].
  split.
  { eexists. split; [by apply newIndex_Ok|]. apply elem_of_sorted_entries. eauto. }
  split; [by rewrite Hflag, needs_analysis_false|].
  split.
  { unfold t, merged, threadInfo_literal; cbn. destruct (needs_analysis _ _); auto. }
  split.
  { rewrite changed_Ok, hasChanges_Ok by done. fold existingIndex.
    destruct (existsb _ _); cbn [orb]; [split; [by left|done]|].
    rewrite negb_true_iff, Nat.eqb_neq. split; [by right|by intros [?|?]]. }
  split.
  - intros Hch Hnd. unfold file1. rewrite updateHistoryIndex_Ok, Hch by done.
    cbn [readIndex]. by apply lookup_sorted_entries.
  - intros Hch. unfold file1. rewrite unchanged_file by done.
    rewrite changed_Ok in Hch by done.
    apply orb_false_iff in Hch as [Hno _].
    pose proof (proj1 (not_flagged _ _) Hno oc Hoc) as Hn.
    split; [done|]. split; [by apply Hflag|].
    apply needs_analysis_false in Hn as (e & He & _). by exists e.
Qed.

(** With distinct keys among the observed conversations and texts as
    first messages, a persisted entry whose conversation is not observed
    any more makes the merge write the document; the written document has
    entries for observed conversations only, so the stale entry is gone.
    When no entry is flagged it is the count of entries that differs. *)
Lemma stale_entry_removed (file : IndexFile) (chatsByProject : ChatsByProject)
    (stale : Thread.t) :
  all_text chatsByProject ->
  NoDup (map observedKey (observed chatsByProject)) ->
  stale ∈ readIndex file ->
  keyOf stale ∉ map observedKey (observed chatsByProject) ->
  let index' := sorted_entries (readIndex file) chatsByProject in
  newIndex (readIndex file) chatsByProject = Ok index' /\
  changed file chatsByProject = true /\
  updateHistoryIndex file chatsByProject = Some index' /\
  (forall t, t ∈ index' ->
     exists oc, oc ∈ observed chatsByProject /\
                Thread.project t = oc.1 /\ Thread.id t = Chat.id oc.2) /\
  (keyOf stale ∉ map keyOf index') /\
  (hasChanges (readIndex file) chatsByProject = Ok false ->
   length (readIndex file) <> length index').
Proof.
  intros Hall Hnd Hstale Hnew index'.
  assert (Hcount : existsb (flagged (readIndex file)) (observed chatsByProject) = false ->
                   length (readIndex file) <> length index').
  { intros Hno. unfold index'. rewrite sorted_entries_length.
    rewrite not_flagged in Hno.
    assert (Hsub : keyOf stale :: map observedKey (observed chatsByProject)
                   ⊆+ map keyOf (readIndex file)).
    { apply NoDup_submseteq; [by constructor|].
      intros k [->|Hk]%elem_of_cons; [apply list_elem_of_fmap; eauto|].
      apply list_elem_of_fmap in Hk as (oc & -> & Hoc).
      specialize (Hno oc Hoc). apply needs_analysis_false in Hno as (e & He & _).
      apply existingMap_lookup_Some in He as [He Hkey].
      apply list_elem_of_fmap. exists e. by rewrite Hkey. }
    apply submseteq_length in Hsub. simpl in Hsub. rewrite !length_map in Hsub. lia. }
  assert (Hch : changed file chatsByProject = true).
  { rewrite changed_Ok by done. destruct (existsb _ _) eqn:Hno; [done|]. simpl.
    apply negb_true_iff, Nat.eqb_neq. specialize (Hcount eq_refl).
    unfold index' in Hcount. by rewrite sorted_entries_length in Hcount. }
  split; [by apply newIndex_Ok|].
  split; [done|]. split; [by rewrite updateHistoryIndex_Ok, Hch|].
  split; [|split].
  - intros t (oc & Hoc & ->)%elem_of_sorted_entries. by exists oc.
  - unfold index'. by rewrite sorted_entries_keys.
  - rewrite hasChanges_Ok by done. intros [= Hno]. by apply Hcount.
Qed.

Lemma storeAnalysis_keeps historyIndex chatId analysis now t :
  t ∈ historyIndex -> Thread.id t <> chatId ->
  t ∈ storeAnalysis historyIndex chatId analysis now.
Proof.
  intros Hin Hid. induction historyIndex as [|t0 rest IH]; [done|].
  simpl. destruct (jsstring_eqb (Thread.id t0) chatId) eqn:Heq.
  - apply jsstring_eqb_eq in Heq.
    apply elem_of_cons in Hin as [->|Hin]; [done|by right].
  - apply elem_of_cons in Hin as [->|Hin]; [left|right; by apply IH].
Qed.

(** The analysis is stored into the first entry with the id, whatever its
    project. *)
Lemma storeAnalysis_first pre t post chatId analysis now :
  Forall (fun u => Thread.id u <> chatId) pre ->
  Thread.id t = chatId ->
  storeAnalysis (pre ++ t :: post) chatId analysis now
  = pre ++ analysed t analysis now :: post.
Proof.
  intros Hpre Hid. induction Hpre as [|u pre Hu _ IH]; cbn [app storeAnalysis].
  - by rewrite (proj2 (jsstring_eqb_eq _ _) Hid).
  - destruct (jsstring_eqb (Thread.id u) chatId) eqn:Heq.
    + by apply jsstring_eqb_eq in Heq.
    + by rewrite IH.
Qed.

(** C4 (as amended). For an observed conversation that has a persisted
    entry, a merge that completes carries the three summaries forward: a
    non-empty paragraph or one-line summary is kept as it is, an empty or
    missing one falls back to the member of the earlier format, and a
    bullet summary is kept. Whatever the merge does, the document after it
    still holds a non-empty paragraph summary. The merge copies no other
    member of the persisted entry: the new entry has no [lastAnalyzed],
    and [needsAnalysis] is never written as [false]. Only the analysis
    pass keeps the members it does not compute: it replaces the first
    entry that has the id of the chat, whatever its project, and leaves
    every other entry as it is. *)
Theorem summaries_carried_forward (file : IndexFile) (chatsByProject : ChatsByProject)
    (oc : jsstring * Chat.t) (e : Thread.t) :
  oc ∈ observed chatsByProject ->
  lookupThread (readIndex file) oc = Some e ->
  let t := merged (readIndex file) oc in
  (first_is_text oc.2 = true -> threadInfo (Some e) oc.1 oc.2 = Ok t) /\
  (all_text chatsByProject ->
   exists index', newIndex (readIndex file) chatsByProject = Ok index' /\ t ∈ index') /\
  (present (Thread.paragraphSummary e) = true ->
     Thread.paragraphSummary t = Thread.paragraphSummary e /\
     exists t', t' ∈ readIndex (updateHistoryIndex file chatsByProject) /\
                keyOf t' = observedKey oc /\
                Thread.paragraphSummary t' = Thread.paragraphSummary e) /\
  (present (Thread.oneLineSummary e) = true ->
     Thread.oneLineSummary t = Thread.oneLineSummary e) /\
  (present (Thread.paragraphSummary e) = false ->
     Thread.paragraphSummary t = Thread.paragraph e) /\
  (present (Thread.oneLineSummary e) = false ->
     Thread.oneLineSummary t = Thread.oneLine e) /\
  (forall b, Thread.bulletSummary e = Some b -> Thread.bulletSummary t = Some b) /\
  Thread.lastAnalyzed t = None /\
  Thread.needsAnalysis t <> Some false /\
  (forall chatId analysis now,
     (forall t0, t0 ∈ readIndex file -> Thread.id t0 <> chatId ->
                 t0 ∈ storeAnalysis (readIndex file) chatId analysis now) /\
     (forall pre t0 post,
        readIndex file = pre ++ t0 :: post ->
        Forall (fun u => Thread.id u <> chatId) pre -> Thread.id t0 = chatId ->
        storeAnalysis (readIndex file) chatId analysis now
        = pre ++ analysed t0 analysis now :: post)).
Proof.
  intros Hoc He t.
  assert (Ht : t = threadInfo_literal (firstSentence_of (first_text oc.2)) (Some e)
                     oc.1 oc.2).
  { unfold t, merged. by rewrite He. }
  split.
  { intros Htext. rewrite <- He. by apply threadInfo_Ok. }
  split.
  { intros Hall. eexists. split; [by apply newIndex_Ok|].
    apply elem_of_sorted_entries. eauto. }
  split_and!.
  - intros Hp. split; [rewrite Ht; unfold threadInfo_literal, or_else; cbn; by rewrite Hp|].
    destruct (all_text_or_not chatsByProject) as [Hall|Hex%not_all_text].
    + rewrite updateHistoryIndex_Ok by done.
      destruct (changed file chatsByProject).
      * exists t. split; [apply elem_of_sorted_entries; eauto|]. split; [done|].
        rewrite Ht. unfold threadInfo_literal, or_else; cbn. by rewrite Hp.
      * apply existingMap_lookup_Some in He as [He Hkey]. by exists e.
    + destruct (updateHistoryIndex_Throw file _ Hex) as [-> _].
      apply existingMap_lookup_Some in He as [He Hkey]. by exists e.
  - intros Hp. rewrite Ht. unfold threadInfo_literal, or_else; cbn. by rewrite Hp.
  - intros Hp. rewrite Ht. unfold threadInfo_literal, or_else; cbn. by rewrite Hp.
  - intros Hp. rewrite Ht. unfold threadInfo_literal, or_else; cbn. by rewrite Hp.
  - intros b Hb. rewrite Ht. unfold threadInfo_literal; cbn. by rewrite Hb.
  - by rewrite Ht.
  - rewrite Ht. unfold threadInfo_literal. cbn [Thread.needsAnalysis].
    by destruct (needs_analysis (Some e) oc.2).
  - intros chatId analysis now. split.
    + intros. by apply storeAnalysis_keeps.
    + intros pre t0 post -> Hpre Hid. by apply storeAnalysis_first.
Qed.

(** ** The merge on concrete documents *)

(** C1, counterexample. The first conversation has grown by a line and a
    second one is new. The first merge flags both; the second merge, on the
    same input, reports a change again (the new entry has no summaries)
    and writes a different document (the flag of the first entry is
    gone). *)
Lemma second_merge_changes_again :
  let file := Some [thread_login] in
  let chatsByProject := [(js "viewer", [chat_login 6; chat_new])] in
  let file1 := updateHistoryIndex file chatsByProject in
  map Thread.needsAnalysis (readIndex file1) = [Some true; Some true] /\
  changed file1 chatsByProject = true /\
  updateHistoryIndex file1 chatsByProject <> file1 /\
  map Thread.needsAnalysis (readIndex (updateHistoryIndex file1 chatsByProject))
    = [Some true; None].
Proof. vm_compute. repeat split; congruence. Qed.

(** C4, counterexample. An unchanged, analysed entry is rewritten because
    another conversation is new: its [lastAnalyzed] is erased and its
    [needsAnalysis = false] is no longer in the document. *)
Lemma rewrite_erases_lastAnalyzed :
  let file := Some [thread_login] in
  let chatsByProject := [(js "viewer", [chat_login 5; chat_new])] in
  Thread.lastAnalyzed thread_login = Some (js "2024-05-01T11:00:00.000Z") /\
  Thread.needsAnalysis thread_login = Some false /\
  map (fun t => (Thread.id t, Thread.lastAnalyzed t, Thread.needsAnalysis t))
      (readIndex (updateHistoryIndex file chatsByProject))
  = [(js "b2", None, Some true); (js "a1", None, None)].
Proof. vm_compute. repeat split. Qed.

(** C5, counterexample. The message count is unchanged and the one-line
    summary is present, yet the entry is flagged: it has no paragraph
    summary. *)
Lemma flagged_without_paragraph :
  let file := Some [thread_login_no_paragraph] in
  let chatsByProject := [(js "viewer", [chat_login 5])] in
  Thread.messageCount thread_login_no_paragraph = Chat.messageCount (chat_login 5) /\
  present (Thread.oneLineSummary thread_login_no_paragraph) = true /\
  map Thread.needsAnalysis (readIndex (updateHistoryIndex file chatsByProject))
  = [Some true].
Proof. vm_compute. repeat split. Qed.

(** The flag of the document outlives the change that set it. The
    conversation has grown by a line, so the first merge writes its entry
    with [needsAnalysis = true] and the summaries it had. The second merge
    finds the entry unchanged and summarised, builds an entry without the
    flag and, as nothing is flagged, does not write it: the document still
    says [true]. *)
Example persisted_flag_stays :
  let chatsByProject := [(js "viewer", [chat_login 6])] in
  let file1 := updateHistoryIndex (Some [thread_login]) chatsByProject in
  let file2 := updateHistoryIndex file1 chatsByProject in
  map (fun t => (Thread.messageCount t, present (Thread.oneLineSummary t),
                 present (Thread.paragraphSummary t), Thread.needsAnalysis t))
      (readIndex file1) = [(6, true, true, Some true)] /\
  Thread.needsAnalysis (merged (readIndex file1) (js "viewer", chat_login 6)) = None /\
  changed file1 chatsByProject = false /\
  file2 = file1 /\
  map Thread.needsAnalysis (readIndex file2) = [Some true].
Proof. vm_compute. repeat split. Qed.

(** C1, witness: the entry is summarised and the conversation has grown by
    a line; the first merge writes, the second changes nothing. *)
Lemma merge_idempotent_witness :
  let file := Some [thread_login] in
  let chatsByProject := [(js "viewer", [chat_login 6])] in
  let file1 := updateHistoryIndex file chatsByProject in
  file1 <> file /\
  changed file1 chatsByProject = false /\
  updateHistoryIndex file1 chatsByProject = file1.
Proof.
  pose proof (merge_idempotent_once_summarised (Some [thread_login])
                [(js "viewer", [chat_login 6])]) as H.
  cbv zeta in *. destruct H as (H1 & H2 & _).
  assert (changed (updateHistoryIndex (Some [thread_login]) [(js "viewer", [chat_login 6])])
            [(js "viewer", [chat_login 6])] = false) as Hch.
  { apply H1.
    - by repeat constructor.
    - apply NoDup_singleton.
    - right. intros oc ->%list_elem_of_singleton. exists thread_login.
      vm_compute. repeat split. }
  split; [vm_compute; congruence|]. split; [done|by apply H2].
Defined.

(** C5, witness: an unchanged conversation with both summaries. *)
Lemma needsAnalysis_cleared_witness :
  let file := Some [thread_login] in
  let chatsByProject := [(js "viewer", [chat_login 5])] in
  let oc := (js "viewer", chat_login 5) in
  Thread.needsAnalysis (merged (readIndex file) oc) = None /\
  updateHistoryIndex file chatsByProject = file.
Proof.
  pose proof (needsAnalysis_cleared_iff_unchanged_and_summarised (Some [thread_login])
                [(js "viewer", [chat_login 5])] (js "viewer", chat_login 5)) as H.
  cbv zeta in *. destruct H as (_ & _ & H & _ & _ & _ & Hkeep).
  - apply list_elem_of_singleton. reflexivity.
  - by repeat constructor.
  - split.
    + apply H. exists thread_login. vm_compute. repeat split.
    + apply Hkeep. vm_compute. reflexivity.
Defined.

(** C4, witness: the paragraph summary of a conversation that has grown. *)
Lemma summaries_carried_forward_witness :
  let file := Some [thread_login] in
  let chatsByProject := [(js "viewer", [chat_login 6; chat_new])] in
  let oc := (js "viewer", chat_login 6) in
  Thread.paragraphSummary (merged (readIndex file) oc)
  = Some (js "This conversation focused on the login page.").
Proof.
  pose proof (summaries_carried_forward (Some [thread_login])
                [(js "viewer", [chat_login 6; chat_new])]
                (js "viewer", chat_login 6) thread_login) as H.
  cbv zeta in *. destruct H as (_ & _ & H & _).
  - left.
  - vm_compute. reflexivity.
  - apply H. vm_compute. reflexivity.
Defined.

(** The log of the second entry is gone and the first message of the
    conversation that is left is a text: the entry is removed. *)
Lemma stale_entry_removed_example :
  let file := Some [thread_login; thread_gone] in
  let chatsByProject := [(js "viewer", [chat_login 5])] in
  changed file chatsByProject = true /\
  map Thread.id (readIndex (updateHistoryIndex file chatsByProject)) = [js "a1"].
Proof.
  pose proof (stale_entry_removed (Some [thread_login; thread_gone])
                [(js "viewer", [chat_login 5])] thread_gone) as H.
  cbv zeta in *. destruct H as (_ & H1 & H2 & _).
  - by repeat constructor.
  - apply NoDup_singleton.
  - right. left.
  - vm_compute. intros [Heq|Hin]%elem_of_cons; [done|by apply elem_of_nil in Hin].
  - split; [done|]. rewrite H2. vm_compute. reflexivity.
Defined.

(** The home page hands the content of the first user record on as it
    is: of a log whose first user record holds an array, the first message
    is the array. *)
Example first_message_array :
  hc_firstMessage (chat_of_log ascii_toLowerCase parse_rough_log (fun _ => [])
                     viewer_dir (js "a1.jsonl") 2000 array_content_line)
  = JArr [JNum 1].
Proof. vm_compute. reflexivity. Qed.

(** C10, the code at the failing input. The log of the second entry is
    gone, and the first user record of the conversation that is left holds
    an array. [firstSentence.match] throws, the merge ends in its [catch]
    and writes nothing: the stale entry stays in the document, on this and
    on every later merge, while the same document with a text as first
    message loses it. *)
Theorem stale_entry_stays :
  let file := Some [thread_login; thread_gone] in
  let chatsByProject := [(js "viewer", [chat_array])] in
  let file1 := updateHistoryIndex file chatsByProject in
  (keyOf thread_gone ∉ map observedKey (observed chatsByProject)) /\
  threadInfo (lookupThread (readIndex file) (js "viewer", chat_array))
             (js "viewer") chat_array = Throw /\
  changed file chatsByProject = false /\
  file1 = file /\
  thread_gone ∈ readIndex file1 /\
  updateHistoryIndex file1 chatsByProject = file1 /\
  map Thread.id (readIndex (updateHistoryIndex file [(js "viewer", [chat_login 5])]))
  = [js "a1"].
Proof.
  cbv zeta. split_and!; try (vm_compute; reflexivity).
  - vm_compute. intros [Heq|Hin]%elem_of_cons; [done|by apply elem_of_nil in Hin].
  - right. left.
Qed.

(** ** Highlighter *)

Lemma not_syntax_char c :
  isSyntaxChar c = false -> char_eqb c backslash = false /\ char_eqb c 46 = false.
Proof.
  unfold isSyntaxChar. cbn [existsb]. rewrite !orb_false_iff. tauto.
Qed.

(** The escaped term compiles to the term itself, character by
    character: the server matches the literal text. *)
Lemma compile_escapeRegExp term : compile (escapeRegExp term) = Some (map Lit term).
Proof.
  induction term as [|c term IH]; [done|].
  unfold escapeRegExp in *. cbn [flat_map].
  destruct (isSyntaxChar c) eqn:Hc.
  - cbn [app compile]. unfold char_eqb at 1, backslash at 1. rewrite N.eqb_refl.
    rewrite Hc, IH. done.
  - destruct (not_syntax_char c Hc) as [Hb Hd].
    cbn [app compile]. rewrite Hb, Hd, Hc, IH. done.
Qed.

Section HighlightFacts.

Variable canonicalize : char -> char.


Lemma matches_here_take re s :
  matches_here canonicalize re s = true ->
  length (take (length re) s) = length re /\
  matches_here canonicalize re (take (length re) s) = true.
Proof.
  revert s. induction re as [|a re IH]; intros s; simpl; [by destruct s|].
  destruct s as [|c s]; [done|]. intros [Ha Hre]%andb_prop.
  destruct (IH s Hre) as [Hlen Hm]. simpl. by rewrite Hlen, Ha, Hm.
Qed.

Lemma matches_here_app re s more :
  matches_here canonicalize re s = true -> matches_here canonicalize re (s ++ more) = true.
Proof.
  revert s. induction re as [|a re IH]; intros s; [done|].
  destruct s as [|c s]; [done|]. simpl. intros [Ha Hre]%andb_prop.
  by rewrite Ha, IH.
Qed.

Lemma replace_matches_spec re :
  re <> [] ->
  forall s skip pending counter,
    (skip = 0 \/ pending = []) ->
    (forall pre post, pending = pre ++ post -> post <> [] ->
                      matches_here canonicalize re (post ++ s) = false) ->
    let '(segs, n) := replace_matches canonicalize re skip pending counter s in
    erase segs = pending ++ drop skip s /\
    Forall (segment_ok canonicalize re) segs /\
    counter <= n /\ mark_ids segs = seq (S counter) (n - counter).
Proof.
  intros Hre. induction s as [|c r IH]; intros skip pending counter Hskip Hinv.
  - simpl. rewrite drop_nil, Nat.sub_diag. simpl. rewrite ?app_nil_r. split_and!; try done.
    constructor; [|done]. intros pre post ->.
    destruct post as [|d post]; [by destruct re|].
    rewrite <- (app_nil_r (d :: post)). by apply (Hinv pre).
  - cbn [replace_matches]. destruct skip as [|k].
    + destruct (matches_here canonicalize re (c :: r)) eqn:Hm.
      * specialize (IH (pred (length re)) [] (S counter)).
        destruct (replace_matches canonicalize re (pred (length re)) [] (S counter) r)
          as [segs n] eqn:Hrec.
        destruct IH as (Herase & Hok & Hle & Hids); [by right|by intros [] [] ? ?|].
        destruct (matches_here_take _ _ Hm) as [Hlen Hm'].
        split_and!.
        -- unfold erase in *. cbn [flat_map]. rewrite Herase. simpl. f_equal.
           destruct re as [|a re']; [done|]. simpl. f_equal. apply take_drop.
        -- constructor; [|constructor; [done|done]].
           intros pre post ->.
           destruct post as [|d post]; [by destruct re|].
           destruct (matches_here canonicalize re (d :: post)) eqn:Hpost; [|done].
           rewrite <- (Hinv pre (d :: post) eq_refl) by done.
           symmetry. by apply matches_here_app.
        -- lia.
        -- unfold mark_ids in *. cbn [flat_map app]. rewrite Hids.
           replace (n - counter) with (S (n - S counter)) by lia. done.
      * specialize (IH 0 (pending ++ [c]) counter).
        destruct (replace_matches canonicalize re 0 (pending ++ [c]) counter r) as [segs n] eqn:Hrec.
        destruct IH as (Herase & Hok & Hle & Hids); [by left| |].
        -- intros pre post Hsplit Hpost.
           destruct (decide (post = [c])) as [->|Hne]; [done|].
           destruct post as [|d post] using rev_ind; [done|]. clear IHpost.
           rewrite app_assoc in Hsplit. apply app_inj_tail in Hsplit as [-> ->].
           rewrite <- app_assoc. simpl. apply (Hinv pre); [done|].
           intros ->. done.
        -- split_and!; try done. rewrite Herase, <- app_assoc. done.
    + destruct Hskip as [?| ->]; [done|].
      specialize (IH k [] counter).
      destruct (replace_matches canonicalize re k [] counter r) as [segs n] eqn:Hrec.
      apply IH; [by right|by intros [] [] ? ?].
Qed.

End HighlightFacts.

Lemma mark_ids_app a b : mark_ids (a ++ b) = mark_ids a ++ mark_ids b.
Proof. unfold mark_ids. apply flat_map_app. Qed.

Lemma seq_glue c n n' :
  c <= n -> n <= n' ->
  seq (S c) (n - c) ++ seq (S n) (n' - n) = seq (S c) (n' - c).
Proof.
  intros H1 H2. replace (n' - c) with ((n - c) + (n' - n)) by lia.
  rewrite seq_app. do 2 f_equal. lia.
Qed.

Lemma js_inj : Inj (=) (=) js.
Proof.
  intros a b Hab. unfold js in Hab.
  assert (Hinj : Inj (=) (=) N_of_ascii).
  { intros x y Hxy.
    rewrite <- (ascii_N_embedding x), <- (ascii_N_embedding y). by rewrite Hxy. }
  apply (inj (fmap N_of_ascii)) in Hab.
  rewrite <- (string_of_list_ascii_of_string a), <- (string_of_list_ascii_of_string b).
  by rewrite Hab.
Qed.

Lemma decimal_inj : Inj (=) (=) decimal.
Proof. intros a b Hab. unfold decimal in Hab. by apply js_inj, (inj pretty) in Hab. Qed.

Section HighlightLines.

Variable canonicalize : char -> char.
Variable re : regex.
Hypothesis re_nonempty : re <> [].

Lemma highlight_line_spec counter line :
  let '(segs, n) := highlight_line canonicalize re counter line in
  line_ok canonicalize re line segs /\ counter <= n /\ mark_ids segs = seq (S counter) (n - counter).
Proof.
  unfold highlight_line, line_ok. destruct (isHeadingLine line) eqn:Hh.
  - rewrite Nat.sub_diag. by split_and!.
  - pose proof (replace_matches_spec canonicalize re re_nonempty line 0 [] counter) as H.
    destruct (replace_matches canonicalize re 0 [] counter line) as [segs n].
    destruct H as (He & Hok & Hle & Hids); [by left|by intros [] [] ? ?|].
    by split_and!.
Qed.

Lemma highlight_lines_spec lines :
  forall counter,
    let '(out, n) := highlight_lines canonicalize re counter lines in
    Forall2 (line_ok canonicalize re) lines out /\ counter <= n /\
    mark_ids (concat out) = seq (S counter) (n - counter).
Proof.
  induction lines as [|line rest IH]; intros counter; cbn [highlight_lines].
  - rewrite Nat.sub_diag. by split_and!.
  - pose proof (highlight_line_spec counter line) as Hline.
    destruct (highlight_line canonicalize re counter line) as [segs n].
    destruct Hline as (Hok & Hle & Hids).
    specialize (IH n).
    destruct (highlight_lines canonicalize re n rest) as [out n'].
    destruct IH as (Hall & Hle' & Hids').
    split_and!; [by constructor|lia|].
    cbn [concat]. rewrite mark_ids_app, Hids, Hids'. by apply seq_glue.
Qed.

Lemma highlighted_field_nonempty msg text :
  highlighted_field msg = Some text -> nonempty text = true.
Proof.
  unfold highlighted_field, html_truthy.
  destruct (vm_htmlContent msg) as [[|c h]|].
  - destruct (nonempty (vm_content msg)) eqn:Hc; [by intros [= <-]|done].
  - by intros [= <-].
  - destruct (nonempty (vm_content msg)) eqn:Hc; [by intros [= <-]|done].
Qed.

Lemma segments_from_spec searchTerm msgs :
  nonempty searchTerm = true ->
  compile (escapeRegExp searchTerm) = Some re ->
  forall counter,
    exists n,
      highlight_from canonicalize searchTerm counter msgs
      = Some (zip_with apply_segments msgs (segments_from canonicalize re counter msgs), n) /\
      counter <= n /\
      mark_ids (flat_map message_ids (segments_from canonicalize re counter msgs))
      = seq (S counter) (n - counter).
Proof.
  intros Hterm Hre. induction msgs as [|msg rest IH]; intros counter.
  - exists counter. rewrite Nat.sub_diag. by split_and!.
  - cbn [highlight_from segments_from]. unfold highlight_message.
    destruct (highlighted_field msg) as [text|] eqn:Hfield.
    + unfold highlightSearchTerm, highlight_text.
      rewrite Hterm, (highlighted_field_nonempty _ _ Hfield), Hre. cbn.
      pose proof (highlight_lines_spec (split_lines text) counter) as Hlines.
      destruct (highlight_lines canonicalize re counter (split_lines text)) as [lines n].
      destruct Hlines as (_ & Hle & Hids). cbn.
      destruct (IH n) as (n' & -> & Hle' & Hids'). cbn.
      exists n'. split_and!; [done|lia|].
      rewrite mark_ids_app, Hids, Hids'. by apply seq_glue.
    + cbn. destruct (IH counter) as (n' & -> & Hle' & Hids'). cbn.
      exists n'. by split_and!.
Qed.

End HighlightLines.

Lemma seq_NoDup_sorted a n : NoDup (seq a n) /\ StronglySorted lt (seq a n).
Proof. split; [apply NoDup_seq|apply seq_strictly_sorted]. Qed.

(** C7. In a conversation rendered with a search term, the anchors
    [search_1], [search_2], ... are numbered by one counter that runs
    through all messages: in document order their numbers are 1, 2, ...,
    [searchCount], so they are pairwise distinct and increasing, and so are
    the ids rendered from them. *)
Theorem highlight_ids_unique_and_increasing
    (canonicalize : char -> char) (c : char) (t : jsstring) (msgs : list ViewMessage) :
  let searchTerm := c :: t in
  let re := map Lit searchTerm in
  let ids := mark_ids (document_segments canonicalize re msgs) in
  exists searchCount,
    highlight_messages canonicalize (Some searchTerm) msgs
    = Some (zip_with apply_segments msgs (segments_from canonicalize re 0 msgs),
            searchCount) /\
    ids = seq 1 searchCount /\
    NoDup ids /\
    StronglySorted lt ids /\
    NoDup (map (fun n => js "search_" ++ decimal n) ids).
Proof.
  intros searchTerm re ids.
  destruct (segments_from_spec canonicalize re) with (searchTerm := searchTerm)
    (msgs := msgs) (counter := 0) as (n & Hrun & _ & Hids); [done|done| |].
  { apply compile_escapeRegExp. }
  exists n. rewrite Nat.sub_0_r in Hids.
  assert (Hseq : ids = seq 1 n) by exact Hids.
  split; [exact Hrun|]. split; [done|]. rewrite Hseq.
  split; [apply NoDup_seq|]. split; [apply seq_strictly_sorted|].
  apply NoDup_fmap_2; [|apply NoDup_seq].
  intros x y Hxy. by apply app_inv_head, decimal_inj in Hxy.
Qed.






(** A message with a file heading, searched for the file's name: the
    heading line is untouched, the two other occurrences become the anchors
    1 and 2. *)
Example highlight_heading_example :
  let text := js "### notes.md" ++ newline ++ js "see Notes.md and notes" in
  highlight_text ascii_canonicalize text (js "notes") 0
  = Some ([[Plain (js "### notes.md")];
           [Plain (js "see "); Mark 1 (js "Notes"); Plain (js ".md and ");
            Mark 2 (js "notes"); Plain []]], 2).
Proof. vm_compute. reflexivity. Qed.

(** C8, the code at the failing input. The conversation holds one
    assistant message that writes [notes.md] and is viewed with the search
    term [notes]. The normalised message has the file heading
    [### notes.md] in its [content]; its [htmlContent] is HTML, where the
    heading is an [h3] element. Lines 691-692 highlight the [htmlContent],
    so the test of line 675 never sees a line that starts with [### ]: the
    file name inside the heading is wrapped in the anchor [search_1]. *)
Theorem heading_in_html_is_highlighted :
  let msgs := view_lines ascii_toLowerCase parse_write_log (fun _ => []) (fun _ => [])
                headings_marked [write_line] in
  map (fun m => split_lines (vm_content m)) msgs
  = [[js "**Tool Call: Write**"; []; js "### notes.md"; []; js "---"; []; js "# Hi"; [];
      js "---"]] /\
  map vm_htmlContent msgs
  = [Some (join newline [js "<p>**Tool Call: Write**</p>"; js "<h3>notes.md</h3>";
                         js "<hr>"; js "<h1>Hi</h1>"; js "<hr>"])] /\
  (fun r => (map vm_htmlContent r.1, r.2)) <$>
  highlight_messages ascii_canonicalize (Some (js "notes")) msgs
  = Some ([Some (join newline
                   [js "<p>**Tool Call: Write**</p>";
                    js "<h3>" ++ render_segment (Mark 1 (js "notes")) ++ js ".md</h3>";
                    js "<hr>"; js "<h1>Hi</h1>"; js "<hr>"])],
          1).
Proof. vm_compute. repeat split. Qed.

(** The same heading in Markdown text, which is highlighted only when a
    message has no HTML rendering: there the heading line is skipped. *)
Example heading_in_markdown_is_skipped :
  let msg := mkViewMessage RUser (js "### notes.md" ++ newline ++ js "my Notes")
               None None None in
  (fun r => (map vm_content r.1, r.2)) <$>
  highlight_messages ascii_canonicalize (Some (js "notes")) [msg]
  = Some ([js "### notes.md" ++ newline ++ js "my " ++ render_segment (Mark 1 (js "Notes"))],
          1).
Proof. vm_compute. reflexivity. Qed.

(** ** Client-side find *)

Lemma StronglySorted_weaken {A} (R R' : A -> A -> Prop) l :
  (forall x y, R x y -> R' x y) -> StronglySorted R l -> StronglySorted R' l.
Proof.
  intros Himpl. induction 1 as [|x l Hl IH Hx]; constructor; [done|].
  eapply Forall_impl; [exact Hx|]. intros y. apply Himpl.
Qed.

Lemma matches_leb_total (a b : FindResult) :
  Nat.leb (matches b) (matches a) = true \/ Nat.leb (matches a) (matches b) = true.
Proof. rewrite !Nat.leb_le. lia. Qed.

Lemma matches_leb_trans (a b c : FindResult) :
  Nat.leb (matches b) (matches a) = true -> Nat.leb (matches c) (matches b) = true ->
  Nat.leb (matches c) (matches a) = true.
Proof. rewrite !Nat.leb_le. lia. Qed.

(** [sortByMatches] arranges the results by descending match count and
    keeps the encounter order among results with the same count. *)
Lemma sortByMatches_descending_stable (results : list FindResult) :
  sortByMatches results ≡ₚ results /\
  StronglySorted (fun a b => matches b <= matches a) (sortByMatches results) /\
  forall k, List.filter (fun r => Nat.eqb (matches r) k) (sortByMatches results)
            = List.filter (fun r => Nat.eqb (matches r) k) results.
Proof.
  unfold sortByMatches. split; [apply sort_by_perm|]. split.
  - eapply StronglySorted_weaken;
      [|apply sort_by_sorted; [apply matches_leb_total|apply matches_leb_trans]].
    intros a b Hab. by apply Nat.leb_le.
  - intros k.
    pose proof (sort_by_stable (fun a b => Nat.leb (matches b) (matches a))
                  matches_leb_trans (mkFindResult (Card.mk 0 [] 0) k) results) as Hst.
    assert (Hext : forall r, Nat.eqb (matches r) k
                   = tied (fun a b => Nat.leb (matches b) (matches a))
                          (mkFindResult (Card.mk 0 [] 0) k) r).
    { intros r. unfold tied. simpl.
      destruct (Nat.eqb_spec (matches r) k), (Nat.leb_spec (matches r) k),
        (Nat.leb_spec k (matches r)); simpl; try done; lia. }
    by rewrite !(List.filter_ext _ _ Hext).
Qed.

(** A term without the closing bracket is not changed by [escapeRegex]:
    its metacharacters reach [new RegExp] unescaped. *)
Lemma escapeRegex_unchanged term :
  93%N ∉ term -> escapeRegex 0 term = term.
Proof.
  induction term as [|c r IH]; [done|].
  intros [Hc Hr]%not_elem_of_cons. cbn [escapeRegex].
  destruct r as [|d [|e r']]; [done|by rewrite IH|].
  destruct (inClientClass c && char_eqb d backslash && char_eqb e 93) eqn:Hm;
    [|by rewrite IH].
  apply andb_prop in Hm as [_ He]. apply N.eqb_eq in He. subst e.
  exfalso. apply Hr. right. left.
Qed.

(** A term without syntax characters is matched literally. *)
Lemma countMatches_literal canonicalize text c t :
  Forall (fun x => isSyntaxChar x = false) (c :: t) ->
  countMatches canonicalize text (c :: t) = Some (literal_count canonicalize (c :: t) text).
Proof.
  intros Hplain. unfold countMatches, literal_count. cbn [nonempty].
  rewrite escapeRegex_unchanged.
  - assert (Hc : forall term, Forall (fun x => isSyntaxChar x = false) term ->
                              compile term = Some (map Lit term)).
    { induction term as [|x term IH]; [done|].
      intros [Hx Hterm]%Forall_cons. cbn [compile].
      destruct (not_syntax_char x Hx) as [-> ->]. rewrite Hx, IH by done. done. }
    by rewrite Hc.
  - intros Hin. rewrite Forall_forall in Hplain. by specialize (Hplain _ Hin).
Qed.

(** C6, the code at the failing input. For the query [a.c] the escape
    leaves the dot as it is, so the dot matches any character: the
    conversation that never mentions [a.c] gets three matches and is ranked
    first, although a literal count gives it none (and would leave it out
    of the results). *)
Theorem find_dot_matches_any_character :
  escapeRegex 0 (js "a.c") = js "a.c" /\
  escapeRegExp (js "a.c") = [97; 92; 46; 99]%N /\
  performFind ascii_toLowerCase ascii_canonicalize (js "a.c") 0
              [card_wildcard; card_literal]
  = Some [mkFindResult card_wildcard 3; mkFindResult card_literal 1] /\
  literal_count ascii_canonicalize (js "a.c") (Card.searchable card_wildcard) = 0 /\
  literal_count ascii_canonicalize (js "a.c") (Card.searchable card_literal) = 1.
Proof. vm_compute. repeat split. Qed.

(** ** Entry normaliser *)

Lemma omap_middle {A B} (f : A -> option B) before x after :
  omap f (before ++ x :: after) = omap f before ++ option_list (f x) ++ omap f after.
Proof.
  rewrite omap_app. f_equal. simpl. by destruct (f x).
Qed.

Lemma omap_length_le {A B} (f : A -> option B) l : length (omap f l) <= length l.
Proof.
  induction l as [|x l IH]; [done|]. cbn [omap list_omap].
  destruct (f x); cbn [length]; lia.
Qed.

Lemma is_str_user_assistant v : is_str v "user" = true -> is_str v "assistant" = false.
Proof.
  destruct v as [[| | |s| |]|]; try done. cbn [is_str].
  intros ->%jsstring_eqb_eq. done.
Qed.

Lemma is_str_user_tool_result v : is_str v "user" = true -> is_str v "tool_result" = false.
Proof.
  destruct v as [[| | |s| |]|]; try done. cbn [is_str].
  intros ->%jsstring_eqb_eq. done.
Qed.

Lemma is_str_assistant_tool_result v :
  is_str v "assistant" = true -> is_str v "tool_result" = false.
Proof.
  destruct v as [[| | |s| |]|]; try done. cbn [is_str].
  intros ->%jsstring_eqb_eq. done.
Qed.

Lemma get_not_null entry k : entry <> JNull -> get (Some entry) k = Ok (prop (Some entry) k).
Proof. by destruct entry. Qed.

Lemma json_null_or entry : entry = JNull \/ entry <> JNull.
Proof. destruct entry; [by left|by right..]. Qed.

Lemma is_record_not_null t entry : is_record t entry = true -> entry <> JNull.
Proof. by intros Hrec ->. Qed.

Section NormaliserFacts.

Variable toLowerCase : jsstring -> jsstring.
Variable JSON_stringify JSON_stringify2 : json -> jsstring.
Variable marked : jsstring -> result jsstring.

Let view_entry' := view_entry toLowerCase JSON_stringify JSON_stringify2 marked.
Let view_item' := view_item toLowerCase JSON_stringify2.
Let summary_entry' := summary_entry JSON_stringify.
Let summary_item' := summary_item JSON_stringify.

(** The three tests of the conversation view, by the shape. *)
Lemma view_entry_tests entry :
  entry <> JNull ->
  let message := prop (Some entry) "message" in
  let ty := prop (Some entry) "type" in
  truthy message && is_str ty "user" && is_str (prop message "role") "user"
  = is_record "user" entry /\
  truthy message && is_str ty "assistant" && is_str (prop message "role") "assistant"
  = is_record "assistant" entry.
Proof.
  intros _ message ty. unfold is_record, role_is. fold message ty.
  split; by destruct (truthy message), (is_str ty _), (is_str (prop message "role") _).
Qed.

Lemma is_record_exclusive entry :
  is_record "user" entry = true -> is_record "assistant" entry = false.
Proof.
  unfold is_record. intros [Hty _]%andb_prop.
  by rewrite (is_str_user_assistant _ Hty).
Qed.

Lemma view_entry_unfold entry :
  entry <> JNull ->
  let message := prop (Some entry) "message" in
  let timestamp := prop (Some entry) "timestamp" in
  view_entry' entry
  = match view_shape entry with
    | Some RUser =>
        match prop message "content" with
        | Some c =>
            if truthy (Some c) then
              match c with
              | JStr s => h ← marked s; Ok (Some (mkViewMessage RUser s (Some h) timestamp None))
              | _ => Throw
              end
            else Ok (Some (mkViewMessage RUser [] None timestamp None))
        | None => Ok (Some (mkViewMessage RUser [] None timestamp None))
        end
    | Some RAssistant =>
        textContent ←
          match prop message "content" with
          | Some (JArr items) => concat_items view_item' items []
          | Some (JStr s) => Ok s
          | _ => Ok []
          end;
        htmlContent ←
          (if nonempty textContent
           then h ← marked (trim textContent); Ok (Some h)
           else Ok None);
        Ok (Some (mkViewMessage RAssistant (trim textContent) htmlContent timestamp
                    (prop message "model")))
    | Some RToolResult =>
        let content := text_or_json JSON_stringify (prop (Some entry) "content") in
        htmlContent ←
          (if nonempty content
           then h ← marked (fence ++ newline ++ content ++ newline ++ fence); Ok (Some h)
           else Ok None);
        Ok (Some (mkViewMessage RToolResult content htmlContent timestamp None))
    | None => Ok None
    end.
Proof.
  intros Hnull message timestamp.
  destruct (view_entry_tests entry Hnull) as [Huser Hassistant].
  subst message timestamp. unfold view_entry', view_entry, view_shape.
  rewrite get_not_null by done. cbn [mbind result_bind].
  rewrite Huser, Hassistant.
  destruct (is_record "user" entry); [done|].
  destruct (is_record "assistant" entry); [done|].
  by destruct (is_str (prop (Some entry) "type") "tool_result"
               && truthy (prop (Some entry) "content")).
Qed.

Lemma summary_entry_unfold entry :
  entry <> JNull ->
  let message := prop (Some entry) "message" in
  summary_entry' entry
  = if is_record "user" entry then
      Ok (Some (TUser, match prop message "content" with
                       | Some c => if truthy (Some c) then c else JStr []
                       | None => JStr []
                       end))
    else if is_record "assistant" entry then
      textContent ←
        match prop message "content" with
        | Some (JArr items) => concat_items summary_item' items []
        | Some (JStr s) => Ok s
        | _ => Ok []
        end;
      Ok (assistant_event textContent)
    else if is_str (prop (Some entry) "type") "tool_result"
            || is_str (prop (Some entry) "type") "system" then
      Ok (assistant_event
            (if truthy (prop (Some entry) "content")
             then text_or_json JSON_stringify (prop (Some entry) "content")
             else if truthy message && truthy (prop message "content")
             then text_or_json JSON_stringify (prop message "content")
             else []))
    else Ok None.
Proof.
  intros Hnull message.
  subst message. unfold summary_entry', summary_entry, is_record.
  by rewrite get_not_null.
Qed.

Lemma assistant_event_cases t :
  assistant_event t = None \/
  exists s, assistant_event t = Some (TAssistant, JStr s) /\ s <> [] /\ trim s = s.
Proof.
  unfold assistant_event. destruct (nonempty (trim t)) eqn:Hne; [right|by left].
  exists (trim t). split; [done|]. split; [|apply trim_idemp].
  intros Heq. by rewrite Heq in Hne.
Qed.

Lemma concat_view_text_items items texts acc :
  Forall2 text_item items texts ->
  concat_items view_item' items acc = Ok (acc ++ flat_map (fun t => t ++ newline) texts).
Proof.
  intros Hall. revert acc.
  induction Hall as [|item t items texts [Hty Htext] _ IH]; intros acc;
    cbn [concat_items flat_map].
  - by rewrite app_nil_r.
  - assert (Hitem : view_item' item = Ok (t ++ newline)).
    { unfold view_item', view_item.
      rewrite get_not_null by (intros ->; done).
      cbn [mbind result_bind]. by rewrite Hty, Htext. }
    rewrite Hitem. cbn [mbind result_bind]. by rewrite IH, <- app_assoc.
Qed.

Lemma concat_summary_text_items items texts acc :
  Forall2 text_item items texts ->
  concat_items summary_item' items acc = Ok (acc ++ flat_map (fun t => t ++ js " ") texts).
Proof.
  intros Hall. revert acc.
  induction Hall as [|item t items texts [Hty Htext] _ IH]; intros acc;
    cbn [concat_items flat_map].
  - by rewrite app_nil_r.
  - assert (Hitem : summary_item' item = Ok (t ++ js " ")).
    { unfold summary_item', summary_item.
      rewrite get_not_null by (intros ->; done).
      cbn [mbind result_bind]. by rewrite Hty, Htext. }
    rewrite Hitem. cbn [mbind result_bind]. by rewrite IH, <- app_assoc.
Qed.

(** A record of no known shape gives no message; a message comes from a
    record of a known shape and has the role of the shape; a record of a
    known shape gives exactly one message unless its treatment throws. *)
Lemma view_entry_shape entry :
  (entry <> JNull -> view_shape entry = None -> view_entry' entry = Ok None) /\
  (forall m, view_entry' entry = Ok (Some m) -> view_shape entry = Some (vm_role m)) /\
  (forall r, view_shape entry = Some r ->
     view_entry' entry = Throw \/
     exists m, view_entry' entry = Ok (Some m) /\ vm_role m = r).
Proof.
  destruct (json_null_or entry) as [->|Hnull]; [by split_and!|].
  rewrite (view_entry_unfold entry Hnull).
  destruct (view_shape entry) as [[| |]|].
  - assert (forall o : result (option ViewMessage),
              o = match prop (prop (Some entry) "message") "content" with
                  | Some c =>
                      if truthy (Some c) then
                        match c with
                        | JStr s =>
                            h ← marked s;
                            Ok (Some (mkViewMessage RUser s (Some h)
                                        (prop (Some entry) "timestamp") None))
                        | _ => Throw
                        end
                      else Ok (Some (mkViewMessage RUser [] None
                                       (prop (Some entry) "timestamp") None))
                  | None => Ok (Some (mkViewMessage RUser [] None
                                        (prop (Some entry) "timestamp") None))
                  end ->
              o = Throw \/ exists m, o = Ok (Some m) /\ vm_role m = RUser) as Hcases.
    { intros o ->. destruct (prop _ "content") as [c|]; [|right; eauto].
      destruct (truthy (Some c)); [|right; eauto].
      destruct c as [| | |s| |]; try (by left).
      destruct (marked s) as [h|]; [right; eauto|by left]. }
    split_and!; [done| |intros r [= <-]; by apply Hcases].
    intros m Hm. destruct (Hcases _ eq_refl) as [Ht|(m' & Hm' & Hrole)]; [congruence|].
    rewrite Hm' in Hm. injection Hm as <-. by rewrite Hrole.
  - assert (forall o : result (option ViewMessage),
              o = (textContent ←
                     match prop (prop (Some entry) "message") "content" with
                     | Some (JArr items) => concat_items view_item' items []
                     | Some (JStr s) => Ok s
                     | _ => Ok []
                     end;
                   htmlContent ←
                     (if nonempty textContent
                      then h ← marked (trim textContent); Ok (Some h)
                      else Ok None);
                   Ok (Some (mkViewMessage RAssistant (trim textContent) htmlContent
                               (prop (Some entry) "timestamp")
                               (prop (prop (Some entry) "message") "model")))) ->
              o = Throw \/ exists m, o = Ok (Some m) /\ vm_role m = RAssistant) as Hcases.
    { intros o ->.
      match goal with |- context [mbind _ ?r] => destruct r as [t|] end; [|by left].
      cbn [mbind result_bind]. destruct (nonempty t); [|right; eauto].
      destruct (marked (trim t)) as [h|]; [right; eauto|by left]. }
    split_and!; [done| |intros r [= <-]; by apply Hcases].
    intros m Hm. destruct (Hcases _ eq_refl) as [Ht|(m' & Hm' & Hrole)]; [congruence|].
    rewrite Hm' in Hm. injection Hm as <-. by rewrite Hrole.
  - cbv zeta.
    assert (forall o : result (option ViewMessage),
              o = (htmlContent ←
                     (if nonempty (text_or_json JSON_stringify (prop (Some entry) "content"))
                      then h ← marked (fence ++ newline ++
                                       text_or_json JSON_stringify (prop (Some entry) "content")
                                       ++ newline ++ fence);
                           Ok (Some h)
                      else Ok None);
                   Ok (Some (mkViewMessage RToolResult
                               (text_or_json JSON_stringify (prop (Some entry) "content"))
                               htmlContent (prop (Some entry) "timestamp") None))) ->
              o = Throw \/ exists m, o = Ok (Some m) /\ vm_role m = RToolResult) as Hcases.
    { intros o ->. destruct (nonempty _); [|right; eauto].
      destruct (marked _) as [h|]; [right; eauto|by left]. }
    split_and!; [done| |intros r [= <-]; by apply Hcases].
    intros m Hm. destruct (Hcases _ eq_refl) as [Ht|(m' & Hm' & Hrole)]; [congruence|].
    rewrite Hm' in Hm. injection Hm as <-. by rewrite Hrole.
  - by split_and!.
Qed.

(** The same for the reader of the home page, which never loses a user
    record: the text of an event for [assistantMessages] is not empty and
    trimmed. *)
Lemma summary_entry_shape entry :
  (entry <> JNull -> summary_shape entry = None -> summary_entry' entry = Ok None) /\
  (forall ev, summary_entry' entry = Ok (Some ev) ->
     summary_shape entry = Some ev.1 /\
     (ev.1 = TAssistant -> exists s, ev.2 = JStr s /\ s <> [] /\ trim s = s)) /\
  (summary_shape entry = Some TUser ->
     exists c, summary_entry' entry = Ok (Some (TUser, c)) /\
               (truthy (content_of entry) = true -> content_of entry = Some c) /\
               (truthy (content_of entry) = false -> c = JStr [])).
Proof.
  destruct (json_null_or entry) as [->|Hnull]; [by split_and!|].
  rewrite (summary_entry_unfold entry Hnull). unfold summary_shape, content_of.
  destruct (is_record "user" entry).
  { split_and!; [done| |].
    - intros ev [= <-]. split; [done|]. done.
    - intros _. eexists. split; [done|].
      destruct (prop _ "content") as [c|]; [|by split].
      destruct (truthy (Some c)) eqn:Hc; by split. }
  destruct (is_record "assistant" entry).
  { cbn [orb]. split_and!; [done| |done].
    intros ev Hev.
    match type of Hev with context [mbind _ ?r] => destruct r as [t|] end; [|done].
    cbn [mbind result_bind] in Hev. injection Hev as Hev.
    destruct (assistant_event_cases t) as [Hnone|(s & Hs & Hne & Htrim)]; [congruence|].
    rewrite Hs in Hev. injection Hev as <-. split; [done|]. intros _. eauto. }
  cbn [orb].
  destruct (is_str (prop (Some entry) "type") "tool_result"
            || is_str (prop (Some entry) "type") "system").
  { split_and!; [done| |done].
    intros ev [= Hev].
    match type of Hev with assistant_event ?t = _ =>
      destruct (assistant_event_cases t) as [Hnone|(s & Hs & Hne & Htrim)] end;
      [congruence|].
    rewrite Hs in Hev. injection Hev as <-. split; [done|]. intros _. eauto. }
  by split_and!.
Qed.

(** Records of the two main shapes whose content is a text, or an array
    of text items: the text is what the message holds. *)
Lemma user_text_record entry s :
  is_record "user" entry = true -> content_of entry = Some (JStr s) -> s <> [] ->
  view_entry' entry
  = (h ← marked s;
     Ok (Some (mkViewMessage RUser s (Some h) (prop (Some entry) "timestamp") None))) /\
  summary_entry' entry = Ok (Some (TUser, JStr s)).
Proof.
  intros Hrec Hcontent Hs. pose proof (is_record_not_null _ _ Hrec) as Hnull.
  rewrite view_entry_unfold, summary_entry_unfold by done.
  unfold view_shape, content_of in *. rewrite Hrec, Hcontent.
  by destruct s.
Qed.

Lemma assistant_text_record entry s :
  is_record "assistant" entry = true -> content_of entry = Some (JStr s) ->
  view_entry' entry
  = (htmlContent ← (if nonempty s then h ← marked (trim s); Ok (Some h) else Ok None);
     Ok (Some (mkViewMessage RAssistant (trim s) htmlContent (prop (Some entry) "timestamp")
                 (prop (prop (Some entry) "message") "model")))) /\
  summary_entry' entry = Ok (assistant_event s).
Proof.
  intros Hrec Hcontent. pose proof (is_record_not_null _ _ Hrec) as Hnull.
  rewrite view_entry_unfold, summary_entry_unfold by done.
  unfold view_shape, content_of in *. rewrite Hrec, Hcontent.
  destruct (is_record "user" entry) eqn:Huser; [|done].
  by rewrite (is_record_exclusive _ Huser) in Hrec.
Qed.

Lemma assistant_items_record entry items texts :
  is_record "assistant" entry = true -> content_of entry = Some (JArr items) ->
  Forall2 text_item items texts ->
  let shown := flat_map (fun t => t ++ newline) texts in
  view_entry' entry
  = (htmlContent ← (if nonempty shown then h ← marked (trim shown); Ok (Some h)
                    else Ok None);
     Ok (Some (mkViewMessage RAssistant (trim shown) htmlContent
                 (prop (Some entry) "timestamp")
                 (prop (prop (Some entry) "message") "model")))) /\
  summary_entry' entry = Ok (assistant_event (flat_map (fun t => t ++ js " ") texts)).
Proof.
  intros Hrec Hcontent Hitems shown. pose proof (is_record_not_null _ _ Hrec) as Hnull.
  rewrite view_entry_unfold, summary_entry_unfold by done.
  unfold view_shape, content_of in *. rewrite Hrec, Hcontent.
  destruct (is_record "user" entry) eqn:Huser.
  { by rewrite (is_record_exclusive _ Huser) in Hrec. }
  rewrite (concat_view_text_items _ _ _ Hitems), (concat_summary_text_items _ _ _ Hitems).
  done.
Qed.

End NormaliserFacts.

(** C3. Parsing is total and local to the line. In the conversation view
    and on the home page alike, a line contributes exactly one message or
    nothing, whatever the lines around it are; a line that does not parse
    as JSON, or whose treatment throws, or that has none of the known
    shapes contributes nothing, and the lines after it are still read. A
    message comes from a record of a known shape only and has the role of
    that shape; a record of a known shape gives exactly one message unless
    its treatment throws (or, on the home page, its text is empty); and
    the text of a user or assistant record is the content of its
    message. *)
Theorem normaliser_total
    (toLowerCase : jsstring -> jsstring)
    (JSON_parse : jsstring -> option json)
    (JSON_stringify JSON_stringify2 : json -> jsstring)
    (marked : jsstring -> result jsstring)
    (before after : list jsstring) (line : jsstring) :
  let view_line := view_line toLowerCase JSON_parse JSON_stringify JSON_stringify2 marked in
  let view := view_lines toLowerCase JSON_parse JSON_stringify JSON_stringify2 marked in
  let view_entry := view_entry toLowerCase JSON_stringify JSON_stringify2 marked in
  let summary_line := summary_line JSON_parse JSON_stringify in
  let summary_entry := summary_entry JSON_stringify in
  let events := line_events JSON_parse JSON_stringify in
  let extracted := extract_lines JSON_parse JSON_stringify in
  view (before ++ line :: after)
    = view before ++ option_list (view_line line) ++ view after /\
  events (before ++ line :: after)
    = events before ++ option_list (summary_line line) ++ events after /\
  ex_userMessages (extracted (before ++ line :: after))
    = contents_of TUser (events (before ++ line :: after)) /\
  ex_assistantMessages (extracted (before ++ line :: after))
    = contents_of TAssistant (events (before ++ line :: after)) /\
  length (view (before ++ line :: after)) <= length (before ++ line :: after) /\
  length (events (before ++ line :: after)) <= length (before ++ line :: after) /\
  (JSON_parse line = None -> view_line line = None /\ summary_line line = None) /\
  (forall entry, JSON_parse line = Some entry ->
     (view_entry entry = Throw \/ view_entry entry = Ok None -> view_line line = None) /\
     (forall m, view_entry entry = Ok (Some m) -> view_line line = Some m) /\
     (summary_entry entry = Throw \/
      summary_entry entry = Ok None -> summary_line line = None) /\
     (forall ev, summary_entry entry = Ok (Some ev) ->
                 summary_line line = Some ev)) /\
  (forall entry,
     (entry <> JNull -> view_shape entry = None -> view_entry entry = Ok None) /\
     (forall m, view_entry entry = Ok (Some m) -> view_shape entry = Some (vm_role m)) /\
     (forall r, view_shape entry = Some r ->
        view_entry entry = Throw \/
        exists m, view_entry entry = Ok (Some m) /\ vm_role m = r) /\
     (entry <> JNull -> summary_shape entry = None -> summary_entry entry = Ok None) /\
     (forall ev, summary_entry entry = Ok (Some ev) ->
        summary_shape entry = Some ev.1 /\
        (ev.1 = TAssistant -> exists s, ev.2 = JStr s /\ s <> [] /\ trim s = s)) /\
     (summary_shape entry = Some TUser ->
        exists c, summary_entry entry = Ok (Some (TUser, c)) /\
                  (truthy (content_of entry) = true -> content_of entry = Some c) /\
                  (truthy (content_of entry) = false -> c = JStr []))) /\
  (forall entry s,
     is_record "user" entry = true -> content_of entry = Some (JStr s) -> s <> [] ->
     view_entry entry
     = (h ← marked s;
        Ok (Some (mkViewMessage RUser s (Some h) (prop (Some entry) "timestamp") None))) /\
     summary_entry entry = Ok (Some (TUser, JStr s))) /\
  (forall entry s,
     is_record "assistant" entry = true -> content_of entry = Some (JStr s) ->
     view_entry entry
     = (htmlContent ← (if nonempty s then h ← marked (trim s); Ok (Some h) else Ok None);
        Ok (Some (mkViewMessage RAssistant (trim s) htmlContent
                    (prop (Some entry) "timestamp")
                    (prop (prop (Some entry) "message") "model")))) /\
     summary_entry entry = Ok (assistant_event s)) /\
  (forall entry items texts,
     is_record "assistant" entry = true -> content_of entry = Some (JArr items) ->
     Forall2 text_item items texts ->
     let shown := flat_map (fun t => t ++ newline) texts in
     view_entry entry
     = (htmlContent ← (if nonempty shown then h ← marked (trim shown); Ok (Some h)
                       else Ok None);
        Ok (Some (mkViewMessage RAssistant (trim shown) htmlContent
                    (prop (Some entry) "timestamp")
                    (prop (prop (Some entry) "message") "model")))) /\
     summary_entry entry = Ok (assistant_event (flat_map (fun t => t ++ js " ") texts))).
Proof.
  intros view_line0 view view_entry0 summary_line0 summary_entry0 events extracted.
  split_and!.
  - apply omap_middle.
  - apply omap_middle.
  - apply extract_lines_events.
  - apply extract_lines_events.
  - apply omap_length_le.
  - apply omap_length_le.
  - intros Hparse. unfold view_line0, summary_line0, view_line, summary_line.
    by rewrite Hparse.
  - intros entry Hparse.
    unfold view_line0, summary_line0, view_entry0, summary_entry0, view_line, summary_line.
    rewrite Hparse. split_and!.
    + by intros [-> | ->].
    + by intros m ->.
    + by intros [-> | ->].
    + by intros ev ->.
  - intros entry.
    destruct (view_entry_shape toLowerCase JSON_stringify JSON_stringify2 marked entry)
      as (Hv1 & Hv2 & Hv3).
    destruct (summary_entry_shape JSON_stringify entry) as (Hs1 & Hs2 & Hs3).
    by split_and!.
  - intros entry s. apply user_text_record.
  - intros entry s. apply assistant_text_record.
  - intros entry items texts. apply assistant_items_record.
Qed.

Example rough_log_view :
  map (fun m => (vm_role m, vm_content m))
      (view_lines ascii_toLowerCase parse_rough_log (fun _ => []) (fun _ => [])
         paragraph_marked rough_log_lines)
  = [(RUser, js "hi"); (RAssistant, js "done")].
Proof. vm_compute. reflexivity. Qed.

Example rough_log_events :
  line_events parse_rough_log (fun _ => js "[1]") rough_log_lines
  = [(TUser, JStr (js "hi")); (TUser, JArr [JNum 1]); (TAssistant, JStr (js "done"))].
Proof. vm_compute. reflexivity. Qed.

(** C3, witness: the line that is not JSON contributes nothing and the
    lines after it are read. *)
Lemma normaliser_total_witness :
  let view_line :=
    view_line ascii_toLowerCase parse_rough_log (fun _ => []) (fun _ => []) paragraph_marked in
  let view :=
    view_lines ascii_toLowerCase parse_rough_log (fun _ => []) (fun _ => []) paragraph_marked in
  view rough_log_lines
  = view [message_line "user" "hi"] ++
    view [js "null"; array_content_line; message_line "assistant" "done"] /\
  view_line (js "not json") = None.
Proof.
  pose proof (normaliser_total ascii_toLowerCase parse_rough_log (fun _ => []) (fun _ => [])
                paragraph_marked [message_line "user" "hi"]
                [js "null"; array_content_line; message_line "assistant" "done"]
                (js "not json")) as H.
  cbv zeta in *. destruct H as (Hview & _ & _ & _ & _ & _ & Hnone & _).
  destruct Hnone as [Hnone _]; [vm_compute; reflexivity|].
  split; [|exact Hnone].
  rewrite Hnone in Hview. exact Hview.
Defined.

(** ** Project names *)

Lemma char_eqb_eq a b : char_eqb a b = true <-> a = b.
Proof. apply N.eqb_eq. Qed.

Lemma char_eqb_neq a b : char_eqb a b = false <-> a <> b.
Proof. apply N.eqb_neq. Qed.

Lemma split_on_nonempty sep s : split_on sep s <> [].
Proof.
  destruct s as [|c r]; [done|]. simpl.
  destruct (char_eqb c sep); [done|]. by destruct (split_on sep r).
Qed.

(** The pieces of a text without the separator: the text itself. *)
Lemma split_on_plain sep s : sep ∉ s -> split_on sep s = [s].
Proof.
  induction s as [|c r IH]; [done|].
  intros [Hc Hr]%not_elem_of_cons. simpl.
  destruct (char_eqb c sep) eqn:Hcs; [apply char_eqb_eq in Hcs; congruence|].
  by rewrite IH.
Qed.

Lemma last_cons_nonempty {A} (x : A) l d : l <> [] -> List.last (x :: l) d = List.last l d.
Proof. by destruct l. Qed.

Lemma split_on_last_app sep pre seg :
  List.last (split_on sep (pre ++ sep :: seg)) [] = List.last (split_on sep seg) [].
Proof.
  induction pre as [|c pre IH]; simpl.
  - unfold char_eqb. rewrite N.eqb_refl.
    apply last_cons_nonempty, split_on_nonempty.
  - destruct (char_eqb c sep).
    + rewrite last_cons_nonempty by apply split_on_nonempty. apply IH.
    + pose proof (split_on_nonempty sep (pre ++ sep :: seg)) as Hne.
      destruct (split_on sep (pre ++ sep :: seg)) as [|l ls] eqn:Hs; [done|].
      rewrite <- IH. destruct ls as [|l' ls].
      * exfalso.
        assert (Hlen : 2 <= length (split_on sep (pre ++ sep :: seg))).
        { clear. induction pre as [|c pre IH]; simpl.
          - unfold char_eqb. rewrite N.eqb_refl. simpl.
            pose proof (split_on_nonempty sep seg). destruct (split_on sep seg); [done|simpl; lia].
          - destruct (char_eqb c sep); [simpl; lia|].
            destruct (split_on sep (pre ++ sep :: seg)); simpl in *; lia. }
        rewrite Hs in Hlen. simpl in Hlen. lia.
      * done.
Qed.

Lemma replace_char_app x y a b :
  replace_char x y (a ++ b) = replace_char x y a ++ replace_char x y b.
Proof. apply map_app. Qed.

Lemma replace_char_plain x y s : x ∉ s -> replace_char x y s = s.
Proof.
  induction s as [|c r IH]; [done|].
  intros [Hc Hr]%not_elem_of_cons. simpl.
  destruct (char_eqb c x) eqn:Hcx; [apply char_eqb_eq in Hcx; congruence|].
  by rewrite IH.
Qed.

Lemma isPathSep_false c : isPathSep c = false <-> c <> 45%N /\ c <> 47%N.
Proof. unfold isPathSep. by rewrite orb_false_iff, !char_eqb_neq. Qed.

Lemma Forall_not_sep seg :
  Forall (fun c => isPathSep c = false) seg <-> (45%N ∉ seg) /\ (47%N ∉ seg).
Proof.
  rewrite Forall_forall. split.
  - intros H. split; intros Hin; apply H in Hin; by apply isPathSep_false in Hin as [? ?].
  - intros [H1 H2] c Hc. apply isPathSep_false. split; intros ->; done.
Qed.

(** The last piece of the decoded path holds no separator. *)
Lemma split_on_last_plain sep s : sep ∉ List.last (split_on sep s) [].
Proof.
  induction s as [|c r IH]; [simpl; apply not_elem_of_nil|].
  simpl. destruct (char_eqb c sep) eqn:Hc.
  - by rewrite last_cons_nonempty by apply split_on_nonempty.
  - pose proof (split_on_nonempty sep r) as Hne.
    destruct (split_on sep r) as [|l ls]; [done|].
    destruct ls as [|l' ls]; [|done].
    simpl in *. apply not_elem_of_cons. split; [|done].
    intros <-. unfold char_eqb in Hc. by rewrite N.eqb_refl in Hc.
Qed.

Lemma replace_char_no_dash s : 45%N ∉ replace_char 45 47 s.
Proof.
  unfold replace_char. intros (c & Heq & _)%list_elem_of_fmap.
  destruct (char_eqb c 45) eqn:Hc; [done|]. apply char_eqb_neq in Hc. done.
Qed.

(** A piece of the decoded path holds no dash either. *)
Lemma split_on_last_sub sep s (c : char) :
  c ∈ List.last (split_on sep s) [] -> c ∈ s.
Proof.
  induction s as [|d r IH]; [done|].
  simpl. destruct (char_eqb d sep).
  - rewrite last_cons_nonempty by apply split_on_nonempty. intros ?. right. auto.
  - pose proof (split_on_nonempty sep r) as Hne.
    destruct (split_on sep r) as [|l ls]; [done|].
    destruct ls as [|l' ls].
    + simpl in *. intros [->|?]%elem_of_cons; [left|right; auto].
    + intros ?. right. auto.
Qed.

Lemma extractProjectName_segment pre seg :
  Forall (fun c => isPathSep c = false) seg ->
  (pre = [] \/ exists p c, pre = p ++ [c] /\ isPathSep c = true) ->
  List.last (split_on 47 (replace_char 45 47 (pre ++ seg))) [] = seg.
Proof.
  intros [Hdash Hslash]%Forall_not_sep Hpre.
  rewrite replace_char_app, (replace_char_plain _ _ seg Hdash).
  destruct Hpre as [->|(p & c & -> & Hc)].
  - simpl. by rewrite split_on_plain.
  - rewrite replace_char_app, <- app_assoc.
    change (replace_char 45 47 [c]) with [if char_eqb c 45 then 47%N else c].
    assert ((if char_eqb c 45 then 47%N else c) = 47%N) as ->.
    { unfold isPathSep in Hc. destruct (char_eqb c 45); [done|].
      simpl in Hc. by apply char_eqb_eq in Hc. }
    change ([47%N] ++ seg) with (47%N :: seg).
    rewrite split_on_last_app. by rewrite split_on_plain.
Qed.

Lemma unknownProject_plain : (45%N ∉ unknownProject) /\ (47%N ∉ unknownProject).
Proof. apply Forall_not_sep. vm_compute. repeat constructor. Qed.

Lemma extractProjectName_no_slash encodedPath : 47%N ∉ extractProjectName encodedPath.
Proof.
  unfold extractProjectName.
  destruct (List.last _ _) as [|c l] eqn:Hl; [apply unknownProject_plain|].
  rewrite <- Hl. apply split_on_last_plain.
Qed.

Lemma extractProjectName_of_segment encodedPath pre seg :
  drop 1 encodedPath = pre ++ seg ->
  Forall (fun c => isPathSep c = false) seg ->
  (pre = [] \/ exists p c, pre = p ++ [c] /\ isPathSep c = true) ->
  extractProjectName encodedPath = if nonempty seg then seg else unknownProject.
Proof.
  intros Hsplit Hseg Hpre. unfold extractProjectName.
  rewrite Hsplit, extractProjectName_segment by done. by destruct seg.
Qed.

(** X1. The project name is the text after the last dash or slash of the
    encoded path, whose first character is dropped unread; when that text
    is empty the name is [Unknown Project]. So the name is never empty and
    holds neither a dash nor a slash, and a directory whose own name has a
    dash in it is shown under the part after the dash. *)
Theorem extractProjectName_last_segment (encodedPath : jsstring) :
  let name := extractProjectName encodedPath in
  name <> [] /\ (45%N ∉ name) /\ (47%N ∉ name) /\
  forall pre seg,
    drop 1 encodedPath = pre ++ seg ->
    Forall (fun c => isPathSep c = false) seg ->
    (pre = [] \/ exists p c, pre = p ++ [c] /\ isPathSep c = true) ->
    name = if nonempty seg then seg else unknownProject.
Proof.
  intros name. split_and!.
  - unfold name, extractProjectName. by destruct (List.last _ _).
  - unfold name, extractProjectName.
    destruct (List.last _ _) as [|c l] eqn:Hl; [apply unknownProject_plain|].
    rewrite <- Hl. intros Hin%split_on_last_sub. by apply replace_char_no_dash in Hin.
  - apply extractProjectName_no_slash.
  - intros pre seg. apply extractProjectName_of_segment.
Qed.

(** ** Strings, continued *)

Example extractProjectName_example :
  extractProjectName (js "-home-u-my-app") = js "app" /\
  extractProjectName (js "-home-u-") = unknownProject /\
  extractProjectName [] = unknownProject.
Proof. vm_compute. repeat split. Qed.

Lemma includes_app pre p post : includes (pre ++ p ++ post) p = true.
Proof.
  induction pre as [|c pre IH].
  - assert (startsWith p (p ++ post) = true) as Hs by (apply startsWith_prefix; by exists post).
    simpl. destruct (p ++ post); simpl; by rewrite Hs.
  - change ((c :: pre) ++ p ++ post) with (c :: (pre ++ p ++ post)).
    cbn [includes]. rewrite IH. apply orb_true_r.
Qed.

Lemma includes_suffix pre p : includes (pre ++ p) p = true.
Proof. rewrite <- (app_nil_r p) at 1. apply includes_app. Qed.

(** ** Conversations read for the analysis *)

Lemma omap_cons_list {A B} (f : A -> option B) x l :
  omap f (x :: l) = option_list (f x) ++ omap f l.
Proof. cbn [omap list_omap]. by destruct (f x). Qed.

Lemma user_contents_app a b : user_contents (a ++ b) = user_contents a ++ user_contents b.
Proof. unfold user_contents. apply omap_app. Qed.

(** A line gives a user message to the analysis exactly when it gives one
    to the home page, with the same content. *)
Lemma conversation_line_user JSON_parse JSON_stringify line :
  user_contents (option_list (conversation_line JSON_parse line))
  = contents_of TUser (option_list (summary_line JSON_parse JSON_stringify line)).
Proof.
  unfold conversation_line, summary_line.
  destruct (JSON_parse line) as [entry|]; [|done].
  unfold conversation_entry, summary_entry.
  destruct (get (Some entry) "type") as [ty|]; [|done]. cbn [mbind result_bind].
  destruct (is_str ty "user" && role_is (prop (Some entry) "message") "user"); [done|].
  destruct (is_str ty "assistant" && role_is (prop (Some entry) "message") "assistant").
  - assert (Hsum : forall r : result jsstring,
              contents_of TUser
                (option_list match (textContent ← r; Ok (assistant_event textContent)) with
                             | Ok r0 => r0
                             | Throw => None
                             end) = []).
    { intros [t|]; [|done]. cbn. unfold assistant_event. by destruct (nonempty (trim t)). }
    rewrite Hsum.
    match goal with |- context [mbind _ ?r] => destruct r as [t|] end; [|done].
    cbn. by destruct (nonempty (trim t)).
  - destruct (is_str ty "tool_result" || is_str ty "system"); [|done].
    unfold assistant_event. by destruct (nonempty (trim _)).
Qed.

Lemma concat_items_no_text items acc :
  Forall not_text_item items -> concat_items conversation_item items acc = Ok acc.
Proof.
  intros Hall. revert acc. induction Hall as [|item items [Hnull Hty] _ IH]; intros acc; [done|].
  cbn [concat_items].
  assert (conversation_item item = Ok []) as ->.
  { unfold conversation_item.
    assert (get (Some item) "type" = Ok (prop (Some item) "type")) as -> by by destruct item.
    cbn [mbind result_bind]. by rewrite Hty. }
  cbn [mbind result_bind]. by rewrite app_nil_r.
Qed.

(** X3. The analysis reads the same user messages from a log as the home
    page does, in the same order and with the same contents; it returns at
    most one message per non-blank line (the home page counts the lines,
    the analysis the messages). *)
Theorem conversation_user_messages_agree
    (JSON_parse : jsstring -> option json) (JSON_stringify : json -> jsstring)
    (fileContent : jsstring) :
  let messages := getFullConversation JSON_parse fileContent in
  user_contents messages
  = ex_userMessages (extract_lines JSON_parse JSON_stringify (nonblank_lines fileContent)) /\
  length messages <= length (nonblank_lines fileContent).
Proof.
  intros messages. split; [|apply omap_length_le].
  destruct (extract_lines_events JSON_parse JSON_stringify (nonblank_lines fileContent))
    as [-> _].
  unfold messages, getFullConversation, line_events.
  induction (nonblank_lines fileContent) as [|line lines IH]; [done|].
  rewrite !omap_cons_list, user_contents_app, contents_of_app, IH.
  f_equal. apply conversation_line_user.
Qed.

(** X4. Every assistant message the analysis reads is a non-empty text
    without blanks at its ends; an assistant record whose content array
    holds no text item (only tool calls, say) gives no message at all. *)
Theorem conversation_assistant_messages
    (JSON_parse : jsstring -> option json) (fileContent : jsstring) :
  (forall m, m ∈ getFullConversation JSON_parse fileContent -> cv_role m = TAssistant ->
     exists t, cv_content m = JStr t /\ t <> [] /\ trim t = t) /\
  (forall line entry items,
     JSON_parse line = Some entry -> assistant_record entry items ->
     Forall not_text_item items ->
     conversation_line JSON_parse line = None).
Proof.
  split.
  - intros m Hm Hrole. unfold getFullConversation in Hm.
    apply list_elem_of_omap in Hm as (line & _ & Hline).
    unfold conversation_line in Hline.
    destruct (JSON_parse line) as [entry|]; [|done].
    unfold conversation_entry in Hline.
    destruct (get (Some entry) "type") as [ty|]; [|done]. cbn [mbind result_bind] in Hline.
    destruct (is_str ty "user" && role_is (prop (Some entry) "message") "user").
    { injection Hline as <-. done. }
    destruct (is_str ty "assistant" && role_is (prop (Some entry) "message") "assistant");
      [|done].
    match type of Hline with context [mbind _ ?r] => destruct r as [t|] end; [|done].
    cbn in Hline. destruct (nonempty (trim t)) eqn:Hne; [|done].
    injection Hline as <-. exists (trim t). split; [done|]. split; [|apply trim_idemp].
    intros Heq. by rewrite Heq in Hne.
  - intros line entry items Hparse (Hty & Hrole & Hcontent) Hitems.
    unfold conversation_line. rewrite Hparse. unfold conversation_entry.
    assert (get (Some entry) "type" = Ok (prop (Some entry) "type")) as ->
      by by destruct entry.
    cbn [mbind result_bind].
    assert (is_str (prop (Some entry) "type") "user" = false) as ->.
    { unfold is_str in *. destruct (prop (Some entry) "type") as [[]|]; try done.
      apply jsstring_eqb_eq in Hty. by subst. }
    rewrite Hty, Hrole, Hcontent. cbn [andb].
    rewrite concat_items_no_text by done. done.
Qed.

(** ** Tier-2 analysis *)

Lemma worked_bullets_fold files bullets :
  length bullets + length files <= 8 ->
  foldl (fun bulletSummary file =>
           if Nat.ltb (length bulletSummary) 8
           then bulletSummary ++ [js "Worked with " ++ file]
           else bulletSummary) bullets files
  = bullets ++ map (fun file => js "Worked with " ++ file) files.
Proof.
  revert bullets. induction files as [|file files IH]; intros bullets Hlen; simpl.
  - by rewrite app_nil_r.
  - simpl in Hlen. destruct (Nat.ltb_spec (length bullets) 8); [|lia].
    rewrite IH by (rewrite length_app; simpl; lia).
    by rewrite <- app_assoc.
Qed.

Lemma bulletSummary_closed_form accomplishments uniqueFiles count :
  bulletSummary_of accomplishments uniqueFiles count
  = map (fun acc => js "Implemented " ++ acc) (take 5 accomplishments) ++
    map (fun file => js "Worked with " ++ file) (take 3 uniqueFiles) ++
    (if Nat.leb 5 (length accomplishments) && Nat.leb 3 (length uniqueFiles)
     then [] else [decimal count ++ js " total messages exchanged"]).
Proof.
  set (implemented := map (fun acc => js "Implemented " ++ acc) (take 5 accomplishments)).
  set (worked := map (fun file => js "Worked with " ++ file) (take 3 uniqueFiles)).
  assert (Himpl : length implemented = length accomplishments `min` 5).
  { unfold implemented. rewrite length_map, length_take. apply Nat.min_comm. }
  assert (Hwork : length worked = length uniqueFiles `min` 3).
  { unfold worked. rewrite length_map, length_take. apply Nat.min_comm. }
  unfold bulletSummary_of. fold implemented.
  assert (Nat.ltb (length implemented) 8 = true) as -> by (apply Nat.ltb_lt; lia).
  cbn [andb].
  assert ((if Nat.ltb 0 (length uniqueFiles)
           then foldl (fun bulletSummary file =>
                         if Nat.ltb (length bulletSummary) 8
                         then bulletSummary ++ [js "Worked with " ++ file]
                         else bulletSummary) implemented (take 3 uniqueFiles)
           else implemented) = implemented ++ worked) as ->.
  { destruct uniqueFiles as [|f fs]; [by rewrite app_nil_r|].
    cbn [length Nat.ltb Nat.leb]. apply worked_bullets_fold.
    rewrite length_take. lia. }
  rewrite length_app, Himpl, Hwork.
  destruct (Nat.leb_spec 5 (length accomplishments)),
           (Nat.leb_spec 3 (length uniqueFiles)); cbn [andb];
    (destruct (Nat.ltb_spec (length accomplishments `min` 5 + length uniqueFiles `min` 3) 8);
     [|try lia]); try lia; by rewrite <- ?app_assoc, ?app_nil_r.
Qed.

Lemma bulletSummary_length accomplishments uniqueFiles count :
  1 <= length (bulletSummary_of accomplishments uniqueFiles count) <= 8.
Proof.
  rewrite bulletSummary_closed_form, !length_app.
  assert (length (map (fun acc => js "Implemented " ++ acc) (take 5 accomplishments))
          = length accomplishments `min` 5) as ->.
  { rewrite length_map, length_take. apply Nat.min_comm. }
  assert (length (map (fun file => js "Worked with " ++ file) (take 3 uniqueFiles))
          = length uniqueFiles `min` 3) as ->.
  { rewrite length_map, length_take. apply Nat.min_comm. }
  destruct (Nat.leb_spec 5 (length accomplishments)),
           (Nat.leb_spec 3 (length uniqueFiles)); cbn [andb length]; lia.
Qed.

(** X5. The bullet summary of an analysis lists up to five
    accomplishments, then up to three files, then the number of messages;
    the tests against the limit of eight never cut an accomplishment or a
    file, and drop the last bullet exactly when there are five
    accomplishments and three files. It has between one and eight
    bullets. *)
Theorem bulletSummary_shape (accomplishments uniqueFiles : list jsstring) (count : nat) :
  let bullets := bulletSummary_of accomplishments uniqueFiles count in
  let implemented := map (fun acc => js "Implemented " ++ acc) (take 5 accomplishments) in
  let worked := map (fun file => js "Worked with " ++ file) (take 3 uniqueFiles) in
  bullets = implemented ++ worked ++
            (if Nat.leb 5 (length accomplishments) && Nat.leb 3 (length uniqueFiles)
             then [] else [decimal count ++ js " total messages exchanged"]) /\
  1 <= length bullets <= 8.
Proof.
  intros bullets implemented worked. split.
  - apply bulletSummary_closed_form.
  - apply bulletSummary_length.
Qed.

Section AnalyzerFacts.

Variable toLowerCase : jsstring -> jsstring.
Variable canonicalize : char -> char.

Lemma oneLineSummary_nonempty accomplishments uniqueFiles count firstMessage s :
  oneLineSummary_of accomplishments uniqueFiles count firstMessage = Ok s -> s <> [].
Proof.
  unfold oneLineSummary_of.
  destruct accomplishments as [|acc0 more]; [destruct uniqueFiles as [|f fs]|].
  - destruct (truthy firstMessage); [destruct (substring_of firstMessage 50) as [t|]|];
      cbn; try done; intros [= <-]; by destruct (decimal count).
  - by intros [= <-].
  - by intros [= <-].
Qed.

Lemma paragraphSummary_nonempty accomplishments uniqueFiles count firstMessage s :
  paragraphSummary_of accomplishments uniqueFiles count firstMessage = Ok s -> s <> [].
Proof.
  unfold paragraphSummary_of.
  destruct accomplishments as [|acc0 more]; [destruct uniqueFiles as [|f fs]|].
  - destruct (truthy firstMessage); [destruct (substring_of firstMessage 100) as [t|]|];
      cbn; try done; by intros [= <-].
  - by intros [= <-].
  - by intros [= <-].
Qed.

Lemma analyzeChat_Ok messages firstMessage analysis :
  analyzeChat toLowerCase canonicalize messages firstMessage = Ok analysis ->
  an_oneLineSummary analysis <> [] /\ an_paragraphSummary analysis <> [] /\
  an_bulletSummary analysis
  = bulletSummary_of
      (analysis_accomplishments canonicalize (toLowerCase (conversationText messages)))
      (analysis_files (toLowerCase (conversationText messages))) (length messages).
Proof.
  unfold analyzeChat.
  destruct (oneLineSummary_of _ _ _ _) as [one|] eqn:Hone; [|done].
  destruct (paragraphSummary_of _ _ _ _) as [par|] eqn:Hpar; [|done].
  cbn. intros [= <-]. cbn.
  split; [by eapply oneLineSummary_nonempty|]. split; [by eapply paragraphSummary_nonempty|done].
Qed.

Lemma present_nonempty s : s <> [] -> present (Some s) = true.
Proof. by destruct s. Qed.

End AnalyzerFacts.

(** X6. What an analysis returns settles the entry it is stored in: both
    summaries are non-empty texts, so the entry is no longer picked by the
    analysis pass, and the next merge does not flag it as long as the log
    keeps its number of lines and its last timestamp. The bullet summary
    stored with it has between one and eight bullets. *)
Theorem analysis_settles_entry
    (toLowerCase : jsstring -> jsstring) (canonicalize : char -> char)
    (messages : list ConvMessage) (firstMessage : jsval) (analysis : Analysis)
    (thread : Thread.t) (now : jsstring) :
  analyzeChat toLowerCase canonicalize messages firstMessage = Ok analysis ->
  let thread' := analysed thread analysis now in
  an_oneLineSummary analysis <> [] /\
  an_paragraphSummary analysis <> [] /\
  1 <= length (an_bulletSummary analysis) <= 8 /\
  wantsAnalysis thread' = false /\
  (forall chat,
     Chat.messageCount chat = Thread.messageCount thread ->
     Chat.lastMessageTimestamp chat = Thread.lastMessageTimestamp thread ->
     needs_analysis (Some thread') chat = false).
Proof.
  intros Hok thread'.
  destruct (analyzeChat_Ok _ _ _ _ _ Hok) as (Hone & Hpar & Hbul).
  split; [done|]. split; [done|].
  split; [rewrite Hbul; apply bulletSummary_length|]. split.
  - unfold wantsAnalysis, thread', analysed.
    cbn [Thread.needsAnalysis Thread.oneLineSummary Thread.paragraphSummary].
    by rewrite !present_nonempty.
  - intros chat Hcount Hts. apply needs_analysis_false.
    exists thread'. unfold thread', analysed.
    cbn [Thread.messageCount Thread.lastMessageTimestamp Thread.oneLineSummary
         Thread.paragraphSummary].
    by rewrite !present_nonempty.
Qed.

(** X7. An analysis fails in one case only: the conversation names no
    accomplishment and no file, and the first message handed over is a
    value that is not a string and not falsy (the content array of a user
    message, say), on which [substring] does not exist. *)
Theorem analyzeChat_throws_iff
    (toLowerCase : jsstring -> jsstring) (canonicalize : char -> char)
    (messages : list ConvMessage) (firstMessage : jsval) :
  let fullText := toLowerCase (conversationText messages) in
  analyzeChat toLowerCase canonicalize messages firstMessage = Throw <->
  analysis_accomplishments canonicalize fullText = [] /\
  analysis_files fullText = [] /\
  truthy firstMessage = true /\
  (forall s, firstMessage <> Some (JStr s)).
Proof.
  intros fullText. unfold analyzeChat. fold fullText.
  unfold oneLineSummary_of, paragraphSummary_of.
  destruct (analysis_accomplishments canonicalize fullText) as [|acc0 more].
  - destruct (analysis_files fullText) as [|f fs].
    + destruct (truthy firstMessage) eqn:Htruthy.
      * destruct firstMessage as [[| | |s| |]|]; cbn; try done;
          try (split; [intros _; split_and!; try done|done]).
        split; [done|]. intros (_ & _ & _ & Hs). by destruct (Hs s).
      * cbn. split; [done|]. by intros (_ & _ & ? & _).
    + cbn. split; [done|]. by intros (_ & ? & _).
  - cbn. split; [done|]. by intros (? & _).
Qed.

(** ** The analysis pass *)

Lemma analysed_again t a0 n0 a n : analysed (analysed t a0 n0) a n = analysed t a n.
Proof. done. Qed.

Lemma analysed_same_conversation t a n : same_conversation t (analysed t a n).
Proof. by repeat split. Qed.

Lemma analysed_settled t a n :
  an_oneLineSummary a <> [] -> an_paragraphSummary a <> [] -> settled (analysed t a n).
Proof.
  intros Hone Hpar. unfold settled, wantsAnalysis, analysed.
  cbn [Thread.needsAnalysis Thread.oneLineSummary Thread.paragraphSummary
       Thread.bulletSummary Thread.lastAnalyzed].
  rewrite !present_nonempty by done. by split_and!.
Qed.

Lemma analysed_from_settled t t' :
  analysed_from t t' -> same_conversation t t' /\ settled t'.
Proof.
  intros (a & n & -> & Hone & Hpar).
  split; [apply analysed_same_conversation|by apply analysed_settled].
Qed.

(** The entries after an analysis is stored: the first one with the
    chat's id is replaced, the others stay. *)
Lemma storeAnalysis_Forall2 idx chatId a n :
  Forall2 (fun t t' => t' = t \/ (Thread.id t = chatId /\ t' = analysed t a n))
          idx (storeAnalysis idx chatId a n).
Proof.
  induction idx as [|t idx IH]; [constructor|]. simpl.
  destruct (jsstring_eqb (Thread.id t) chatId) eqn:Hid.
  - apply jsstring_eqb_eq in Hid. constructor; [by right|].
    apply Forall_Forall2_diag, Forall_forall. intros; by left.
  - constructor; [by left|done].
Qed.

Lemma storeAnalysis_NoDup idx chatId a n :
  NoDup (map Thread.id idx) ->
  Forall2 (fun t t' => (Thread.id t = chatId -> t' = analysed t a n) /\
                       (Thread.id t <> chatId -> t' = t))
          idx (storeAnalysis idx chatId a n).
Proof.
  induction idx as [|t idx IH]; [constructor|]. simpl.
  intros [Hnotin Hnd]%NoDup_cons.
  destruct (jsstring_eqb (Thread.id t) chatId) eqn:Hid.
  - apply jsstring_eqb_eq in Hid. constructor; [by split|].
    apply Forall_Forall2_diag, Forall_forall. intros t0 Ht0. split; [|done].
    intros Heq. exfalso. apply Hnotin. rewrite Hid, <- Heq.
    apply list_elem_of_fmap. eauto.
  - constructor; [|by apply IH].
    split; [|done]. intros Heq. apply jsstring_eqb_eq in Heq. congruence.
Qed.

Lemma Forall2_ids (R : Thread.t -> Thread.t -> Prop) idx idx' :
  (forall t t', R t t' -> Thread.id t' = Thread.id t) ->
  Forall2 R idx idx' -> map Thread.id idx' = map Thread.id idx.
Proof.
  intros HR. induction 1 as [|t t' idx idx' Ht _ IH]; [done|].
  simpl. by rewrite (HR _ _ Ht), IH.
Qed.

Lemma existsb_id idx (chat : Thread.t) :
  Thread.id chat ∈ map Thread.id idx ->
  existsb (fun t => jsstring_eqb (Thread.id t) (Thread.id chat)) idx = true.
Proof.
  intros (t & Heq & Hin)%list_elem_of_fmap.
  apply existsb_exists. exists t. split; [by apply list_elem_of_In|].
  by apply jsstring_eqb_eq.
Qed.

Lemma elem_of_List_filter {A} (p : A -> bool) l x :
  x ∈ List.filter p l <-> x ∈ l /\ p x = true.
Proof. rewrite !list_elem_of_In. apply List.filter_In. Qed.

Lemma Forall2_elem_of_l {A B} (R : A -> B -> Prop) l k :
  Forall2 R l k -> Forall2 (fun x y => x ∈ l /\ R x y) l k.
Proof.
  induction 1 as [|x y l k Hxy _ IH]; constructor.
  - split; [left|done].
  - eapply Forall2_impl; [exact IH|]. intros a b [Ha Hab]. split; [by right|done].
Qed.

Section RunAnalysisFacts.

Variable toLowerCase : jsstring -> jsstring.
Variable canonicalize : char -> char.
Variable JSON_parse : jsstring -> option json.
Variable projectDirs : list jsstring.
Variable readLog : jsstring -> jsstring -> option jsstring.

Let analysis := analysis_of toLowerCase canonicalize JSON_parse projectDirs readLog.
Let step := analyse_chat toLowerCase canonicalize JSON_parse projectDirs readLog.

Lemma analysis_nonempty chat a :
  analysis chat = Some a -> an_oneLineSummary a <> [] /\ an_paragraphSummary a <> [].
Proof.
  unfold analysis, analysis_of.
  destruct (find_projectDir _ _) as [[|d dir]|]; [done| |done].
  destruct (readLog _ _) as [fileContent|]; [|done].
  destruct (analyzeChat _ _ _ _) as [a'|] eqn:Hok; [|done].
  intros [= <-]. destruct (analyzeChat_Ok _ _ _ _ _ Hok) as (? & ? & _). done.
Qed.

(** The analysis of an entry depends on its project, id and first
    sentence only, which an analysis does not change. *)
Lemma analysis_analysed t a n : analysis (analysed t a n) = analysis t.
Proof. done. Qed.

Lemma pass_invariant_ids index treated st :
  pass_invariant analysis index treated st -> map Thread.id st.1 = map Thread.id index.
Proof.
  intros (H & _). eapply Forall2_ids; [|exact H].
  intros t t' [->|(a & n & -> & _)]; done.
Qed.

Lemma step_invariant now index treated st chat :
  chat ∈ index ->
  pass_invariant analysis index treated st ->
  pass_invariant analysis index (treated ++ [chat]) (step now st chat).
Proof.
  intros Hchat Hinv. pose proof (pass_invariant_ids _ _ _ Hinv) as Hids.
  destruct Hinv as (Hshape & Hcount & Hlist).
  destruct st as [idx results]. cbn [fst snd] in *.
  unfold pass_invariant, step, analyse_chat.
  fold analysis. rewrite List.filter_app. cbn [List.filter].
  destruct (analysis chat) as [a|] eqn:Ha.
  - rewrite existsb_id
      by (simpl in Hids; rewrite Hids; apply list_elem_of_fmap; eauto).
    destruct (analysis_nonempty _ _ Ha) as [Hone Hpar].
    pose proof (storeAnalysis_Forall2 idx (Thread.id chat) a
                  (now (numberOfChatsUpdated results))) as Hstore.
    rewrite bool_decide_eq_true_2 by done.
    split_and!; cbn [fst snd numberOfChatsUpdated chatsAnalyzed].
    + eapply Forall2_trans; [|exact Hshape|exact Hstore].
      intros t t1 t2 Ht1 [->|[_ ->]]; [done|].
      right. destruct Ht1 as [->|(a0 & n0 & -> & _)]; [by exists a, (now (numberOfChatsUpdated results))|].
      rewrite analysed_again. by exists a, (now (numberOfChatsUpdated results)).
    + rewrite length_app. simpl. lia.
    + rewrite !map_app, Hlist. done.
  - rewrite bool_decide_eq_false_2 by (by intros [? ?]).
    rewrite app_nil_r. by split_and!.
Qed.

Lemma foldl_invariant_pass now index treated rest st :
  rest ⊆ index ->
  pass_invariant analysis index treated st ->
  pass_invariant analysis index (treated ++ rest) (foldl (step now) st rest).
Proof.
  revert treated st. induction rest as [|chat rest IH]; intros treated st Hsub Hinv.
  - by rewrite app_nil_r.
  - simpl. rewrite (cons_middle chat treated rest), app_assoc.
    apply IH.
    + intros c Hc. apply Hsub. by right.
    + apply step_invariant; [apply Hsub; left|done].
Qed.

Lemma step_distinct now index treated st chat :
  NoDup (map Thread.id index) ->
  chat ∈ index ->
  distinct_invariant analysis index treated st.1 ->
  distinct_invariant analysis index (treated ++ [chat]) (step now st chat).1.
Proof.
  intros Hnd Hchat Hinv.
  assert (Hids : map Thread.id st.1 = map Thread.id index).
  { eapply Forall2_ids; [|exact Hinv].
    intros t t' [[-> _]|(_ & _ & a & n & -> & _)]; done. }
  destruct st as [idx results]. unfold step, analyse_chat. fold analysis.
  destruct (analysis chat) as [a|] eqn:Ha.
  - rewrite existsb_id
      by (simpl in Hids; rewrite Hids; apply list_elem_of_fmap; eauto).
    destruct (analysis_nonempty _ _ Ha) as [Hone Hpar].
    simpl in Hids. rewrite <- Hids in Hnd.
    pose proof (storeAnalysis_NoDup idx (Thread.id chat) a
                  (now (numberOfChatsUpdated results)) Hnd) as Hstore.
    cbn [fst]. unfold distinct_invariant in *. simpl in Hinv.
    apply Forall2_elem_of_l in Hinv.
    eapply Forall2_trans; [|exact Hinv|exact Hstore].
    intros t t1 t2 [Ht Ht1] [Hsame Hother].
    assert (Hid1 : Thread.id t1 = Thread.id t).
    { destruct Ht1 as [[-> _]|(_ & _ & a0 & n0 & -> & _)]; done. }
    destruct (decide (Thread.id t = Thread.id chat)) as [Heq|Hne].
    + assert (t = chat) as ->.
      { rewrite Hids in Hnd.
        apply list_elem_of_lookup in Ht as [i Hi].
        apply list_elem_of_lookup in Hchat as [j Hj].
        assert (i = j) as ->; [|congruence].
        eapply NoDup_lookup; [exact Hnd| |];
          rewrite list_lookup_fmap; [by rewrite Hi|rewrite Hj; simpl; by rewrite Heq]. }
      right. split; [apply elem_of_app; right; left|]. split; [by rewrite Ha|].
      rewrite Hsame by congruence.
      destruct Ht1 as [[-> _]|(_ & _ & a0 & n0 & -> & _)];
        [|rewrite analysed_again]; by exists a, (now (numberOfChatsUpdated results)).
    + rewrite Hother by congruence.
      destruct Ht1 as [[-> Hnot]|(Hin & Hdone)];
        [left|right; split; [apply elem_of_app; by left|done]].
      split; [done|]. intros [[Hin| ->%list_elem_of_singleton]%elem_of_app Hsome]; [|done].
      by apply Hnot.
  - eapply Forall2_impl; [exact Hinv|].
    intros t t' [[-> Hnot]|(Hin & Hdone)];
      [left|right; split; [apply elem_of_app; by left|done]].
    split; [done|]. intros [[Hin| ->%list_elem_of_singleton]%elem_of_app Hsome].
    + by apply Hnot.
    + rewrite Ha in Hsome. by destruct Hsome.
Qed.

Lemma foldl_distinct now index treated rest st :
  NoDup (map Thread.id index) ->
  rest ⊆ index ->
  distinct_invariant analysis index treated st.1 ->
  distinct_invariant analysis index (treated ++ rest) (foldl (step now) st rest).1.
Proof.
  intros Hnd. revert treated st.
  induction rest as [|chat rest IH]; intros treated st Hsub Hinv.
  - by rewrite app_nil_r.
  - simpl. rewrite (cons_middle chat treated rest), app_assoc.
    apply IH.
    + intros c Hc. apply Hsub. by right.
    + apply step_distinct; [done|apply Hsub; left|done].
Qed.

(** A pass over entries none of which can be analysed changes nothing. *)
Lemma foldl_idle now rest st :
  Forall (fun chat => analysis chat = None) rest ->
  foldl (step now) st rest = st.
Proof.
  intros Hall. revert st. induction Hall as [|chat rest Hchat _ IH]; intros st; [done|].
  simpl. unfold step at 2, analyse_chat. fold analysis. rewrite Hchat.
  destruct st. apply IH.
Qed.

End RunAnalysisFacts.

(** X8. The analysis pass keeps the entries of the index and their order:
    an entry is left as it is, or it keeps its id, project, date, first
    sentence, counts and earlier-format members and comes out settled
    (summaries present, [needsAnalysis] false, [lastAnalyzed] set). A
    missing or unreadable index stays so; with no entry picked the file is
    not written. The pass reports exactly the picked entries whose
    analysis succeeds, in the order of the index. *)
Theorem runAnalysis_keeps_entries
    (toLowerCase : jsstring -> jsstring) (canonicalize : char -> char)
    (JSON_parse : jsstring -> option json) (projectDirs : list jsstring)
    (readLog : jsstring -> jsstring -> option jsstring) (now : nat -> jsstring)
    (file : IndexFile) :
  let analysis := analysis_of toLowerCase canonicalize JSON_parse projectDirs readLog in
  let out := runAnalysis toLowerCase canonicalize JSON_parse projectDirs readLog now file in
  let picked := List.filter wantsAnalysis (readIndex file) in
  (file = None -> out.1 = None) /\
  (picked = [] -> out.1 = file) /\
  Forall2 (fun t t' => t' = t \/ (same_conversation t t' /\ settled t'))
          (readIndex file) (readIndex out.1) /\
  numberOfChatsUpdated out.2 = length (chatsAnalyzed out.2) /\
  map (fun ac => (ac_project ac, ac_chatId ac)) (chatsAnalyzed out.2)
  = map (fun t => (Thread.project t, Thread.id t))
        (List.filter (fun chat => bool_decide (is_Some (analysis chat))) picked).
Proof.
  intros analysis out picked.
  assert (Hidle : forall idx : list Thread.t,
            Forall2 (fun t t' => t' = t \/ (same_conversation t t' /\ settled t')) idx idx).
  { intros idx. apply Forall_Forall2_diag, Forall_forall. intros; by left. }
  unfold out, runAnalysis. destruct file as [historyIndex|]; [|by split_and!].
  cbn [readIndex] in *. fold picked.
  pose proof (foldl_invariant_pass toLowerCase canonicalize JSON_parse projectDirs readLog
                now historyIndex [] picked (historyIndex, mkAnalysisResults 0 [])) as Hinv.
  destruct picked as [|chat rest] eqn:Hpicked; [by split_and!|].
  rewrite <- Hpicked in *.
  destruct (foldl _ _ picked) as [historyIndex' results] eqn:Hrun.
  destruct Hinv as (Hshape & Hcount & Hlist).
  { unfold picked. intros c [Hc _]%elem_of_List_filter. done. }
  { split_and!; [|done|done]. apply Forall_Forall2_diag, Forall_forall. intros; by left. }
  split; [done|]. split; [by rewrite Hpicked|].
  cbn [fst snd readIndex] in *. split_and!; [|done|done].
  eapply Forall2_impl; [exact Hshape|].
  intros t t' [->|Hdone]; [by left|right; by apply analysed_from_settled].
Qed.

(** X9. With pairwise distinct chat ids, the analysis pass replaces
    exactly the picked entries whose analysis succeeds, and a second pass
    right after it (the logs being what they were) stores nothing: the
    entries it picks are those whose analysis failed, and it fails
    again. *)
Theorem runAnalysis_second_pass_idle
    (toLowerCase : jsstring -> jsstring) (canonicalize : char -> char)
    (JSON_parse : jsstring -> option json) (projectDirs : list jsstring)
    (readLog : jsstring -> jsstring -> option jsstring) (now now' : nat -> jsstring)
    (file : IndexFile) :
  NoDup (map Thread.id (readIndex file)) ->
  let analysis := analysis_of toLowerCase canonicalize JSON_parse projectDirs readLog in
  let first := runAnalysis toLowerCase canonicalize JSON_parse projectDirs readLog now file in
  let second :=
    runAnalysis toLowerCase canonicalize JSON_parse projectDirs readLog now' first.1 in
  Forall2 (fun t t' =>
             if wantsAnalysis t && bool_decide (is_Some (analysis t))
             then same_conversation t t' /\ settled t'
             else t' = t)
          (readIndex file) (readIndex first.1) /\
  second.1 = first.1 /\
  numberOfChatsUpdated second.2 = 0 /\
  chatsAnalyzed second.2 = [].
Proof.
  intros Hnd analysis first second.
  set (picked := List.filter wantsAnalysis (readIndex file)).
  assert (Hdist : distinct_invariant analysis (readIndex file) picked (readIndex first.1)).
  { unfold first, runAnalysis. destruct file as [historyIndex|].
    - cbn [readIndex] in *. fold picked.
      assert (Hstart : distinct_invariant analysis historyIndex [] historyIndex).
      { apply Forall_Forall2_diag, Forall_forall. intros t _. left. split; [done|].
        by intros [?%elem_of_nil _]. }
      destruct picked as [|chat rest] eqn:Hpicked; [done|].
      rewrite <- Hpicked in *.
      pose proof (foldl_distinct toLowerCase canonicalize JSON_parse projectDirs readLog
                    now historyIndex [] picked (historyIndex, mkAnalysisResults 0 []) Hnd)
        as Hinv.
      destruct (foldl _ _ picked) as [historyIndex' results] eqn:Hrun.
      rewrite Hpicked. cbn [fst readIndex]. rewrite <- Hpicked. apply Hinv; [|done].
      unfold picked. by intros c [Hc _]%elem_of_List_filter.
    - constructor. }
  assert (Hpick : forall t, t ∈ readIndex file -> (t ∈ picked <-> wantsAnalysis t = true)).
  { intros t Ht. unfold picked. rewrite elem_of_List_filter. tauto. }
  split.
  { apply Forall2_elem_of_l in Hdist. eapply Forall2_impl; [exact Hdist|].
    intros t t' [Ht [[-> Hnot]|(Hin & Hsome & Hdone)]].
    - destruct (wantsAnalysis t) eqn:Hw; [|done].
      destruct (bool_decide_reflect (is_Some (analysis t))) as [Hs|Hs]; [|done].
      exfalso. apply Hnot. split; [by apply Hpick|done].
    - apply Hpick in Hin; [|done]. rewrite Hin, bool_decide_eq_true_2 by done.
      by apply analysed_from_settled. }
  assert (Hfail : Forall (fun chat => analysis chat = None)
                         (List.filter wantsAnalysis (readIndex first.1))).
  { apply Forall_forall. intros c [Hc Hw]%elem_of_List_filter.
    apply Forall2_elem_of_l in Hdist.
    apply list_elem_of_lookup in Hc as [i Hi].
    destruct (Forall2_lookup_r _ _ _ _ _ Hdist Hi) as (t & _ & Ht & [[Heq Hnot]|(_ & _ & Hdone)]).
    - subst c. destruct (analysis t) as [a|] eqn:Ha; [|done].
      exfalso. apply Hnot. split; [by apply Hpick|done].
    - apply analysed_from_settled in Hdone as [_ (_ & _ & _ & _ & _ & Hno)]. congruence. }
  unfold second, runAnalysis.
  destruct first.1 as [index1|] eqn:Hfirst; [|done].
  cbn [readIndex] in Hfail.
  destruct (List.filter wantsAnalysis index1) as [|c rest] eqn:Hpicked1; [done|].
  fold analysis in Hfail.
  rewrite (foldl_idle toLowerCase canonicalize JSON_parse projectDirs readLog now' _ _ Hfail).
  done.
Qed.

(** ** Project directories *)

(** Every text ends with a piece free of separators that is preceded by a
    separator or by nothing. *)
Lemma last_segment_exists (s : jsstring) :
  exists pre seg, s = pre ++ seg /\ Forall (fun c => isPathSep c = false) seg /\
                  (pre = [] \/ exists p c, pre = p ++ [c] /\ isPathSep c = true).
Proof.
  induction s as [|c s IH] using rev_ind.
  - exists [], []. split_and!; [done|constructor|by left].
  - destruct (isPathSep c) eqn:Hc.
    + exists (s ++ [c]), []. rewrite app_nil_r. split_and!; [done|constructor|].
      right. by exists s, c.
    + destruct IH as (pre & seg & -> & Hseg & Hpre).
      exists pre, (seg ++ [c]). rewrite <- app_assoc. split_and!; [done| |done].
      apply Forall_app. split; [done|]. by constructor.
Qed.

Lemma extractProjectName_includes dir :
  extractProjectName dir <> unknownProject ->
  includes dir (replace_char 47 45 (extractProjectName dir)) = true.
Proof.
  intros Hname.
  pose proof (extractProjectName_no_slash dir) as Hslash.
  rewrite replace_char_plain by done.
  destruct (last_segment_exists (drop 1 dir)) as (pre & seg & Hsplit & Hseg & Hpre).
  pose proof (extractProjectName_of_segment dir pre seg Hsplit Hseg Hpre) as Hlast.
  destruct seg as [|c seg]; [done|]. cbn [nonempty] in Hlast. rewrite Hlast.
  rewrite <- (take_drop 1 dir), Hsplit, app_assoc. apply includes_suffix.
Qed.

(** X2. The analysis pass finds the directory of an entry by its project
    name: for the name extracted from a directory of the listing (other
    than the fallback name) the search succeeds, and it returns the first
    directory of the listing whose name contains the project name, which
    is the directory itself only if no earlier one contains it. *)
Theorem project_directory_lookup (projectDirs pre post : list jsstring) (dir : jsstring) :
  projectDirs = pre ++ dir :: post ->
  extractProjectName dir <> unknownProject ->
  let name := extractProjectName dir in
  find_projectDir projectDirs name
  = Some (default dir (List.find (fun d => includes d name) pre)).
Proof.
  intros -> Hname name. unfold find_projectDir.
  pose proof (extractProjectName_includes dir Hname) as Hinc.
  pose proof (extractProjectName_no_slash dir) as Hslash.
  fold name in Hinc, Hslash.
  rewrite replace_char_plain in * by done.
  induction pre as [|d pre IH]; simpl; [by rewrite Hinc|].
  destruct (includes d name); [done|]. apply IH.
Qed.

(** X2, witness: the project [viewer] is looked up after a directory
    whose name ends in [previewer]. *)
Lemma project_directory_lookup_witness :
  extractProjectName viewer_dir = js "viewer" /\
  find_projectDir [previewer_dir; viewer_dir] (extractProjectName viewer_dir)
  = Some previewer_dir.
Proof.
  split; [vm_compute; reflexivity|].
  pose proof (project_directory_lookup [previewer_dir; viewer_dir] [previewer_dir] []
                viewer_dir eq_refl) as H.
  cbv zeta in H. rewrite H; [vm_compute; reflexivity|vm_compute; congruence].
Defined.

(** ** The analysis on a small store *)

Example analyzeChat_example :
  analyzeChat ascii_toLowerCase ascii_canonicalize alternating_conversation
              (Some (JStr (js "Fix the login.")))
  = Ok (mkAnalysis
          (js "2-message conversation about Fix the login..")
          (js "A 2-message conversation that began with " ++ dquote ++
           js "Fix the login...." ++ dquote ++
           js ". The discussion covered various topics and technical implementations.")
          [js "2 total messages exchanged"]).
Proof. vm_compute. reflexivity. Qed.

Example getFullConversation_example :
  getFullConversation (parse_log alternating_log) (log_content alternating_log)
  = alternating_conversation.
Proof. vm_compute. reflexivity. Qed.

(** X6, witness: the entry without a paragraph summary, once the analysis
    of its conversation is stored. *)
Lemma analysis_settles_entry_witness :
  exists analysis,
    analyzeChat ascii_toLowerCase ascii_canonicalize alternating_conversation
                (Some (JStr (js "Fix the login."))) = Ok analysis /\
    wantsAnalysis thread_login_no_paragraph = true /\
    wantsAnalysis (analysed thread_login_no_paragraph analysis (noon 0)) = false /\
    needs_analysis (Some (analysed thread_login_no_paragraph analysis (noon 0)))
                   (chat_login 5) = false.
Proof.
  eexists. split; [exact analyzeChat_example|].
  pose proof (analysis_settles_entry ascii_toLowerCase ascii_canonicalize
                alternating_conversation (Some (JStr (js "Fix the login."))) _
                thread_login_no_paragraph (noon 0) analyzeChat_example) as H.
  cbv zeta in H. destruct H as (_ & _ & _ & Hw & Hn).
  split; [vm_compute; reflexivity|]. split; [exact Hw|].
  apply Hn; vm_compute; reflexivity.
Defined.

(** X9, witness: the entry without a paragraph summary is analysed by the
    first pass; the second pass finds nothing to do. *)
Lemma runAnalysis_second_pass_idle_witness :
  let run := runAnalysis ascii_toLowerCase ascii_canonicalize (parse_log alternating_log)
               [viewer_dir] viewer_logs noon in
  let first := run (Some [thread_login_no_paragraph]) in
  map Thread.needsAnalysis (readIndex first.1) = [Some false] /\
  numberOfChatsUpdated first.2 = 1 /\
  (run first.1).1 = first.1 /\
  numberOfChatsUpdated (run first.1).2 = 0.
Proof.
  pose proof (runAnalysis_second_pass_idle ascii_toLowerCase ascii_canonicalize
                (parse_log alternating_log) [viewer_dir] viewer_logs noon noon
                (Some [thread_login_no_paragraph])) as H.
  cbv zeta in *. destruct H as (_ & H1 & H2 & _); [apply NoDup_singleton|].
  split; [vm_compute; reflexivity|]. split; [vm_compute; reflexivity|].
  split; [exact H1|exact H2].
Defined.

(** Two entries with the same id in different projects: the analysis of
    the second is stored in the first, the second stays picked, and every
    pass stores an analysis again. *)
Example runAnalysis_same_id :
  let run := runAnalysis ascii_toLowerCase ascii_canonicalize (parse_log alternating_log)
               [viewer_dir] viewer_logs noon in
  let other :=
    Thread.mk (js "a1") (js "u") 900 (js "Old.") None None None 2 TsNull None None
      None None None in
  let first := run (Some [thread_login; other]) in
  map wantsAnalysis (readIndex first.1) = [false; true] /\
  numberOfChatsUpdated first.2 = 1 /\
  numberOfChatsUpdated (run first.1).2 = 1.
Proof. vm_compute. repeat split. Qed.

(** ** The chats of the home page *)

Lemma contents_of_lengths evs :
  length (contents_of TUser evs) + length (contents_of TAssistant evs) = length evs.
Proof.
  induction evs as [|[[] c] evs IH]; [done| |];
    unfold contents_of in *; cbn [omap list_omap fst snd length] in *; lia.
Qed.

Section HomePageFacts.

Variable toLowerCase : jsstring -> jsstring.
Variable JSON_parse : jsstring -> option json.
Variable JSON_stringify : json -> jsstring.

Lemma generateChatSummary_nonempty u a f chatId :
  summary (generateChatSummary toLowerCase u a f chatId) <> [].
Proof.
  unfold generateChatSummary. destruct u as [|u0 us]; [done|].
  destruct (accomplishments_of toLowerCase (u0 :: us) a) as [|a0 acc]; [done|].
  cbn [summary take map]. by destruct (map _ (take 2 acc)).
Qed.

Lemma first_user_message st lines :
  let st' := foldl (extract_step JSON_parse JSON_stringify) st lines in
  let users := contents_of TUser (line_events JSON_parse JSON_stringify lines) in
  (truthy (Some (ex_firstUserMessage st)) = true ->
   ex_firstUserMessage st' = ex_firstUserMessage st) /\
  (truthy (Some (ex_firstUserMessage st)) = false ->
   match List.find (fun c => truthy (Some c)) users with
   | Some c => ex_firstUserMessage st' = c
   | None => truthy (Some (ex_firstUserMessage st')) = false
   end).
Proof.
  revert st. induction lines as [|line lines IH]; intros st; [by split|].
  cbn [foldl]. unfold line_events. rewrite omap_cons_list, contents_of_app.
  fold (line_events JSON_parse JSON_stringify lines).
  destruct (IH (extract_step JSON_parse JSON_stringify st line)) as [IHt IHf].
  unfold extract_step in *.
  destruct (summary_line JSON_parse JSON_stringify line) as [[[] c]|]; cbn -[truthy] in *.
  - destruct (truthy (Some (ex_firstUserMessage st))) eqn:Hst.
    + split; [intros _; by rewrite IHt|done].
    + split; [done|intros _].
      destruct (truthy (Some c)) eqn:Hc; [by apply IHt|by apply IHf].
  - by split.
  - by split.
Qed.

End HomePageFacts.

(** X10. The chat the home page builds from a log: its summary is the
    Tier-1 summary, which is never empty (the fallback text of line 428 is
    never shown); its first message is the first user content that is not
    empty, or the fallback text when there is none; and its message count is
    the number of non-blank lines, which is at least the number of messages
    handed to the summariser. *)
Theorem chat_of_log_fields
    (toLowerCase : jsstring -> jsstring) (JSON_parse : jsstring -> option json)
    (JSON_stringify : json -> jsstring)
    (projectDir filename : jsstring) (mtime : Z) (content : jsstring) :
  let chat := chat_of_log toLowerCase JSON_parse JSON_stringify projectDir filename mtime
                content in
  let st := extract_lines JSON_parse JSON_stringify (nonblank_lines content) in
  hc_summary chat
  = summary (generateChatSummary toLowerCase (ex_userMessages st) (ex_assistantMessages st)
               (ex_firstUserMessage st) (hc_id chat)) /\
  hc_summary chat <> [] /\
  hc_firstMessage chat
  = default (JStr (js "No preview available"))
            (List.find (fun c => truthy (Some c)) (ex_userMessages st)) /\
  truthy (Some (hc_firstMessage chat)) = true /\
  hc_messageCount chat = length (nonblank_lines content) /\
  length (ex_userMessages st) + length (ex_assistantMessages st) <= hc_messageCount chat.
Proof.
  intros chat st.
  pose proof (generateChatSummary_nonempty toLowerCase (ex_userMessages st)
                (ex_assistantMessages st) (ex_firstUserMessage st) (hc_id chat)) as Hne.
  assert (Hsum : hc_summary chat
            = summary (generateChatSummary toLowerCase (ex_userMessages st)
                         (ex_assistantMessages st) (ex_firstUserMessage st) (hc_id chat))).
  { unfold chat, chat_of_log. cbn [hc_summary hc_id]. fold st. unfold or_text.
    by destruct (summary _) eqn:Hs. }
  destruct (extract_lines_events JSON_parse JSON_stringify (nonblank_lines content))
    as [Hu Ha].
  fold st in Hu, Ha.
  assert (Hfirst : hc_firstMessage chat
            = default (JStr (js "No preview available"))
                      (List.find (fun c => truthy (Some c)) (ex_userMessages st))).
  { unfold chat, chat_of_log. cbn [hc_firstMessage]. fold st.
    destruct (first_user_message JSON_parse JSON_stringify (mkExtracted [] [] (JStr []))
                (nonblank_lines content)) as [_ Hf].
    specialize (Hf eq_refl). cbv zeta in Hf. rewrite <- Hu in Hf.
    fold (extract_lines JSON_parse JSON_stringify (nonblank_lines content)) in Hf. fold st in Hf.
    destruct (List.find _ (ex_userMessages st)) as [c|] eqn:Hfind.
    - rewrite Hf. apply List.find_some in Hfind as [_ Hc]. by rewrite Hc.
    - by rewrite Hf. }
  split; [done|]. split; [by rewrite Hsum|]. split; [done|]. split.
  { rewrite Hfirst. destruct (List.find _ _) as [c|] eqn:Hfind; [|done].
    by apply List.find_some in Hfind as [_ Hc]. }
  split; [done|].
  unfold chat, chat_of_log. cbn [hc_messageCount]. rewrite Hu, Ha.
  etrans; [|apply (omap_length_le (summary_line JSON_parse JSON_stringify))].
  fold (line_events JSON_parse JSON_stringify (nonblank_lines content)).
  by rewrite contents_of_lengths.
Qed.

(** ** From the Tier-1 summary to the bullets of the index *)

Lemma pretty_N_char_digit y : isDigit (N_of_ascii (pretty_N_char y)) = true.
Proof. unfold pretty_N_char. by repeat case_match. Qed.

Lemma pretty_N_go_digits x s :
  Forall (fun c => isDigit c = true) (js s) ->
  Forall (fun c => isDigit c = true) (js (pretty_N_go x s)).
Proof.
  revert s. induction (N.lt_wf_0 x) as [x _ IH]; intros s Hs.
  assert (x = 0 \/ 0 < x)%N as [->|Hpos] by lia.
  - by rewrite pretty_N_go_0.
  - rewrite pretty_N_go_step by done. apply IH.
    + by apply N.div_lt.
    + unfold js in *. cbn [list_ascii_of_string map]. constructor; [|done].
      apply pretty_N_char_digit.
Qed.

Lemma decimal_digits n : Forall (fun c => isDigit c = true) (decimal n).
Proof.
  unfold decimal, pretty, pretty_nat, pretty, pretty_N.
  destruct (decide (N.of_nat n = 0%N)); [by repeat constructor|].
  apply pretty_N_go_digits. constructor.
Qed.

Lemma in_range_bounds lo hi c : in_range lo hi c = true <-> (lo <= c <= hi)%N.
Proof. unfold in_range. rewrite andb_true_iff, !N.leb_le. done. Qed.

Lemma isAlnum_plain c : isAlnum c = true -> isPlainChar c = true /\ isSpace c = false.
Proof.
  unfold isAlnum, isDigit, isUpper, isLower. rewrite !orb_true_iff, !in_range_bounds.
  intros Hc.
  assert (Hlt : (48 <= c <= 122)%N) by lia.
  split.
  - unfold isPlainChar, char_eqb.
    destruct (N.eqb_spec c 60), (N.eqb_spec c 10); try done; lia.
  - unfold isSpace, in_range, char_eqb.
    repeat (apply orb_false_iff; split);
      try (apply andb_false_iff; rewrite !N.leb_gt; lia);
      try (apply N.eqb_neq; lia).
Qed.

Lemma isDigit_plain c : isDigit c = true -> isPlainChar c = true.
Proof. intros H. apply isAlnum_plain. unfold isAlnum. by rewrite H. Qed.

Lemma isFileChar_plain c : isFileChar c = true -> isPlainChar c = true /\ isSpace c = false.
Proof.
  unfold isFileChar, isWord. rewrite !orb_true_iff.
  intros [[Ha|Hu]|Hd]; [by apply isAlnum_plain| |];
    apply char_eqb_eq in Hu || apply char_eqb_eq in Hd; subst; done.
Qed.

Lemma takeWhile_Forall {A} (p : A -> bool) l : Forall (fun x => p x = true) (takeWhile p l).
Proof.
  induction l as [|x l IH]; simpl; [constructor|].
  destruct (p x) eqn:Hx; by constructor.
Qed.

Lemma dropWhile_sub {A} (p : A -> bool) l x : x ∈ dropWhile p l -> x ∈ l.
Proof.
  induction l as [|y l IH]; [done|]. simpl.
  destruct (p y); [intros ?; right; auto|done].
Qed.

Lemma elem_of_rev_iff {A} (l : list A) x : x ∈ rev l <-> x ∈ l.
Proof. rewrite !list_elem_of_In. symmetry. apply in_rev. Qed.

Lemma trim_sub s x : x ∈ trim s -> x ∈ s.
Proof.
  unfold trim, trimEnd, trimStart.
  intros Hx. apply (proj1 (elem_of_rev_iff _ _)), dropWhile_sub in Hx.
  apply (proj1 (elem_of_rev_iff _ _)), dropWhile_sub in Hx. done.
Qed.

Lemma trimEnd_trim s : trimEnd (trim s) = trim s.
Proof.
  unfold trim at 1, trimEnd at 1. unfold trim, trimEnd.
  rewrite rev_involutive, dropWhile_idemp. done.
Qed.

Lemma trimEnd_fixed_last t :
  t <> [] -> trimEnd t = t -> exists x r, rev t = x :: r /\ isSpace x = false.
Proof.
  intros Hne Ht. unfold trimEnd in Ht.
  destruct (rev t) as [|x r] eqn:Hrev.
  - apply (f_equal (@rev _)) in Hrev. rewrite rev_involutive in Hrev. done.
  - exists x, r. split; [done|].
    apply (f_equal (@rev _)) in Ht. rewrite rev_involutive, Hrev in Ht.
    simpl in Ht. destruct (isSpace x) eqn:Hx; [|done].
    pose proof (dropWhile_length isSpace r) as Hlen. rewrite Ht in Hlen. simpl in Hlen. lia.
Qed.

Lemma trimEnd_app pre t : t <> [] -> trimEnd t = t -> trimEnd (pre ++ t) = pre ++ t.
Proof.
  intros Hne Ht. destruct (trimEnd_fixed_last t Hne Ht) as (x & r & Hrev & Hx).
  unfold trimEnd. rewrite rev_app_distr, Hrev. simpl. rewrite Hx.
  change (x :: r ++ rev pre) with ((x :: r) ++ rev pre).
  rewrite <- Hrev, <- rev_app_distr. apply rev_involutive.
Qed.

Lemma trimEnd_last_char pre c : isSpace c = false -> trimEnd (pre ++ [c]) = pre ++ [c].
Proof.
  intros Hc. apply trimEnd_app; [done|]. unfold trimEnd. simpl. by rewrite Hc.
Qed.

(** A bullet line keeps its text under [trim]. *)
Lemma trim_bullet t : plain_text t -> trim ([bullet] ++ js " " ++ t) = [bullet] ++ js " " ++ t.
Proof.
  intros (Hne & _ & Hend). unfold trim.
  assert (trimStart ([bullet] ++ js " " ++ t) = [bullet] ++ js " " ++ t) as -> by done.
  rewrite (app_assoc [bullet] (js " ") t). by apply trimEnd_app.
Qed.

Lemma collapse_spaces_chars b s :
  Forall (fun c => isSpace c = false \/ c = 32%N) (collapse_spaces b s).
Proof.
  revert b. induction s as [|c s IH]; intros b; simpl; [constructor|].
  destruct (isSpace c) eqn:Hc; [destruct b|]; try done; constructor; auto.
Qed.

Lemma clean_plain s : clean s <> [] -> plain_text (clean s).
Proof.
  intros Hne. split; [done|]. split; [|apply trimEnd_trim].
  apply Forall_forall. intros c Hc%trim_sub.
  unfold strip_non_alnum in Hc. apply elem_of_List_filter in Hc as [Hin Hkeep].
  pose proof (collapse_spaces_chars false s) as Hall. rewrite Forall_forall in Hall.
  destruct (Hall c Hin) as [Hns| ->]; [|done].
  rewrite Hns, orb_false_r in Hkeep. by apply isAlnum_plain.
Qed.

Lemma plain_text_app pre t :
  Forall (fun c => isPlainChar c = true) pre -> plain_text t -> plain_text (pre ++ t).
Proof.
  intros Hpre (Hne & Hall & Hend). split_and!.
  - by destruct pre, t.
  - by apply Forall_app.
  - by apply trimEnd_app.
Qed.

Lemma extension_plain e : e ∈ fileExtensions -> plain_text e.
Proof.
  intros He.
  assert (Hall : Forall (fun e => nonempty e = true /\ forallb isPlainChar e = true /\
                                  jsstring_eqb (trimEnd e) e = true) fileExtensions)
    by (vm_compute; repeat constructor).
  rewrite Forall_forall in Hall. destruct (Hall e He) as (H1 & H2 & H3).
  split_and!.
  - by destruct e.
  - apply Forall_forall. intros c Hc. rewrite forallb_forall in H2.
    apply H2. by apply list_elem_of_In.
  - by apply jsstring_eqb_eq.
Qed.

Lemma match_file_here_plain prev s m : match_file_here prev s = Some m -> plain_text m.
Proof.
  unfold match_file_here.
  pose proof (takeWhile_Forall isFileChar s) as Hrun.
  destruct (takeWhile isFileChar s) as [|c0 run]; [done|].
  destruct (xorb _ _); [|done].
  destruct (drop _ s) as [|dot rest]; [done|].
  destruct (char_eqb dot 46); [|done].
  destruct (List.find _ fileExtensions) as [e|] eqn:Hfind; [|done].
  intros [= <-]. apply List.find_some in Hfind as [He%list_elem_of_In _].
  apply (plain_text_app (c0 :: run) ([46%N] ++ e)).
  - eapply Forall_impl; [exact Hrun|]. intros c Hc. by apply isFileChar_plain.
  - apply plain_text_app; [by repeat constructor|by apply extension_plain].
Qed.

Lemma file_matches_plain prev skip s :
  Forall plain_text (file_matches prev skip s).
Proof.
  revert prev skip. induction s as [|c s IH]; intros prev skip; simpl; [constructor|].
  destruct skip as [|k]; [|apply IH].
  destruct (match_file_here prev (c :: s)) as [m|] eqn:Hm; [|apply IH].
  constructor; [by eapply match_file_here_plain|apply IH].
Qed.

Lemma unique_sub seen xs x : x ∈ unique seen xs -> x ∈ xs.
Proof.
  revert seen. induction xs as [|y xs IH]; intros seen; simpl; [done|].
  destruct (existsb _ seen).
  - intros ?%IH. by right.
  - intros [->|?%IH]%elem_of_cons; [left|by right].
Qed.

Section BulletFacts.

Variable toLowerCase : jsstring -> jsstring.

Lemma scan_verbs_ready msgs : Forall bullet_ready (scan_verbs toLowerCase msgs).
Proof.
  destruct (scan_verbs_invariant toLowerCase msgs) as (_ & Hall & _).
  eapply Forall_impl; [exact Hall|].
  intros a (verb & msg & capture & _ & _ & _ & _ & Htext & Hne & _ & Hanchor).
  split; [|by eexists]. rewrite Htext in *. by apply clean_plain.
Qed.

Lemma add_files_ready msgs acc :
  Forall bullet_ready acc -> Forall bullet_ready (add_files toLowerCase msgs acc).
Proof.
  intros Hacc. unfold add_files.
  destruct (_ && _); [|done].
  apply foldl_invariant; [done|].
  intros acc' file Hfile Hacc'. unfold add_file.
  destruct (find_mention toLowerCase file msgs) as [m|]; [|done].
  apply Forall_app. split; [done|]. constructor; [|done].
  split; [|by eexists]. cbn [text].
  apply plain_text_app; [by repeat constructor|].
  apply subseteq_take, unique_sub in Hfile.
  pose proof (file_matches_plain None 0 (allText toLowerCase msgs)) as Hall.
  rewrite Forall_forall in Hall. by apply Hall.
Qed.

Lemma accomplishments_ready u a : Forall bullet_ready (accomplishments_of toLowerCase u a).
Proof. apply add_files_ready, scan_verbs_ready. Qed.

End BulletFacts.

(** [<[^>]*>] removed from a text. *)
Lemma strip_tags_plain s rest :
  Forall (fun c => isPlainChar c = true) s ->
  strip_tags false (s ++ rest) = s ++ strip_tags false rest.
Proof.
  induction 1 as [|c s Hc _ IH]; [done|]. simpl.
  unfold isPlainChar in Hc. apply andb_prop in Hc as [Hc _].
  apply negb_true_iff in Hc. rewrite Hc. simpl. by rewrite IH.
Qed.

Lemma strip_tags_inside s rest :
  62%N ∉ s -> strip_tags true (s ++ 62%N :: rest) = strip_tags false rest.
Proof.
  induction s as [|c s IH]; [done|].
  intros [Hc Hs]%not_elem_of_cons. simpl.
  assert (char_eqb c 62 = false) as -> by (apply char_eqb_neq; congruence).
  simpl. by apply IH.
Qed.

Lemma existsb_middle (p : char -> bool) s c rest :
  p c = true -> existsb p (s ++ c :: rest) = true.
Proof. intros Hc. rewrite existsb_app. simpl. rewrite Hc. apply orb_true_r. Qed.

Lemma strip_tags_open s rest :
  62%N ∉ s -> strip_tags false (60%N :: s ++ 62%N :: rest) = strip_tags false rest.
Proof.
  intros Hs. cbn [strip_tags]. cbn [char_eqb N.eqb Pos.eqb andb].
  rewrite existsb_middle by done. by apply strip_tags_inside.
Qed.

Lemma digits_no_gt s c :
  Forall (fun c => isDigit c = true) s -> isDigit c = false -> c ∉ s.
Proof.
  intros Hall Hc Hin. rewrite Forall_forall in Hall. specialize (Hall _ Hin). congruence.
Qed.

Lemma not_elem_of_js_app (c : char) a b : c ∉ a -> c ∉ b -> c ∉ a ++ b.
Proof. intros. by apply not_elem_of_app. Qed.

(** A bullet of the summary with its link removed. *)
Lemma strip_tags_bullet chatId item :
  62%N ∉ chatId -> bullet_ready item ->
  strip_tags false (summary_bullet chatId item) = [bullet] ++ js " " ++ text item.
Proof.
  intros Hchat [(Hne & Hplain & Hend) [n Hanchor]].
  unfold summary_bullet. rewrite Hanchor. unfold msg_anchor.
  change ([bullet] ++ js " <a href=" ++ dquote ++ js "/chat/" ++ chatId ++ js "#" ++
          (js "msg-" ++ decimal n) ++ dquote ++ js " class=" ++ dquote ++
          js "summary-link" ++ dquote ++ js ">" ++ text item ++ js "</a>")
    with (([bullet] ++ js " ") ++ 60%N ::
          (js "a href=" ++ dquote ++ js "/chat/" ++ chatId ++ js "#" ++
           (js "msg-" ++ decimal n) ++ dquote ++ js " class=" ++ dquote ++
           js "summary-link" ++ dquote ++ js ">" ++ text item ++ js "</a>")).
  rewrite strip_tags_plain by (by repeat constructor).
  replace (js "a href=" ++ dquote ++ js "/chat/" ++ chatId ++ js "#" ++
           (js "msg-" ++ decimal n) ++ dquote ++ js " class=" ++ dquote ++
           js "summary-link" ++ dquote ++ js ">" ++ text item ++ js "</a>")
    with ((js "a href=" ++ dquote ++ js "/chat/" ++ chatId ++ js "#" ++
           js "msg-" ++ decimal n ++ dquote ++ js " class=" ++ dquote ++
           js "summary-link" ++ dquote) ++ 62%N :: (text item ++ js "</a>"))
    by (by rewrite <- !app_assoc).
  rewrite strip_tags_open.
  - rewrite strip_tags_plain by done.
    change (js "</a>") with (60%N :: js "/a" ++ 62%N :: []).
    rewrite strip_tags_open by (vm_compute; intros ?%list_elem_of_In; simpl in *; intuition discriminate).
    cbn [strip_tags]. by rewrite app_nil_r, <- app_assoc.
  - assert (Hlit : forall s : string, forallb (fun c => negb (char_eqb c 62)) (js s) = true ->
                                      62%N ∉ js s).
    { intros s Hs Hin. rewrite forallb_forall in Hs.
      apply list_elem_of_In, Hs in Hin. done. }
    assert (Hquote : 62%N ∉ dquote).
    { intros Hin. apply list_elem_of_singleton in Hin. done. }
    assert (Hdigits : 62%N ∉ decimal n).
    { apply digits_no_gt; [apply decimal_digits|done]. }
    repeat (apply not_elem_of_js_app; [try (by apply Hlit); try done|]); done.
Qed.

Lemma split_lines_plain s : 10%N ∉ s -> split_lines s = [s].
Proof.
  induction s as [|c r IH]; [done|].
  intros [Hc Hr]%not_elem_of_cons. simpl.
  destruct (char_eqb c 10) eqn:Hcs; [apply char_eqb_eq in Hcs; congruence|].
  by rewrite IH.
Qed.

Lemma split_lines_app s rest :
  10%N ∉ s -> split_lines (s ++ 10%N :: rest) = s :: split_lines rest.
Proof.
  induction s as [|c r IH]; [done|].
  intros [Hc Hr]%not_elem_of_cons. simpl.
  destruct (char_eqb c 10) eqn:Hcs; [apply char_eqb_eq in Hcs; congruence|].
  by rewrite IH.
Qed.

Lemma split_lines_join pieces :
  pieces <> [] -> Forall (fun p => 10%N ∉ p) pieces ->
  split_lines (join [10%N] pieces) = pieces.
Proof.
  intros Hne Hall. induction Hall as [|p ps Hp Hps IH]; [done|].
  destruct ps as [|q ps]; [by apply split_lines_plain|].
  change (join [10%N] (p :: q :: ps)) with (p ++ 10%N :: join [10%N] (q :: ps)).
  rewrite split_lines_app by done. by rewrite IH.
Qed.

Lemma plain_no_newline s : Forall (fun c => isPlainChar c = true) s -> 10%N ∉ s.
Proof.
  intros Hall Hin. rewrite Forall_forall in Hall. by specialize (Hall _ Hin).
Qed.

Lemma digits_plain s :
  Forall (fun c => isDigit c = true) s -> Forall (fun c => isPlainChar c = true) s.
Proof. intros H. eapply Forall_impl; [exact H|]. intros c. apply isDigit_plain. Qed.

Lemma summary_bullet_line chatId item :
  10%N ∉ chatId -> bullet_ready item -> 10%N ∉ summary_bullet chatId item.
Proof.
  intros Hchat [(_ & Hplain & _) [n Hanchor]].
  unfold summary_bullet. rewrite Hanchor. unfold msg_anchor.
  pose proof (plain_no_newline _ (digits_plain _ (decimal_digits n))) as Hdigits.
  pose proof (plain_no_newline _ Hplain) as Htext.
  assert (Hquote : 10%N ∉ dquote).
  { intros Hin. apply list_elem_of_singleton in Hin. done. }
  assert (Hlit : forall s : string, forallb (fun c => negb (char_eqb c 10)) (js s) = true ->
                                    10%N ∉ js s).
  { intros s Hs Hin. rewrite forallb_forall in Hs.
    apply list_elem_of_In, Hs in Hin. done. }
  assert (Hbullet : 10%N ∉ [bullet]).
  { intros Hin. apply list_elem_of_singleton in Hin. done. }
  repeat (apply not_elem_of_js_app; [try (by apply Hlit); try done|]);
    try done; by apply Hlit.
Qed.

Lemma summary_bullet_trim chatId item :
  trim (summary_bullet chatId item) = summary_bullet chatId item.
Proof.
  unfold trim. assert (trimStart (summary_bullet chatId item) = summary_bullet chatId item)
    as -> by done.
  unfold summary_bullet. rewrite !app_assoc. by apply trimEnd_app.
Qed.

Lemma summary_bullets_of_lines chatId shown :
  62%N ∉ chatId -> Forall bullet_ready shown ->
  map (fun line => trim (strip_tags false line))
      (List.filter (fun line => startsWith [bullet] (trim line))
                   (map (summary_bullet chatId) shown))
  = map (fun item => [bullet] ++ js " " ++ text item) shown.
Proof.
  intros Hchat. induction 1 as [|item shown Hitem _ IH]; [done|].
  cbn [map List.filter]. rewrite summary_bullet_trim.
  assert (startsWith [bullet] (summary_bullet chatId item) = true) as -> by done.
  cbn [map]. rewrite IH, strip_tags_bullet by done.
  by rewrite trim_bullet by apply Hitem.
Qed.

(** X11. The bullets that the merge takes from a Tier-1 summary are its
    phrases as plain text: for a chat id without [>] and line feed, each
    of the up to three links of the summary gives the bullet sign, a blank
    and the phrase; the summary of a conversation without phrases gives
    its one line; [Empty conversation] gives no bullet. *)
Theorem summary_bullets_of_summary
    (toLowerCase : jsstring -> jsstring) (userMessages assistantMessages : list json)
    (firstUserMessage : json) (chatId : jsstring) :
  62%N ∉ chatId -> 10%N ∉ chatId ->
  summary_bullets (summary (generateChatSummary toLowerCase userMessages assistantMessages
                              firstUserMessage chatId))
  = plain_bullets userMessages (accomplishments_of toLowerCase userMessages assistantMessages).
Proof.
  intros Hgt Hnl. unfold generateChatSummary, plain_bullets.
  destruct userMessages as [|u0 us]; [by vm_compute|].
  pose proof (accomplishments_ready toLowerCase (u0 :: us) assistantMessages) as Hready.
  destruct (accomplishments_of toLowerCase (u0 :: us) assistantMessages) as [|a0 acc].
  - cbn [summary]. unfold summary_bullets.
    set (line := decimal (length (u0 :: us)) ++ js " message conversation").
    assert (Hline : plain_text line).
    { unfold line.
      split_and!.
      - by destruct (decimal _).
      - apply Forall_app. split; [apply digits_plain, decimal_digits|by repeat constructor].
      - by apply trimEnd_app. }
    change ([bullet] ++ js " " ++ decimal (length (u0 :: us)) ++ js " message conversation")
      with ([bullet] ++ js " " ++ line).
    assert (Hall : Forall (fun c => isPlainChar c = true) ([bullet] ++ js " " ++ line)).
    { apply Forall_app. split; [by repeat constructor|].
      apply Forall_app. split; [by repeat constructor|apply Hline]. }
    rewrite split_lines_plain by by apply plain_no_newline.
    cbn [List.filter]. rewrite trim_bullet by done.
    assert (startsWith [bullet] ([bullet] ++ js " " ++ line) = true) as -> by done.
    cbn [map].
    rewrite <- (app_nil_r ([bullet] ++ js " " ++ line)) at 1.
    rewrite strip_tags_plain by done. cbn [strip_tags]. rewrite app_nil_r.
    by rewrite trim_bullet.
  - cbn [summary]. unfold summary_bullets.
    assert (Hshown : Forall bullet_ready (take 3 (a0 :: acc))).
    { apply Forall_forall. intros item Hitem%subseteq_take.
      rewrite Forall_forall in Hready. by apply Hready. }
    rewrite (split_lines_join (map (summary_bullet chatId) (take 3 (a0 :: acc)))).
    + by apply summary_bullets_of_lines.
    + done.
    + apply Forall_fmap. eapply Forall_impl; [exact Hshown|].
      intros item Hitem. by apply summary_bullet_line.
Qed.

(** X11, witness: the summary of the log with two answers. *)
Lemma summary_bullets_of_summary_witness :
  summary_bullets
    (summary (generateChatSummary ascii_toLowerCase
                [JStr (js "hello"); JStr (js "thanks")]
                [JStr (js "ok"); JStr (js "created the login page for you")]
                (JStr (js "hello")) (js "c1")))
  = [[bullet] ++ js " the login page for you"].
Proof.
  rewrite summary_bullets_of_summary.
  - vm_compute. reflexivity.
  - vm_compute. intros Hin%list_elem_of_In. simpl in Hin. intuition discriminate.
  - vm_compute. intros Hin%list_elem_of_In. simpl in Hin. intuition discriminate.
Defined.

(** ** The map of persisted entries *)

(** X12. The lookup in the map built from the persisted entries returns
    the last entry of the document with the key, and nothing when no entry
    has it: of two entries with the same project and id the later one is
    the one whose summaries are carried forward. *)
Theorem existingMap_last_wins (existingIndex : list Thread.t) (key : jsstring) :
  existingMap existingIndex !! key
  = List.find (fun t => jsstring_eqb (keyOf t) key) (rev existingIndex).
Proof.
  induction existingIndex as [|t l IH] using rev_ind; [done|].
  rewrite existingMap_snoc, rev_app_distr. cbn [rev app List.find].
  destruct (jsstring_eqb (keyOf t) key) eqn:Hk.
  - apply jsstring_eqb_eq in Hk. subst key. apply lookup_insert_eq.
  - rewrite lookup_insert_ne; [done|].
    intros Heq. apply jsstring_eqb_eq in Heq. congruence.
Qed.

(** ** The order of the written index *)

Lemma date_leb_total (a b : Thread.t) :
  Z.leb (Thread.date b) (Thread.date a) = true \/ Z.leb (Thread.date a) (Thread.date b) = true.
Proof. rewrite !Z.leb_le. lia. Qed.

Lemma date_leb_trans (a b c : Thread.t) :
  Z.leb (Thread.date b) (Thread.date a) = true -> Z.leb (Thread.date c) (Thread.date b) = true ->
  Z.leb (Thread.date c) (Thread.date a) = true.
Proof. rewrite !Z.leb_le. lia. Qed.

(** X19. The index the merge builds holds one entry for each observed
    conversation, the newest first; entries with the same date keep the
    order in which the conversations were visited. The merge builds no
    index exactly when the first message of an observed conversation is no
    text. *)
Theorem newIndex_newest_first (existingIndex : list Thread.t) (chatsByProject : ChatsByProject) :
  let visited := map (merged existingIndex) (observed chatsByProject) in
  match newIndex existingIndex chatsByProject with
  | Ok index' =>
      Forall2 (fun oc t => threadInfo (lookupThread existingIndex oc) oc.1 oc.2 = Ok t)
              (observed chatsByProject) visited /\
      index' ≡ₚ visited /\
      StronglySorted (fun a b => (Thread.date b <= Thread.date a)%Z) index' /\
      forall date, List.filter (fun t => Z.eqb (Thread.date t) date) index'
                   = List.filter (fun t => Z.eqb (Thread.date t) date) visited
  | Throw => Exists (fun oc => first_is_text oc.2 = false) (observed chatsByProject)
  end.
Proof.
  intros visited.
  destruct (all_text_or_not chatsByProject) as [Hall|Hex].
  - rewrite newIndex_Ok by done. split.
    { unfold visited. apply Forall2_fmap_r, Forall_Forall2_diag.
      eapply Forall_impl; [exact Hall|]. intros oc Hoc. by apply threadInfo_Ok. }
    split; [apply sorted_entries_perm|]. split.
    + eapply StronglySorted_weaken;
        [|apply sort_by_sorted; [apply date_leb_total|apply date_leb_trans]].
      intros a b Hab. by apply Z.leb_le.
    + intros date.
      set (probe := Thread.mk [] [] date [] None None None 0 TsNull None None None None None).
      pose proof (sort_by_stable (fun a b => Z.leb (Thread.date b) (Thread.date a))
                    date_leb_trans probe visited) as Hst.
      assert (Hext : forall t, Z.eqb (Thread.date t) date
                     = tied (fun a b => Z.leb (Thread.date b) (Thread.date a)) probe t).
      { intros t. unfold tied. simpl.
        destruct (Z.eqb_spec (Thread.date t) date), (Z.leb_spec (Thread.date t) date),
          (Z.leb_spec date (Thread.date t)); simpl; try done; lia. }
      unfold sorted_entries. fold visited. by rewrite !(List.filter_ext _ _ Hext).
  - unfold newIndex, build. by rewrite visit_Throw.
Qed.

(** ** Results of the find *)

Lemma collect_results_literal toLowerCase canonicalize searchTerm currentMinMessages
    c t chatCards :
  toLowerCase searchTerm = c :: t ->
  Forall (fun x => isSyntaxChar x = false) (c :: t) ->
  collect_results toLowerCase canonicalize (toLowerCase searchTerm) currentMinMessages chatCards
  = Some (omap (literal_result toLowerCase canonicalize searchTerm currentMinMessages)
               chatCards).
Proof.
  intros Hlower Hplain.
  induction chatCards as [|card rest IH]; [done|].
  cbn [collect_results]. rewrite omap_cons_list. unfold literal_result at 1.
  destruct (Nat.leb (Card.messageCount card) currentMinMessages); [by rewrite IH|].
  rewrite IH. rewrite Hlower, countMatches_literal by done.
  cbn [mbind option_bind].
  by destruct (Nat.ltb 0 (literal_count canonicalize (c :: t)
                            (toLowerCase (Card.searchable card)))).
Qed.


Section AnyTermFacts.

Variable toLowerCase : jsstring -> jsstring.
Variable RegExp_count : jsstring -> jsstring -> result nat.

Let count (searchLower : jsstring) (c : Card.t) : result nat :=
  AnyTerm.countMatches RegExp_count (toLowerCase (Card.searchable c)) searchLower.

Lemma collect_results_Ok searchLower currentMinMessages chatCards results :
  AnyTerm.collect_results toLowerCase RegExp_count searchLower currentMinMessages chatCards
  = Ok results ->
  map card results `sublist_of` chatCards /\
  Forall (fun r => currentMinMessages < Card.messageCount (card r) /\ 1 <= matches r /\
                   count searchLower (card r) = Ok (matches r)) results /\
  (forall c n, c ∈ chatCards -> currentMinMessages < Card.messageCount c ->
               count searchLower c = Ok n -> 1 <= n -> mkFindResult c n ∈ results).
Proof.
  revert results. induction chatCards as [|c rest IH]; intros results.
  - intros [= <-]. split; [done|]. split; [constructor|]. by intros c n ?%elem_of_nil.
  - cbn [AnyTerm.collect_results].
    destruct (Nat.leb_spec (Card.messageCount c) currentMinMessages) as [Hle|Hlt].
    + intros (Hsub & Hall & Hin)%IH. split; [by apply sublist_cons|]. split; [done|].
      intros c0 n [->|Hc0]%elem_of_cons Hmin; [lia|by apply Hin].
    + fold (count searchLower c).
      destruct (count searchLower c) as [n|] eqn:Hn; [|done].
      destruct (AnyTerm.collect_results _ _ _ _ rest) as [results0|]; [|done].
      destruct (IH results0 eq_refl) as (Hsub & Hall & Hin). cbn [mbind result_bind].
      destruct (Nat.ltb_spec 0 n) as [Hpos|Hzero]; intros [= <-].
      * split; [simpl; by apply sublist_skip|].
        split; [constructor; [by split_and!|done]|].
        intros c0 n0 [->|Hc0]%elem_of_cons Hmin Hcount Hone.
        -- rewrite Hn in Hcount. injection Hcount as <-. left.
        -- right. by apply Hin.
      * split; [by apply sublist_cons|]. split; [done|].
        intros c0 n0 [->|Hc0]%elem_of_cons Hmin Hcount Hone.
        -- rewrite Hn in Hcount. injection Hcount as <-. lia.
        -- by apply Hin.
Qed.

Lemma collect_results_Throw searchLower currentMinMessages chatCards :
  AnyTerm.collect_results toLowerCase RegExp_count searchLower currentMinMessages chatCards
  = Throw ->
  exists c, c ∈ chatCards /\ currentMinMessages < Card.messageCount c /\
            count searchLower c = Throw.
Proof.
  induction chatCards as [|c rest IH]; [done|].
  cbn [AnyTerm.collect_results].
  destruct (Nat.leb_spec (Card.messageCount c) currentMinMessages) as [Hle|Hlt].
  - intros (c0 & Hc0 & Hrest)%IH. exists c0. split; [by right|done].
  - fold (count searchLower c).
    destruct (count searchLower c) as [n|] eqn:Hn.
    + destruct (AnyTerm.collect_results _ _ _ _ rest) as [results0|]; [done|].
      intros _. destruct (IH eq_refl) as (c0 & Hc0 & Hrest).
      exists c0. split; [by right|done].
    + intros _. exists c. split; [left|done].
Qed.

(** What the find appends are cards of the page. *)
Lemma performFind_cards searchTerm currentMinMessages chatCards results :
  AnyTerm.performFind toLowerCase RegExp_count searchTerm currentMinMessages chatCards
  = Ok results ->
  forall r, r ∈ results -> card r ∈ chatCards.
Proof.
  unfold AnyTerm.performFind.
  destruct (nonempty searchTerm); [|by intros [= <-] r ?%elem_of_nil].
  destruct (AnyTerm.collect_results _ _ _ _ _) as [collected|] eqn:Hcollect; [|done].
  intros [= <-] r Hr. unfold sortByMatches in Hr. rewrite sort_by_perm in Hr.
  destruct (collect_results_Ok _ _ _ _ Hcollect) as [Hsub _].
  eapply elem_of_sublist; [|exact Hsub]. apply list_elem_of_fmap. eauto.
Qed.

(** On the patterns of the fragment the find for any term is the find
    of the fragment. *)
Lemma performFind_fragment canonicalize searchTerm currentMinMessages chatCards results :
  counts_fragment canonicalize RegExp_count ->
  performFind toLowerCase canonicalize searchTerm currentMinMessages chatCards
  = Some results ->
  AnyTerm.performFind toLowerCase RegExp_count searchTerm currentMinMessages chatCards
  = Ok results.
Proof.
  intros Hengine. unfold performFind, AnyTerm.performFind.
  destruct (nonempty searchTerm); [|by intros [= <-]].
  destruct (collect_results _ _ _ _ _) as [collected|] eqn:Hcollect; [|done].
  intros [= <-].
  assert (AnyTerm.collect_results toLowerCase RegExp_count (toLowerCase searchTerm)
            currentMinMessages chatCards = Ok collected) as ->; [|done].
  revert collected Hcollect. induction chatCards as [|c rest IH]; intros collected.
  - by intros [= <-].
  - cbn [collect_results AnyTerm.collect_results].
    destruct (Nat.leb (Card.messageCount c) currentMinMessages); [apply IH|].
    unfold countMatches, AnyTerm.countMatches.
    destruct (nonempty (toLowerCase searchTerm)).
    + destruct (compile _) as [re|] eqn:Hre; [|done].
      rewrite (Hengine _ _ _ Hre). cbn [mbind option_bind result_bind].
      destruct (collect_results _ _ _ _ rest) as [results0|]; [|done].
      rewrite (IH results0 eq_refl). cbn [mbind option_bind result_bind]. by intros [= <-].
    + cbn [mbind option_bind result_bind].
      destruct (collect_results _ _ _ _ rest) as [results0|]; [|done].
      rewrite (IH results0 eq_refl). cbn [mbind option_bind result_bind]. by intros [= <-].
Qed.

End AnyTermFacts.

(** X14. Whatever the term and whatever it means as a regular expression,
    the results of the find are the cards that pass the message filter and
    have at least one match, each with its number of matches, in
    descending order of that number; the cards with the same number of
    matches stand in the order of the page. No results come about only
    when the regular expression is rejected for a card that passes the
    filter. *)
Theorem performFind_ranking
    (toLowerCase : jsstring -> jsstring)
    (RegExp_count : jsstring -> jsstring -> result nat)
    (searchTerm : jsstring) (currentMinMessages : nat) (chatCards : list Card.t) :
  searchTerm <> [] ->
  let count c :=
    AnyTerm.countMatches RegExp_count (toLowerCase (Card.searchable c))
                         (toLowerCase searchTerm) in
  match AnyTerm.performFind toLowerCase RegExp_count searchTerm currentMinMessages
          chatCards with
  | Ok results =>
      StronglySorted (fun a b => matches b <= matches a) results /\
      (forall r, r ∈ results ->
         card r ∈ chatCards /\ currentMinMessages < Card.messageCount (card r) /\
         1 <= matches r /\ count (card r) = Ok (matches r)) /\
      (forall c n, c ∈ chatCards -> currentMinMessages < Card.messageCount c ->
                   count c = Ok n -> 1 <= n -> mkFindResult c n ∈ results) /\
      (forall k, map card (List.filter (fun r => Nat.eqb (matches r) k) results)
                 `sublist_of` chatCards)
  | Throw =>
      exists c, c ∈ chatCards /\ currentMinMessages < Card.messageCount c /\
                count c = Throw
  end.
Proof.
  intros Hterm count. unfold AnyTerm.performFind.
  destruct searchTerm as [|s0 s]; [done|]. cbn [nonempty].
  destruct (AnyTerm.collect_results _ _ _ _ _) as [collected|] eqn:Hcollect;
    cbn [mbind result_bind].
  - destruct (collect_results_Ok _ _ _ _ _ _ Hcollect) as (Hsub & Hall & Hin).
    destruct (sortByMatches_descending_stable collected) as (Hperm & Hsorted & Hstable).
    split; [done|]. split; [|split].
    + intros r Hr. rewrite Hperm in Hr. rewrite Forall_forall in Hall.
      destruct (Hall r Hr) as (? & ? & ?). split_and!; try done.
      eapply elem_of_sublist; [|exact Hsub]. apply list_elem_of_fmap. eauto.
    + intros c n Hc Hmin Hcount Hone. rewrite Hperm. by apply Hin.
    + intros k. rewrite Hstable. etrans; [|exact Hsub].
      apply (fmap_sublist card). clear. induction collected as [|r l IH]; [done|].
      cbn [List.filter].
      destruct (Nat.eqb (matches r) k); [by apply sublist_skip|by apply sublist_cons].
  - by apply collect_results_Throw.
Qed.

(** X14, witness: the query [a.c] over the two cards. *)
Lemma performFind_ranking_witness :
  AnyTerm.performFind ascii_toLowerCase fragment_count (js "a.c") 0
    [card_wildcard; card_literal]
  = Ok [mkFindResult card_wildcard 3; mkFindResult card_literal 1] /\
  StronglySorted (fun a b => matches b <= matches a)
                 [mkFindResult card_wildcard 3; mkFindResult card_literal 1].
Proof.
  assert (Hterm : js "a.c" <> []) by done.
  pose proof (performFind_ranking ascii_toLowerCase fragment_count (js "a.c") 0
                [card_wildcard; card_literal] Hterm) as H.
  assert (Hrun : AnyTerm.performFind ascii_toLowerCase fragment_count (js "a.c") 0
                   [card_wildcard; card_literal]
                 = Ok [mkFindResult card_wildcard 3; mkFindResult card_literal 1]).
  { vm_compute. reflexivity. }
  cbv zeta in H. rewrite Hrun in H. split; [exact Hrun|]. exact (proj1 H).
Defined.

(** X15. For a term that holds no metacharacter of regular expressions
    (after lower-casing) the find shows exactly the cards that have more
    messages than the filter asks for and at least one occurrence of the
    term, whatever the case; it ranks them by the number of occurrences
    that do not overlap, the most first, and leaves cards with the same
    number in the order of the page. *)
Theorem performFind_plain_term
    (toLowerCase : jsstring -> jsstring) (canonicalize : char -> char)
    (searchTerm : jsstring) (currentMinMessages : nat) (chatCards : list Card.t) :
  searchTerm <> [] ->
  toLowerCase searchTerm <> [] ->
  Forall (fun x => isSyntaxChar x = false) (toLowerCase searchTerm) ->
  let shown := omap (literal_result toLowerCase canonicalize searchTerm currentMinMessages)
                    chatCards in
  exists results,
    performFind toLowerCase canonicalize searchTerm currentMinMessages chatCards
    = Some results /\
    results ≡ₚ shown /\
    StronglySorted (fun a b => matches b <= matches a) results /\
    (forall k, List.filter (fun r => Nat.eqb (matches r) k) results
               = List.filter (fun r => Nat.eqb (matches r) k) shown) /\
    (forall r, r ∈ results ->
       card r ∈ chatCards /\ currentMinMessages < Card.messageCount (card r) /\
       1 <= matches r /\
       matches r = literal_count canonicalize (toLowerCase searchTerm)
                     (toLowerCase (Card.searchable (card r)))).
Proof.
  intros Hterm Hlower Hplain shown.
  destruct (toLowerCase searchTerm) as [|c t] eqn:Hl; [done|].
  exists (sortByMatches shown).
  destruct (sortByMatches_descending_stable shown) as (Hperm & Hsorted & Hstable).
  split_and!; try done.
  - unfold performFind. destruct searchTerm as [|s0 s]; [done|]. cbn [nonempty].
    rewrite (collect_results_literal _ _ _ _ c t) by (by rewrite ?Hl). done.
  - intros r Hr. rewrite Hperm in Hr. unfold shown in Hr.
    apply list_elem_of_omap in Hr as (card0 & Hcard & Hres).
    unfold literal_result in Hres.
    destruct (Nat.leb_spec (Card.messageCount card0) currentMinMessages); [done|].
    rewrite Hl in Hres.
    destruct (Nat.ltb_spec 0 (literal_count canonicalize (c :: t)
                                (toLowerCase (Card.searchable card0)))); [|done].
    injection Hres as <-. by split_and!.
Qed.

(** X15, witness: the two cards of the page searched for [abc]. *)
Lemma performFind_plain_term_witness :
  performFind ascii_toLowerCase ascii_canonicalize (js "ABC") 0 [card_literal; card_wildcard]
  = Some [mkFindResult card_wildcard 3].
Proof.
  destruct (performFind_plain_term ascii_toLowerCase ascii_canonicalize (js "ABC") 0
              [card_literal; card_wildcard]) as (results & Hrun & Hperm & _);
    [done|done|vm_compute; repeat constructor|].
  rewrite Hrun. f_equal.
  change (omap _ _) with [mkFindResult card_wildcard 3] in Hperm.
  by apply Permutation_singleton_r in Hperm.
Defined.

(** ** The order of the cards on the page *)

Lemma existsb_eqb_elem n nodes : existsb (Nat.eqb n) nodes = true <-> n ∈ nodes.
Proof.
  rewrite existsb_exists. split.
  - intros (m & Hm%list_elem_of_In & ->%Nat.eqb_eq). done.
  - intros Hn. exists n. split; [by apply list_elem_of_In|apply Nat.eqb_refl].
Qed.

Lemma other_nodes_app nodes a b :
  other_nodes nodes (a ++ b) = other_nodes nodes a ++ other_nodes nodes b.
Proof. apply List.filter_app. Qed.

(** Moving a card to the end leaves the other children where they
    are. *)
Lemma other_nodes_appendChild nodes children n :
  n ∈ nodes -> other_nodes nodes (appendChild children n) = other_nodes nodes children.
Proof.
  intros Hn. unfold appendChild. rewrite other_nodes_app.
  assert (other_nodes nodes [n] = []) as ->.
  { unfold other_nodes. cbn [List.filter].
    by rewrite (proj2 (existsb_eqb_elem n nodes) Hn). }
  rewrite app_nil_r. unfold other_nodes.
  induction children as [|m children IH]; [done|].
  cbn [List.filter]. destruct (Nat.eqb_spec m n) as [->|Hne]; cbn [negb].
  - by rewrite (proj2 (existsb_eqb_elem n nodes) Hn).
  - cbn [List.filter]. by rewrite IH.
Qed.

Lemma other_nodes_append_cards nodes children cards :
  Forall (fun c => Card.node c ∈ nodes) cards ->
  other_nodes nodes (append_cards children cards) = other_nodes nodes children.
Proof.
  intros Hall. revert children. induction Hall as [|c cards Hc _ IH]; intros children; [done|].
  cbn [append_cards foldl]. fold (append_cards (appendChild children (Card.node c)) cards).
  by rewrite IH, other_nodes_appendChild.
Qed.

Lemma filter_filter_nodes n nodes children :
  List.filter (fun m => negb (existsb (Nat.eqb m) nodes))
    (List.filter (fun m => negb (Nat.eqb m n)) children)
  = List.filter (fun m => negb (existsb (Nat.eqb m) (n :: nodes))) children.
Proof.
  induction children as [|m children IH]; [done|].
  cbn [List.filter existsb]. destruct (Nat.eqb m n); cbn [negb orb]; [done|].
  cbn [List.filter]. by rewrite IH.
Qed.

(** Appending cards with distinct nodes: the other children first, then
    the cards in the order given. *)
Lemma append_cards_spec children cards :
  NoDup (map Card.node cards) ->
  append_cards children cards
  = other_nodes (map Card.node cards) children ++ map Card.node cards.
Proof.
  revert children. induction cards as [|c cards IH]; intros children Hnd.
  - unfold other_nodes. cbn [map existsb negb append_cards foldl].
    rewrite app_nil_r. symmetry. induction children as [|m ch IHc]; [done|].
    cbn [List.filter]. by rewrite IHc.
  - cbn [map] in *. apply NoDup_cons in Hnd as [Hnotin Hnd].
    cbn [append_cards foldl]. fold (append_cards (appendChild children (Card.node c)) cards).
    rewrite IH by done. unfold appendChild. rewrite other_nodes_app.
    assert (other_nodes (map Card.node cards) [Card.node c] = [Card.node c]) as ->.
    { unfold other_nodes. cbn [List.filter].
      destruct (existsb _ _) eqn:Hex; [|done].
      by apply existsb_eqb_elem in Hex. }
    unfold other_nodes. rewrite filter_filter_nodes, <- app_assoc. done.
Qed.

Lemma originalOrder_from_cards index chatCards :
  map orig_card (originalOrder_from index chatCards) = chatCards.
Proof.
  revert index. induction chatCards as [|c rest IH]; intros index; [done|].
  simpl. by rewrite IH.
Qed.

Lemma originalOrder_from_sorted index chatCards :
  StronglySorted (fun x y => Nat.leb (originalIndex y) (originalIndex x) = false)
                 (originalOrder_from index chatCards) /\
  Forall (fun x => index <= originalIndex x) (originalOrder_from index chatCards).
Proof.
  revert index. induction chatCards as [|c rest IH]; intros index.
  - split; constructor.
  - destruct (IH (S index)) as [Hs Hall]. cbn [originalOrder_from]. split.
    + constructor; [done|].
      eapply Forall_impl; [exact Hall|]. intros x Hx. cbn [originalIndex].
      apply Nat.leb_gt. cbn beta in Hx. lia.
    + constructor; [cbn [originalIndex]; lia|].
      eapply Forall_impl; [exact Hall|]. intros x Hx. cbn beta in Hx. lia.
Qed.

Lemma originalIndex_leb_total (a b : Original) :
  Nat.leb (originalIndex a) (originalIndex b) = true \/
  Nat.leb (originalIndex b) (originalIndex a) = true.
Proof. rewrite !Nat.leb_le. lia. Qed.

Lemma originalIndex_leb_trans (a b c : Original) :
  Nat.leb (originalIndex a) (originalIndex b) = true ->
  Nat.leb (originalIndex b) (originalIndex c) = true ->
  Nat.leb (originalIndex a) (originalIndex c) = true.
Proof. rewrite !Nat.leb_le. lia. Qed.

(** The sort of [restoreOriginalOrder] finds the array in order. *)
Lemma originalOrder_sorted_already chatCards :
  sort_by (fun a b => Nat.leb (originalIndex a) (originalIndex b))
          (originalOrder_from 0 chatCards)
  = originalOrder_from 0 chatCards.
Proof.
  apply sort_by_unique.
  - apply originalIndex_leb_total.
  - apply originalIndex_leb_trans.
  - done.
  - apply originalOrder_from_sorted.
Qed.

Lemma restoreOriginalOrder_spec chatCards children :
  NoDup (map Card.node chatCards) ->
  restoreOriginalOrder (originalOrder_from 0 chatCards) children
  = other_nodes (map Card.node chatCards) children ++ map Card.node chatCards.
Proof.
  intros Hnd. unfold restoreOriginalOrder.
  rewrite originalOrder_sorted_already, originalOrder_from_cards.
  by apply append_cards_spec.
Qed.

(** X16. With distinct cards, [restoreOriginalOrder] leaves the children
    of the chat list that are no cards where they are and puts the cards
    behind them in their original order, whatever order the children were
    in. So after any find, with a term or without, whatever the term means
    as a regular expression and even when it is rejected, restoring gives
    the order that restoring gives at once: the ranking of a find is
    undone. *)
Theorem original_order_restored
    (toLowerCase : jsstring -> jsstring)
    (RegExp_count : jsstring -> jsstring -> result nat)
    (searchTerm : jsstring) (currentMinMessages : nat)
    (chatCards : list Card.t) (children : list nat) :
  NoDup (map Card.node chatCards) ->
  let nodes := map Card.node chatCards in
  let restore := restoreOriginalOrder (originalOrder_from 0 chatCards) in
  restore children = other_nodes nodes children ++ nodes /\
  restore (children_after_find toLowerCase RegExp_count searchTerm currentMinMessages
             chatCards children)
  = restore children.
Proof.
  intros Hnd nodes restore.
  split; [by apply restoreOriginalOrder_spec|].
  unfold restore.
  rewrite !restoreOriginalOrder_spec by done. f_equal. fold nodes.
  unfold children_after_find.
  destruct (nonempty searchTerm) eqn:Hterm.
  - destruct (AnyTerm.performFind _ _ _ _ _) as [results|] eqn:Hrun; [|done].
    apply other_nodes_append_cards. apply Forall_forall. intros c Hc.
    apply list_elem_of_fmap in Hc as (r & -> & Hr).
    pose proof (performFind_cards toLowerCase RegExp_count searchTerm
                  currentMinMessages chatCards results Hrun r Hr) as Hin.
    apply list_elem_of_fmap. eauto.
  - unfold restoreOriginalOrder.
    rewrite originalOrder_sorted_already, originalOrder_from_cards.
    apply other_nodes_append_cards, Forall_forall. intros c Hc.
    apply list_elem_of_fmap. eauto.
Qed.

(** X16, witness: two cards shown in reverse, with another node between
    them, before and after the find for [a.c]. *)
Lemma original_order_restored_witness :
  NoDup (map Card.node [card_wildcard; card_literal]) /\
  restoreOriginalOrder (originalOrder_from 0 [card_wildcard; card_literal]) [1; 7; 0]
  = [7; 0; 1] /\
  restoreOriginalOrder (originalOrder_from 0 [card_wildcard; card_literal])
    (children_after_find ascii_toLowerCase fragment_count (js "a.c") 0
       [card_wildcard; card_literal] [1; 7; 0])
  = [7; 0; 1].
Proof.
  assert (Hnd : NoDup (map Card.node [card_wildcard; card_literal])).
  { apply (bool_decide_unpack _). vm_compute. reflexivity. }
  pose proof (original_order_restored ascii_toLowerCase fragment_count (js "a.c") 0
                [card_wildcard; card_literal] [1; 7; 0] Hnd) as [H1 H2].
  split; [exact Hnd|]. split; [exact H1|]. rewrite H2. exact H1.
Defined.

(** ** Search terms in the Markdown export *)


(** A heading is marked like any other text; without a term the text is
    returned as it is. *)
Example highlightSearchTermMarkdown_example :
  highlightSearchTermMarkdown ascii_canonicalize (Some (JStr (js "## Notes on notes")))
    (Some (js "notes"))
  = Some (Ok (js "## **Notes** on **notes**")) /\
  highlightSearchTermMarkdown ascii_canonicalize (Some (JStr (js "## Notes"))) None
  = Some (Ok (js "## Notes")).
Proof. split; vm_compute; reflexivity. Qed.

(** ** The projects of the home page *)

Lemma assign_projects_snoc dirs dir :
  assign_projects (dirs ++ [dir])
  = match dir.2 with
    | [] => assign_projects dirs
    | _ :: _ => assign_project (assign_projects dirs) (extractProjectName dir.1) dir.2
    end.
Proof. unfold assign_projects. by rewrite foldl_app. Qed.

Lemma omap_snoc {A B} (f : A -> option B) l x :
  omap f (l ++ [x]) = omap f l ++ option_list (f x).
Proof. rewrite omap_app. f_equal. Qed.

(** X18. The chats the home page shows under a project name are those of
    the last directory, in the order of the listing, that has that name and
    at least one chat: directories whose names end in the same segment
    share one project, and the later one replaces the earlier one. The name
    [__proto__] is never a project. *)
Theorem projects_last_directory_wins
    (dirs : list (jsstring * list HomeChat)) (name : jsstring) :
  assign_projects dirs !! name
  = if jsstring_eqb name (js "__proto__") then None
    else last (omap (filed_under name) dirs).
Proof.
  induction dirs as [|dir dirs IH] using rev_ind.
  - by destruct (jsstring_eqb name (js "__proto__")).
  - rewrite assign_projects_snoc, omap_snoc. unfold filed_under at 2.
    destruct dir.2 as [|chat chats] eqn:Hchats.
    { simpl option_list. by rewrite app_nil_r. }
    unfold assign_project.
    destruct (jsstring_eqb (extractProjectName dir.1) (js "__proto__")) eqn:Hproto.
    + apply jsstring_eqb_eq in Hproto. rewrite IH.
      destruct (jsstring_eqb name (js "__proto__")) eqn:Hname; [done|].
      destruct (jsstring_eqb (extractProjectName dir.1) name) eqn:Heq.
      * apply jsstring_eqb_eq in Heq. rewrite <- Heq, Hproto in Hname.
        by rewrite (proj2 (jsstring_eqb_eq _ _) eq_refl) in Hname.
      * simpl option_list. by rewrite app_nil_r.
    + destruct (jsstring_eqb (extractProjectName dir.1) name) eqn:Heq.
      * apply jsstring_eqb_eq in Heq. rewrite <- Heq, Hproto, lookup_insert_eq.
        simpl option_list. by rewrite last_snoc.
      * rewrite lookup_insert_ne.
        -- rewrite IH. simpl option_list. by rewrite app_nil_r.
        -- intros Hsame. rewrite Hsame in Heq.
           by rewrite (proj2 (jsstring_eqb_eq _ _) eq_refl) in Heq.
Qed.

(** Two directories of two users with one project name: the home page
    shows the chats of the second only. *)
Example projects_collide_example :
  assign_projects app_dirs !! js "app" = Some [home_chat "-home-b-app" "c2"].
Proof. vm_compute. reflexivity. Qed.

(** ** Chat ids and file names *)

Lemma remove_first_extension stem :
  46%N ∉ stem -> remove_first (js ".jsonl") (stem ++ js ".jsonl") = stem.
Proof.
  induction stem as [|c stem IH]; intros Hdot; [done|].
  apply not_elem_of_cons in Hdot as [Hc Hstem].
  change ((c :: stem) ++ js ".jsonl") with (c :: (stem ++ js ".jsonl")).
  cbn [remove_first].
  assert (startsWith (js ".jsonl") (c :: stem ++ js ".jsonl") = false) as ->.
  { change (js ".jsonl") with (46%N :: js "jsonl") at 1. cbn [startsWith].
    by rewrite (proj2 (char_eqb_neq 46 c) Hc). }
  by rewrite IH.
Qed.

(** X20. For a log file whose name holds no dot before its extension, the
    id of the chat is the name without [.jsonl], so the file name that the
    view and the download build from the id, [id + '.jsonl'], is the name of
    the log again. *)
Theorem chat_id_names_log
    (toLowerCase : jsstring -> jsstring) (JSON_parse : jsstring -> option json)
    (JSON_stringify : json -> jsstring)
    (projectDir stem : jsstring) (mtime : Z) (content : jsstring) :
  46%N ∉ stem ->
  let chat := chat_of_log toLowerCase JSON_parse JSON_stringify projectDir
                (stem ++ js ".jsonl") mtime content in
  hc_id chat = stem /\ hc_id chat ++ js ".jsonl" = hc_filename chat.
Proof.
  intros Hdot chat.
  assert (Hid : hc_id chat = stem) by by apply remove_first_extension.
  split; [done|]. by rewrite Hid.
Qed.

(** X20, witness: the log [c1.jsonl]. *)
Lemma chat_id_names_log_witness :
  (46%N ∉ js "c1") /\
  hc_id (chat_of_log ascii_toLowerCase (parse_log alternating_log) (fun _ => [])
           (js "-home-a-app") (js "c1" ++ js ".jsonl") 1000
           (log_content alternating_log))
  = js "c1".
Proof.
  assert (Hdot : 46%N ∉ js "c1").
  { apply (bool_decide_unpack _). vm_compute. reflexivity. }
  split; [exact Hdot|].
  exact (proj1 (chat_id_names_log ascii_toLowerCase (parse_log alternating_log) (fun _ => [])
                  (js "-home-a-app") (js "c1") 1000 (log_content alternating_log) Hdot)).
Defined.

(** The first [.jsonl] of the name is removed, not the extension: the id
    of this log leads to another file name. *)
Example chat_id_other_file :
  let chat := chat_of_log ascii_toLowerCase (parse_log alternating_log) (fun _ => [])
                (js "-home-a-app") (js "a.jsonlb.jsonl") 1000
                (log_content alternating_log) in
  hc_id chat = js "ab.jsonl" /\ hc_id chat ++ js ".jsonl" <> hc_filename chat.
Proof. split; [vm_compute; reflexivity|]. vm_compute. discriminate. Qed.
